(** * Emu-OpenVOS: command resolution, sandboxed paths and the batch store

    A shallow embedding of [vos_emulator.py].  Python text is modelled as
    [string] over code points below 256 (Latin-1); the character classes
    below are the ones [str.isspace], [str.isalnum] and [str.lower] assign
    to those code points.  Library calls ([posixpath], [fnmatch], [int])
    are embedded next to the emulator functions that use them. *)

From stdpp Require Import base decidable option list strings gmap.
From Stdlib Require Import ZArith Lia Ascii DecimalString DecimalNat DecimalZ.

Local Open Scope Z_scope.
Local Open Scope nat_scope.

(** ** Python values shared by all components *)

(** A raised exception: its class name and [str(e)]. *)
Inductive pyexn := PyExn (kind msg : string).

Inductive pyres (A : Type) :=
  | Ok (a : A)
  | Raise (e : pyexn).
Arguments Ok {A} a.
Arguments Raise {A} e.

Definition exn_msg (e : pyexn) : string := let 'PyExn _ m := e in m.

(** ** [str] methods *)

Definition code (c : ascii) : nat := nat_of_ascii c.

Definition between (lo hi n : nat) : bool := (lo <=? n) && (n <=? hi).

(** [str.isspace] on one character. *)
Definition isspace (c : ascii) : bool :=
  let n := code c in
  between 9 13 n || between 28 32 n || (n =? 133) || (n =? 160).

(** [str.isalnum] on one character. *)
Definition isalnum (c : ascii) : bool :=
  let n := code c in
  between 48 57 n || between 65 90 n || between 97 122 n
  || (n =? 170) || (n =? 178) || (n =? 179) || (n =? 181) || (n =? 185)
  || (n =? 186) || between 188 190 n || between 192 214 n
  || between 216 246 n || between 248 255 n.

(** [str.lower] on one character. *)
Definition lower_char (c : ascii) : ascii :=
  let n := code c in
  if between 65 90 n || (between 192 222 n && negb (n =? 215))
  then ascii_of_nat (n + 32) else c.

Fixpoint lower (s : string) : string :=
  match s with
  | EmptyString => EmptyString
  | String c s' => String (lower_char c) (lower s')
  end.

Definition is_empty (s : string) : bool :=
  match s with EmptyString => true | _ => false end.

Fixpoint contains (c : ascii) (s : string) : bool :=
  match s with
  | EmptyString => false
  | String a s' => Ascii.eqb a c || contains c s'
  end.

Fixpoint lstrip_by (p : ascii → bool) (s : string) : string :=
  match s with
  | EmptyString => EmptyString
  | String c s' => if p c then lstrip_by p s' else s
  end.

Fixpoint rstrip_by (p : ascii → bool) (s : string) : string :=
  match s with
  | EmptyString => EmptyString
  | String c s' =>
      let r := rstrip_by p s' in
      if is_empty r && p c then EmptyString else String c r
  end.

Definition strip_by (p : ascii → bool) (s : string) : string :=
  rstrip_by p (lstrip_by p s).

(** [s.strip()] *)
Definition strip : string → string := strip_by isspace.

(** [s.strip(chars)] *)
Definition strip_chars (chars : string) : string → string :=
  strip_by (λ c, contains c chars).

(** [s.split()]: maximal runs of non-whitespace characters. *)
Fixpoint split_ws (s : string) : list string :=
  match s with
  | EmptyString => []
  | String c s' =>
      if isspace c then split_ws s'
      else match s' with
           | EmptyString => [String c EmptyString]
           | String c' _ =>
               if isspace c' then String c EmptyString :: split_ws s'
               else match split_ws s' with
                    | w :: ws => String c w :: ws
                    | [] => [String c EmptyString]
                    end
           end
  end.

(** [s.split(sep)] for a one-character separator; never the empty list. *)
Fixpoint split_on (sep : ascii) (s : string) : list string :=
  match s with
  | EmptyString => [EmptyString]
  | String c s' =>
      if Ascii.eqb c sep then EmptyString :: split_on sep s'
      else match split_on sep s' with
           | w :: ws => String c w :: ws
           | [] => [String c EmptyString]
           end
  end.

(** [sep.join(parts)] *)
Fixpoint str_join (sep : string) (parts : list string) : string :=
  match parts with
  | [] => EmptyString
  | [p] => p
  | p :: ps => p +:+ sep +:+ str_join sep ps
  end.

(** [s[:n]] and [s[n:]] for [n >= 0]. *)
Fixpoint str_take (n : nat) (s : string) : string :=
  match n, s with
  | S n', String c s' => String c (str_take n' s')
  | _, _ => EmptyString
  end.

Fixpoint str_drop (n : nat) (s : string) : string :=
  match n, s with
  | S n', String _ s' => str_drop n' s'
  | _, _ => s
  end.

(** [s[:-n]] for [n > 0]. *)
Definition str_drop_end (n : nat) (s : string) : string :=
  str_take (String.length s - n) s.

Fixpoint startswith (s p : string) {struct p} : bool :=
  match p, s with
  | EmptyString, _ => true
  | String a p', String b s' => Ascii.eqb a b && startswith s' p'
  | String _ _, EmptyString => false
  end.

(** [s.endswith(p)]: some suffix of [s] is [p]. *)
Fixpoint endswith (s p : string) : bool :=
  String.eqb s p
  || match s with
     | EmptyString => false
     | String _ s' => endswith s' p
     end.

Fixpoint str_filter (p : ascii → bool) (s : string) : string :=
  match s with
  | EmptyString => EmptyString
  | String c s' => if p c then String c (str_filter p s') else str_filter p s'
  end.

Fixpoint last_char (s : string) : option ascii :=
  match s with
  | EmptyString => None
  | String c s' =>
      match last_char s' with
      | None => Some c
      | Some x => Some x
      end
  end.

Fixpoint str_map (f : ascii → ascii) (s : string) : string :=
  match s with
  | EmptyString => EmptyString
  | String c s' => String (f c) (str_map f s')
  end.

(** [l[-1]] with a default for the empty list. *)
Definition last_or (d : string) (l : list string) : string := List.last l d.

Definition dquote : ascii := ascii_of_nat 34.
Definition squote : ascii := "'"%char.
Definition gt_sign : ascii := ">"%char.
Definition slash : ascii := "/"%char.
Definition dot : ascii := "."%char.
Definition newline : ascii := ascii_of_nat 10.
Definition nl : string := String newline EmptyString.

(** ** [posixpath] *)

Module posixpath.

Definition isabs (s : string) : bool := startswith s "/".

(** One step of [os.path.join]: extend [path] with the component [b]. *)
Definition join2 (path b : string) : string :=
  if startswith b "/" then b
  else if is_empty path || endswith path "/" then path +:+ b
  else path +:+ "/" +:+ b.

(** [os.path.join(a, *p)] *)
Definition join (a : string) (p : list string) : string :=
  fold_left join2 p a.

(** [os.path.basename] *)
Definition basename (p : string) : string :=
  last_or EmptyString (split_on slash p).

(** The loop of [normpath] over the components; [acc] is [new_comps]
    with its last element first. *)
Fixpoint norm_comps (initial_slashes : nat) (acc comps : list string)
  : list string :=
  match comps with
  | [] => rev acc
  | comp :: rest =>
      if String.eqb comp "" || String.eqb comp "." then
        norm_comps initial_slashes acc rest
      else if negb (String.eqb comp "..")
              || ((initial_slashes =? 0) && bool_decide (acc = []))
              || match acc with
                 | top :: _ => String.eqb top ".."
                 | [] => false
                 end
      then norm_comps initial_slashes (comp :: acc) rest
      else norm_comps initial_slashes (tl acc) rest
  end.

Fixpoint repeat_str (s : string) (n : nat) : string :=
  match n with O => EmptyString | S n' => s +:+ repeat_str s n' end.

(** [os.path.normpath] *)
Definition normpath (path : string) : string :=
  if is_empty path then "." else
  let initial_slashes :=
    if startswith path "/" then
      if startswith path "//" && negb (startswith path "///") then 2 else 1
    else 0 in
  let comps := norm_comps initial_slashes [] (split_on slash path) in
  let path := repeat_str "/" initial_slashes +:+ str_join "/" comps in
  if is_empty path then "." else path.

(** [os.path.abspath], with [cwd] the value of [os.getcwd()]. *)
Definition abspath (cwd path : string) : string :=
  normpath (if isabs path then path else join cwd [path]).

(** [len(commonprefix([l1, l2]))] for two lists of components. *)
Fixpoint common_len (l1 l2 : list string) : nat :=
  match l1, l2 with
  | a :: l1', b :: l2' => if String.eqb a b then S (common_len l1' l2') else 0
  | _, _ => 0
  end.

Definition nonempty_comps (p : string) : list string :=
  List.filter (λ x, negb (is_empty x)) (split_on slash p).

(** [os.path.relpath(path, start)] for a non-empty [path]. *)
Definition relpath (cwd path start : string) : string :=
  let start_list := nonempty_comps (abspath cwd start) in
  let path_list := nonempty_comps (abspath cwd path) in
  let i := common_len start_list path_list in
  let rel_list := repeat ".." (length start_list - i) ++ drop i path_list in
  match rel_list with
  | [] => "."
  | a :: p => join a p
  end.

End posixpath.

(** The part of [os.path.join] put before a relative component. *)
Definition dir_prefix (root : string) : string :=
  if is_empty root || endswith root "/" then root else root +:+ "/".

(** ** Batch process names *)

(** [_derive_process_name]; [Raise] is the [IndexError] of [split()[0]] on a
    command line made of whitespace only. *)
Definition _derive_process_name (command_line : string) : pyres string :=
  if is_empty command_line then Ok "batch"
  else
    match split_ws (strip command_line) with
    | [] => Raise (PyExn "IndexError" "list index out of range")
    | first_word :: _ =>
        let first_word :=
          strip_chars (String squote (String dquote EmptyString)) first_word in
        let first_word :=
          if contains gt_sign first_word
          then last_or EmptyString (split_on gt_sign first_word)
          else first_word in
        let first_word := posixpath.basename first_word in
        let first_word :=
          if contains dot first_word
          then hd EmptyString (split_on dot first_word)
          else first_word in
        let name :=
          str_filter (λ ch, isalnum ch || contains ch "_-") first_word in
        let name := if is_empty name then "batch" else name in
        Ok (str_take 32 name)
    end.


(** ** Process-wide state *)

Record globals := {
  STATE_DIR : string;
  CURRENT_DIR : string;
  LAST_ERROR : option string
}.

Definition set_current_dir (d : string) (g : globals) : globals :=
  {| STATE_DIR := STATE_DIR g; CURRENT_DIR := d; LAST_ERROR := LAST_ERROR g |}.

Definition _ok (msg : string) : string := "[OK] " +:+ msg.

(** [_err] records the message in [LAST_ERROR] and formats it. *)
Definition _err (msg : string) (g : globals) : string * globals :=
  ("[ERR] " +:+ msg,
   {| STATE_DIR := STATE_DIR g; CURRENT_DIR := CURRENT_DIR g;
      LAST_ERROR := Some msg |}).

(** ** Path resolution *)

Definition nonempty (s : string) : bool := negb (is_empty s).

(** [os.path.join(STATE_DIR, CURRENT_DIR) if CURRENT_DIR else STATE_DIR] *)
Definition current_dir_path (g : globals) : string :=
  if nonempty (CURRENT_DIR g)
  then posixpath.join (STATE_DIR g) [CURRENT_DIR g]
  else STATE_DIR g.

Definition resolve_state_path (g : globals) (filename : string) : string :=
  if is_empty filename then current_dir_path g
  else
    let fname := strip filename in
    if posixpath.isabs fname then fname
    else if contains gt_sign fname then
      let parts := List.filter nonempty (split_on gt_sign fname) in
      if startswith fname ">" then posixpath.join (STATE_DIR g) parts
      else
        let base_parts :=
          if nonempty (CURRENT_DIR g) then split_on slash (CURRENT_DIR g)
          else [] in
        posixpath.join (STATE_DIR g) (base_parts ++ parts)
    else posixpath.join (current_dir_path g) [fname].

(** The legacy rendering of the working directory used by
    [h_display_current_dir] and [h_change_current_dir]. *)
Definition vos_format (current_dir : string) : string :=
  if nonempty current_dir
  then ">" +:+ str_join ">" (split_on slash current_dir)
  else ">".

Definition h_display_current_dir (g : globals) (args : list string)
  : string * globals :=
  match args with
  | _ :: _ => _err "usage: display_current_dir" g
  | [] => ("Current directory: " +:+ vos_format (CURRENT_DIR g), g)
  end.

Section ChangeDir.
(** The host: [os.getcwd()] and [os.path.isdir]. *)
Variable cwd : string.
Variable isdir : string → bool.

Definition h_change_current_dir (g : globals) (args : list string)
  : string * globals :=
  match args with
  | [target] =>
      let new_path := resolve_state_path g target in
      if negb (isdir new_path) then
        _err ("change_current_dir: target directory does not exist: "
              +:+ new_path) g
      else
        let abs_state := posixpath.abspath cwd (STATE_DIR g) in
        let abs_new := posixpath.abspath cwd new_path in
        if negb (startswith abs_new abs_state) then
          _err ("change_current_dir: target " +:+ new_path
                +:+ " is outside STATE_DIR") g
        else
          let rel := posixpath.relpath cwd abs_new abs_state in
          let g' := set_current_dir (if String.eqb rel "." then "" else rel) g in
          (_ok ("current directory set to " +:+ vos_format (CURRENT_DIR g')), g')
  | _ => _err "usage: change_current_dir <path>" g
  end.
End ChangeDir.

(** The working directories whose legacy rendering resolves back: every
    segment is non-empty and free of the legacy separator, and the last
    character is not whitespace. *)
Definition legacy_clean (d : string) : bool :=
  forallb (λ seg, nonempty seg && negb (contains gt_sign seg))
          (split_on slash d)
  && match last_char d with
     | Some c => negb (isspace c)
     | None => true
     end.

(** ** [fnmatch] *)

Module fnmatch.

(** One element of a translated pattern. *)
Inductive tok :=
  | Star
  | AnyChar
  | CharSet (negated : bool) (items : list (ascii * ascii))
  | Lit (c : ascii).

Definition hyphen : ascii := "-"%char.

(** The members of a bracket expression: single characters and the
    ranges [lo-hi]; a range whose ends are out of order is dropped. *)
Fixpoint set_items (body : list ascii) : list (ascii * ascii) :=
  match body with
  | [] => []
  | c :: rest =>
      match rest with
      | h :: rest' =>
          if Ascii.eqb h hyphen then
            match rest' with
            | [] => [(c, c); (hyphen, hyphen)]
            | y :: rest'' =>
                (if code c <=? code y then [(c, y)] else [])
                ++ set_items rest''
            end
          else (c, c) :: set_items rest
      | [] => [(c, c)]
      end
  end.

(** The text up to the next [']'], and what follows it. *)
Fixpoint until_close (s : string) : option (list ascii * string) :=
  match s with
  | EmptyString => None
  | String c s' =>
      if Ascii.eqb c "]" then Some ([], s')
      else match until_close s' with
           | Some (body, rest) => Some (c :: body, rest)
           | None => None
           end
  end.

(** A bracket expression after its ['[']: an optional ['!'], an optional
    literal [']'], then everything up to the closing [']']. *)
Definition bracket (s : string) : option (tok * string) :=
  let '(neg, s1) :=
    match s with
    | String "!" r => (true, r)
    | _ => (false, s)
    end in
  let '(first, s2) :=
    match s1 with
    | String "]" r => (["]"%char], r)
    | _ => ([], s1)
    end in
  match until_close s2 with
  | Some (body, rest) => Some (CharSet neg (set_items (first ++ body)), rest)
  | None => None
  end.

Fixpoint translate_go (fuel : nat) (pat : string) : list tok :=
  match fuel, pat with
  | S fuel', String c rest =>
      if Ascii.eqb c "*" then Star :: translate_go fuel' rest
      else if Ascii.eqb c "?" then AnyChar :: translate_go fuel' rest
      else if Ascii.eqb c "[" then
        match bracket rest with
        | Some (t, rest') => t :: translate_go fuel' rest'
        | None => Lit c :: translate_go fuel' rest
        end
      else Lit c :: translate_go fuel' rest
  | _, _ => []
  end.

(** [fnmatch.translate], as a token list. *)
Definition translate (pat : string) : list tok :=
  translate_go (String.length pat) pat.

Definition in_items (c : ascii) (items : list (ascii * ascii)) : bool :=
  existsb (λ r, (code (fst r) <=? code c) && (code c <=? code (snd r))) items.

(** Whole-string match of the translated pattern. *)
Fixpoint matches (toks : list tok) (s : string) : bool :=
  match toks with
  | [] => is_empty s
  | Star :: ts =>
      (fix star (s : string) : bool :=
         matches ts s
         || match s with
            | EmptyString => false
            | String _ s' => star s'
            end) s
  | AnyChar :: ts =>
      match s with
      | String _ s' => matches ts s'
      | EmptyString => false
      end
  | CharSet neg items :: ts =>
      match s with
      | String c s' => xorb neg (in_items c items) && matches ts s'
      | EmptyString => false
      end
  | Lit a :: ts =>
      match s with
      | String c s' => Ascii.eqb a c && matches ts s'
      | EmptyString => false
      end
  end.

(** [fnmatch.fnmatch(name, pat)] on a POSIX host, where [normcase] is the
    identity. *)
Definition fnmatch (name pat : string) : bool := matches (translate pat) name.

End fnmatch.

(** ** Insertion-ordered dictionaries ([dict], [OrderedDict]) *)

Definition dict (V : Type) : Type := list (string * V).

Definition dict_keys {V} (d : dict V) : list string := List.map fst d.

Fixpoint dict_get {V} (k : string) (d : dict V) : option V :=
  match d with
  | [] => None
  | (k', v) :: d' => if String.eqb k' k then Some v else dict_get k d'
  end.

Definition dict_has {V} (k : string) (d : dict V) : bool :=
  match dict_get k d with Some _ => true | None => false end.

(** [d[k] = v]: the value is replaced in place, a new key goes last. *)
Fixpoint dict_set {V} (k : string) (v : V) (d : dict V) : dict V :=
  match d with
  | [] => [(k, v)]
  | (k', v') :: d' =>
      if String.eqb k' k then (k', v) :: d' else (k', v') :: dict_set k v d'
  end.

(** [del d[k]] *)
Definition dict_del {V} (k : string) (d : dict V) : dict V :=
  List.filter (λ kv, negb (String.eqb (fst kv) k)) d.

Definition str_in (x : string) (l : list string) : bool :=
  existsb (String.eqb x) l.

(** ** The command registry *)

(** The handler functions of the emulator, and the closures made by
    [register_bulk]. *)
Module Fn.
Inductive t :=
  | h_list | h_create_file | h_copy_file | h_move_file
  | h_compare_files | h_delete_file | h_create_dir | h_copy_dir
  | h_move_dir | h_delete_dir | h_rename | h_display_file
  | h_display_file_status | h_display_dir_status | h_display_disk_usage
  | h_dump_file | h_list_users | h_list_library_paths | h_add_library_path
  | h_delete_library_path | h_set_language | h_set_time_zone
  | h_set_line_wrap_width | h_profile | h_add_profile | h_compare_dirs
  | h_clone_dir | h_clone_file | h_display_current_dir
  | h_display_current_module | h_display_date_time | h_display_line
  | h_change_current_dir | h_display_device_info | h_display_disk_info
  | h_display_system_usage | h_display_error | h_display_notices
  | h_display_terminal_parameters | h_locate_files | h_locate_large_files
  | h_locate_large_dirs | h_batch | h_display_batch_status
  | h_list_batch_requests | h_cancel_batch_requests
  | h_update_batch_requests | h_show_commands_status
  | _stub (key : string).
End Fn.

(** What a registry entry or the middle of a [_resolve] result holds: a
    callable, a plain string, or [None]. *)
Inductive value :=
  | VNone
  | VHandler (h : Fn.t)
  | VStr (s : string).

Definition ALIASES : dict string :=
  [ ("ls", "list"); ("ll", "list"); ("quit", "exit"); ("q", "exit");
    ("show commands report", "show commands status") ].

Definition BUILTINS : dict value :=
  [ ("list", VHandler Fn.h_list);
    ("create_file", VHandler Fn.h_create_file);
    ("copy_file", VHandler Fn.h_copy_file);
    ("move_file", VHandler Fn.h_move_file);
    ("compare_files", VHandler Fn.h_compare_files);
    ("delete_file", VHandler Fn.h_delete_file);
    ("create_dir", VHandler Fn.h_create_dir);
    ("copy_dir", VHandler Fn.h_copy_dir);
    ("move_dir", VHandler Fn.h_move_dir);
    ("delete_dir", VHandler Fn.h_delete_dir);
    ("rename", VHandler Fn.h_rename);
    ("display_file", VHandler Fn.h_display_file);
    ("display_file_status", VHandler Fn.h_display_file_status);
    ("display_dir_status", VHandler Fn.h_display_dir_status);
    ("display_disk_usage", VHandler Fn.h_display_disk_usage);
    ("dump_file", VHandler Fn.h_dump_file);
    ("list_users", VHandler Fn.h_list_users);
    ("list_library_paths", VHandler Fn.h_list_library_paths);
    ("add_library_path", VHandler Fn.h_add_library_path);
    ("delete_library_path", VHandler Fn.h_delete_library_path);
    ("set_language", VHandler Fn.h_set_language);
    ("set_time_zone", VHandler Fn.h_set_time_zone);
    ("set_line_wrap_width", VHandler Fn.h_set_line_wrap_width);
    ("profile", VHandler Fn.h_profile);
    ("add_profile", VHandler Fn.h_add_profile);
    ("compare_dirs", VHandler Fn.h_compare_dirs);
    ("clone_dir", VHandler Fn.h_clone_dir);
    ("clone_file", VHandler Fn.h_clone_file);
    ("display_current_dir", VHandler Fn.h_display_current_dir);
    ("display_current_module", VHandler Fn.h_display_current_module);
    ("display_date_time", VHandler Fn.h_display_date_time);
    ("display_line", VHandler Fn.h_display_line);
    ("change_current_dir", VHandler Fn.h_change_current_dir);
    ("display_device_info", VHandler Fn.h_display_device_info);
    ("display_disk_info", VHandler Fn.h_display_disk_info);
    ("display_system_usage", VHandler Fn.h_display_system_usage);
    ("display_error", VHandler Fn.h_display_error);
    ("display_notices", VHandler Fn.h_display_notices);
    ("display_terminal_parameters", VHandler Fn.h_display_terminal_parameters);
    ("locate_files", VHandler Fn.h_locate_files);
    ("locate_large_files", VHandler Fn.h_locate_large_files);
    ("locate_large_dirs", VHandler Fn.h_locate_large_dirs);
    ("batch", VHandler Fn.h_batch);
    ("display_batch_status", VHandler Fn.h_display_batch_status);
    ("list_batch_requests", VHandler Fn.h_list_batch_requests);
    ("cancel_batch_requests", VHandler Fn.h_cancel_batch_requests);
    ("update_batch_requests", VHandler Fn.h_update_batch_requests);
    ("show commands status", VHandler Fn.h_show_commands_status);
    ("show commands report", VHandler Fn.h_show_commands_status) ].

(** [register_bulk]: a stub for every listed name not yet registered. *)
Definition register_bulk (commands_dict : dict value) (names : list string)
  : dict value :=
  fold_left
    (λ d name,
       let key := strip name in
       if nonempty key && negb (dict_has key d)
       then dict_set key (VHandler (Fn._stub key)) d
       else d)
    names commands_dict.

(** The emulator-specific names kept besides those of the command list. *)
Definition emulator_commands : list string :=
  [ "list"; "create_file"; "copy_file"; "move_file"; "compare_files";
    "delete_file"; "create_dir"; "copy_dir"; "move_dir"; "delete_dir";
    "rename"; "display_file"; "display_file_status"; "display_dir_status";
    "display_disk_usage"; "dump_file"; "list_users"; "list_library_paths";
    "add_library_path"; "delete_library_path"; "set_language";
    "set_time_zone"; "set_line_wrap_width"; "profile"; "add_profile";
    "compare_dirs"; "clone_dir"; "clone_file"; "display_current_dir";
    "display_current_module"; "display_date_time"; "display_line";
    "change_current_dir"; "display_device_info"; "display_disk_info";
    "display_system_usage"; "display_error"; "display_notices";
    "display_terminal_parameters"; "locate_files"; "locate_large_dirs";
    "locate_large_files"; "batch"; "display_batch_status";
    "list_batch_requests"; "cancel_batch_requests"; "update_batch_requests";
    "show commands status"; "show commands report" ].

(** [{k.lower(): (k, v) for k, v in commands.items()}]: for names that
    differ only in case the later entry replaces the earlier one. *)
Definition build_ci (commands : dict value) : gmap string (string * value) :=
  fold_left (λ m kv, <[lower (fst kv) := kv]> m) commands ∅.

(** [{k.lower(): v for k, v in ALIASES.items()}] *)
Definition build_aliases (al : dict string) : dict string :=
  fold_left (λ d kv, dict_set (lower (fst kv)) (snd kv) d) al [].

(** Insertion into a list sorted by code-point order ([sorted]). *)
Fixpoint insert_sorted (x : string) (l : list string) : list string :=
  match l with
  | [] => [x]
  | y :: l' => if String.leb x y then x :: l else y :: insert_sorted x l'
  end.

Definition sorted (l : list string) : list string :=
  fold_right insert_sorted [] l.

Record VOShell := {
  commands : dict value;
  aliases : dict string;
  commands_ci : gmap string (string * value);
  index : list string
}.

(** [VOShell.__init__], given what [load_yaml_pack()] and
    [load_txt_commands()] return.  The bookkeeping of [STUB_COMMANDS] and
    [HELP_TEXT], which resolution does not read, is left out. *)
Definition VOShell_init (yaml_pack : dict string) (_txt : list string)
  : VOShell :=
  let commands := BUILTINS in
  let commands :=
    fold_left (λ d kv, dict_set (fst kv) (VStr (snd kv)) d) yaml_pack commands in
  let commands := register_bulk commands _txt in
  let allowed_commands := _txt ++ emulator_commands in
  let commands :=
    fold_left (λ d k, if str_in k allowed_commands then d else dict_del k d)
              (dict_keys commands) commands in
  let commands :=
    fold_left (λ d a, if dict_has a d then dict_del a d else d)
              (dict_keys ALIASES) commands in
  {| commands := commands;
     aliases := build_aliases ALIASES;
     commands_ci := build_ci commands;
     index := sorted (dict_keys commands) |}.

(** ** Resolution *)

Definition _split_cmd_args (line : string)
    (commands_ci : gmap string (string * value)) : string * list string :=
  match split_ws (strip line) with
  | [] => ("", [])
  | [p0] => (p0, [])
  | p0 :: p1 :: rest =>
      let two := lower (p0 +:+ " " +:+ p1) in
      if bool_decide (is_Some (commands_ci !! two))
      then (p0 +:+ " " +:+ p1, rest)
      else (p0, p1 :: rest)
  end.

(** Stable insertion by decreasing length:
    [sorted(keys, key=len, reverse=True)]. *)
Fixpoint insert_by_len (x : string) (l : list string) : list string :=
  match l with
  | [] => [x]
  | y :: l' =>
      if String.length y <? String.length x then x :: l
      else y :: insert_by_len x l'
  end.

Definition longest_first (keys : list string) : list string :=
  fold_left (λ acc k, insert_by_len k acc) keys [].

(** The alias loop: the first pattern, longest first, that is the line or
    a prefix of it followed by a space rewrites the line once. *)
Fixpoint expand_alias (al : dict string) (keys : list string)
    (line line_lc : string) : string :=
  match keys with
  | [] => line
  | a :: keys' =>
      if String.eqb line_lc a || startswith line_lc (a +:+ " ") then
        strip (default "" (dict_get a al) +:+ str_drop (String.length a) line)
      else expand_alias al keys' line line_lc
  end.

(** The trimmed line after the single alias pass. *)
Definition alias_expanded (sh : VOShell) (line : string) : string :=
  expand_alias (aliases sh) (longest_first (dict_keys (aliases sh)))
               line (lower line).

Definition ambiguous_message (candidates : list string) : string :=
  "Ambiguous command. Did you mean:" +:+ nl +:+ "  - "
  +:+ str_join (nl +:+ "  - ") (take 20 candidates)
  +:+ (if 20 <? length candidates then nl +:+ "  ... (more)" else "").

Definition unknown_message (sug : list string) : string :=
  "Unknown command. Closest matches:" +:+ nl +:+ "  - "
  +:+ str_join (nl +:+ "  - ") sug.

Section Resolve.
(** [fnmatch.fnmatch], and
    [difflib.get_close_matches(head, index, n=5, cutoff=0.6)]. *)
Variable fnmatch_fn : string → string → bool.
Variable get_close_matches : string → list string → list string.

(** The registered names that start with the head or match it as a
    glob, in registration order. *)
Definition candidates (sh : VOShell) (head_lc : string) : list string :=
  List.filter
    (λ k, startswith (lower k) head_lc || fnmatch_fn (lower k) head_lc)
    (dict_keys (commands sh)).

Definition _resolve (sh : VOShell) (line : string)
  : option string * value * list string :=
  let line := strip line in
  if is_empty line then (None, VNone, [])
  else
    let line := alias_expanded sh line in
    let line_lc := lower line in
    match commands_ci sh !! line_lc with
    | Some (orig, val) => (Some orig, val, [])
    | None =>
        let '(head, args) := _split_cmd_args line (commands_ci sh) in
        if is_empty head then (None, VNone, [])
        else
          let head_lc := lower head in
          match commands_ci sh !! head_lc with
          | Some (orig, val) => (Some orig, val, args)
          | None =>
              match candidates sh head_lc with
              | [key] =>
                  (Some key, default VNone (dict_get key (commands sh)), args)
              | (_ :: _ :: _) as cands =>
                  (None, VStr (ambiguous_message cands), [])
              | [] =>
                  match get_close_matches head (index sh) with
                  | [] => (None, VNone, [])
                  | sug => (None, VStr (unknown_message sug), [])
                  end
              end
          end
    end.
End Resolve.

(** A host on which [difflib] finds no close match; the examples below
    never reach the fuzzy step. *)
Definition no_close_matches (head : string) (index : list string)
  : list string := [].

(** The shell built without a command pack and without a command list. *)
Definition builtin_shell : VOShell := VOShell_init [] [].

(** What [__init__] establishes: the case-insensitive table is built from
    the registry, whose keys are distinct. *)
Definition shell_wf (sh : VOShell) : Prop :=
  commands_ci sh = build_ci (commands sh) ∧ NoDup (dict_keys (commands sh)).

(** No other registered name has the lower-case form of [n]. *)
Definition case_unique (sh : VOShell) (n : string) : bool :=
  forallb (λ k, implb (String.eqb (lower k) (lower n)) (String.eqb k n))
          (dict_keys (commands sh)).

(** No alias pattern is the lower-cased [n] or a prefix of it followed by
    a space. *)
Definition alias_free (sh : VOShell) (n : string) : bool :=
  forallb (λ a, negb (String.eqb (lower n) a)
                && negb (startswith (lower n) (a +:+ " ")))
          (dict_keys (aliases sh)).

(** ** A sample host for the path handlers *)

(** [path] lies in the directory tree below [root]: both normalized and
    absolute, [path] is [root] or continues it after a separator. *)
Definition within_root (root path : string) : bool :=
  String.eqb path root || startswith path (root +:+ "/").

Definition sample_globals : globals :=
  {| STATE_DIR := "/home/vos_state/filesystem";
     CURRENT_DIR := "";
     LAST_ERROR := None |}.

(** A host whose directories are the sandbox root with [Sales>Jones] and
    [a>b] below it, and [filesystem2] next to it. *)
Definition sample_isdir (p : string) : bool :=
  str_in (posixpath.normpath p)
    [ "/"; "/home"; "/home/vos_state";
      "/home/vos_state/filesystem";
      "/home/vos_state/filesystem/Sales";
      "/home/vos_state/filesystem/Sales/Jones";
      "/home/vos_state/filesystem/a>b";
      "/home/vos_state/filesystem2" ].

(** ** Integers as text *)

(** [str(n)] *)
Definition str_of_nat (n : nat) : string :=
  NilEmpty.string_of_uint (Nat.to_uint n).

Definition str_of_Z (z : Z) : string :=
  NilEmpty.string_of_int (Z.to_int z).

(** The characters [int()] skips around a number. *)
Definition int_space (c : ascii) : bool :=
  let n := code c in
  between 9 13 n || (n =? 32) || (n =? 133) || (n =? 160).

Definition digit_val (c : ascii) : option Z :=
  let n := code c in
  if between 48 57 n then Some (Z.of_nat (n - 48)) else None.

(** Decimal digits, with single underscores allowed between two digits. *)
Fixpoint int_digits (acc : Z) (after_digit : bool) (s : string) : option Z :=
  match s with
  | EmptyString => if after_digit then Some acc else None
  | String c s' =>
      match digit_val c with
      | Some d => int_digits (acc * 10 + d) true s'
      | None =>
          if Ascii.eqb c "_" && after_digit then int_digits acc false s'
          else None
      end
  end.

(** [int(s)]; [None] is the [ValueError]. *)
Definition py_int (s : string) : option Z :=
  match strip_by int_space s with
  | String "+" r => int_digits 0 false r
  | String "-" r => Z.opp <$> int_digits 0 false r
  | r => int_digits 0 false r
  end.

(** ** JSON values as [json.load] returns them *)

(** A [float]: [m * 2^e], an infinity or a NaN. *)
Inductive pyfloat :=
  | FFinite (m e : Z)
  | FInf (negative : bool)
  | FNaN.

#[local] Set Warnings "-register-all".
Inductive json :=
  | JNull
  | JBool (b : bool)
  | JInt (z : Z)
  | JFloat (f : pyfloat)
  | JStr (s : string)
  | JArr (items : list json)
  | JObj (fields : list (string * json)).

(** [v == n] for a loaded value and an [int]. *)
Definition py_eq_int (v : json) (n : Z) : bool :=
  match v with
  | JInt z => Z.eqb z n
  | JBool b => Z.eqb (if b then 1 else 0) n
  | JFloat (FFinite m e) =>
      if (0 <=? e)%Z then Z.eqb (m * 2 ^ e) n else Z.eqb m (n * 2 ^ (- e))
  | _ => false
  end.

(** [type(v).__name__] *)
Definition py_type_name (v : json) : string :=
  match v with
  | JNull => "NoneType"
  | JBool _ => "bool"
  | JInt _ => "int"
  | JFloat _ => "float"
  | JStr _ => "str"
  | JArr _ => "list"
  | JObj _ => "dict"
  end.

(** [v.lower()]: an [AttributeError] unless [v] is a string. *)
Definition py_lower (v : json) : pyres string :=
  match v with
  | JStr s => Ok (lower s)
  | _ => Raise (PyExn "AttributeError"
                  ("'" +:+ py_type_name v
                   +:+ "' object has no attribute 'lower'"))
  end.

(** [bool(opts.get(key))] for the flag options. *)
Definition py_truthy (v : option json) : bool :=
  match v with
  | None | Some JNull | Some (JBool false) => false
  | Some (JInt z) => negb (Z.eqb z 0)
  | Some (JStr s) => nonempty s
  | Some (JArr l) => match l with [] => false | _ => true end
  | Some (JObj l) => match l with [] => false | _ => true end
  | Some (JFloat (FFinite m _)) => negb (Z.eqb m 0)
  | Some _ => true
  end.

(** ** The batch store on disk *)

(** A file of a queue directory: what [open] and [json.load] yield
    ([None] when either raises), and whether the host refuses to remove or
    rewrite it. *)
Record jobfile := {
  f_content : option json;
  f_locked : bool
}.

(** An entry of [BATCH_ROOT]: something that is not a directory, with the
    exception [os.makedirs] raises on it, or a queue directory with the
    exception that creating a file in it raises, if any, and its entries
    in [os.listdir] order. *)
Inductive qentry :=
  | QFile (mkdir_error : pyexn)
  | QDir (create_error : option pyexn) (files : dict jobfile).

(** [os.listdir(BATCH_ROOT)] with the entries.  Queue and file names are
    single path components: a name with a slash would address a nested
    directory of the host, which the store does not represent. *)
Definition store : Type := dict qentry.

Definition is_job (fname : string) : bool := endswith fname ".job".

(** [fname[:-4]] *)
Definition base_name (fname : string) : string := str_drop_end 4 fname.

(** The loaded record when it is an object; [None] stands for the
    exception raised by [open], [json.load] or [job.get]. *)
Definition load_job (f : jobfile) : option (dict json) :=
  match f_content f with
  | Some (JObj o) => Some o
  | _ => None
  end.

(** [job.get(key, default)] *)
Definition get_or (key : string) (dflt : json) (job : dict json) : json :=
  default dflt (dict_get key job).

(** ** Submission *)

(** The [while] loop of [_generate_unique_job_path], unrolled [fuel]
    times. *)
Fixpoint unique_name_loop (fuel : nat) (files : dict jobfile)
    (base filename : string) (counter : nat) : string :=
  match fuel with
  | O => filename
  | S fuel' =>
      if dict_has filename files then
        unique_name_loop fuel' files base
          (base +:+ "_" +:+ str_of_nat counter +:+ ".job") (S counter)
      else filename
  end.

(** [_generate_unique_job_path]: the queue directory is created when
    missing, and the file name chosen in it is returned with the store.
    The loop is unrolled once per entry of the directory, which is enough
    for it to leave on a free name ([unique_name_loop_free]).  The queue
    is looked up among the entries of [BATCH_ROOT] and the file among
    those of the queue: this is what [os.path.join] addresses when the
    queue name is a path component other than [.] and [..] and the
    process name holds no separator, the names the statements about
    this function are made for. *)
Definition _generate_unique_job_path (st : store)
    (queue_name process_name : string) : pyres (string * store) :=
  match dict_get queue_name st with
  | Some (QFile e) => Raise e
  | Some (QDir _ files) =>
      Ok (unique_name_loop (length files) files process_name
            (process_name +:+ ".job") 1, st)
  | None =>
      Ok (process_name +:+ ".job", dict_set queue_name (QDir None []) st)
  end.

(** The text of a batch option key:
    [token.lstrip('-').replace('-', '_')]. *)
Definition option_key (token : string) : string :=
  str_map (λ c, if Ascii.eqb c "-" then "_"%char else c)
          (lstrip_by (λ c, Ascii.eqb c "-") token).

Definition batch_flags : list string :=
  ["-privileged"; "-no_restart"; "-notify"].

Definition batch_value_options : list string :=
  [ "-process_name"; "-output_path"; "-process_priority"; "-queue_priority";
    "-queue"; "-module"; "-current_dir"; "-defer_until"; "-control";
    "-after"; "-cpu_limit" ].

(** The loop of [_parse_batch_arguments]; [inr] is the error message. *)
Fixpoint parse_batch_loop (args : list string)
    (cmd_parts : list string) (opts : dict json)
  : (list string * dict json) + string :=
  match args with
  | [] => inl (cmd_parts, opts)
  | token :: rest =>
      if startswith token "-" then
        if str_in token batch_flags then
          parse_batch_loop rest cmd_parts
            (dict_set (option_key token) (JBool true) opts)
        else if str_in token batch_value_options then
          match rest with
          | [] => inr ("missing value for " +:+ token)
          | value :: rest' =>
              parse_batch_loop rest' cmd_parts
                (dict_set (option_key token) (JStr value) opts)
          end
        else inr ("unknown option " +:+ token)
      else parse_batch_loop rest (cmd_parts ++ [token]) opts
  end.

Definition _parse_batch_arguments (args : list string)
  : (string * dict json) + string :=
  match parse_batch_loop args [] [] with
  | inr e => inr e
  | inl ([], _) => inr "missing command line"
  | inl (cmd_parts, opts) => inl (str_join " " cmd_parts, opts)
  end.

Definition opt_int (key : string) (opts : dict json) : option (option Z) :=
  match dict_get key opts with
  | None => Some None
  | Some (JStr s) => Some <$> py_int s
  | Some _ => None
  end.

Definition opt_json (v : option json) : json := default JNull v.

(** Replace the record of a file, or add the file, in a queue. *)
Definition write_job (queue_name fname : string) (job : json) (st : store)
  : store :=
  match dict_get queue_name st with
  | Some (QDir ce files) =>
      dict_set queue_name
        (QDir ce (dict_set fname
                    {| f_content := Some job; f_locked := false |} files)) st
  | _ => st
  end.

Section Submit.
(** [int(time.time())] *)
Variable now : Z.

Definition h_batch (g : globals) (st : store) (args : list string)
  : pyres (string * globals * store) :=
  match _parse_batch_arguments args with
  | inr err_msg => Ok (_err ("batch: " +:+ err_msg) g, st)
  | inl (command_line, opts) =>
      match
        match dict_get "process_name" opts with
        | Some (JStr s) =>
            if nonempty s then Ok s else _derive_process_name command_line
        | _ => _derive_process_name command_line
        end
      with
      | Raise e => Raise e
      | Ok process_name =>
          let queue_name :=
            match dict_get "queue" opts with
            | Some (JStr q) => q
            | _ => "normal"
            end in
          match opt_int "process_priority" opts with
          | None => Ok (_err "batch: invalid process_priority" g, st)
          | Some process_priority =>
              match opt_int "queue_priority" opts with
              | None => Ok (_err "batch: invalid queue_priority" g, st)
              | Some queue_priority =>
                  let job_info : dict json :=
                    [ ("command_line", JStr command_line);
                      ("process_name", JStr process_name);
                      ("queue_name", JStr queue_name);
                      ("process_priority",
                       default JNull (JInt <$> process_priority));
                      ("queue_priority",
                       JInt (default 4%Z queue_priority));
                      ("privileged",
                       JBool (py_truthy (dict_get "privileged" opts)));
                      ("restart",
                       JBool (negb (py_truthy (dict_get "no_restart" opts))));
                      ("notify",
                       JBool (py_truthy (dict_get "notify" opts)));
                      ("output_path", opt_json (dict_get "output_path" opts));
                      ("module", opt_json (dict_get "module" opts));
                      ("current_dir", opt_json (dict_get "current_dir" opts));
                      ("defer_until", opt_json (dict_get "defer_until" opts));
                      ("control_file", opt_json (dict_get "control" opts));
                      ("after", opt_json (dict_get "after" opts));
                      ("cpu_limit", opt_json (dict_get "cpu_limit" opts));
                      ("timestamp", JInt now) ] in
                  match _generate_unique_job_path st queue_name process_name with
                  | Raise e => Raise e
                  | Ok (fname, st') =>
                      match dict_get queue_name st' with
                      | Some (QDir (Some e) _) =>
                          Ok (_err ("batch: failed to store job: "
                                    +:+ exn_msg e) g, st')
                      | _ =>
                          Ok (_ok ("queued batch request " +:+ process_name
                                   +:+ " in queue '" +:+ queue_name +:+ "'"),
                              g,
                              write_job queue_name fname (JObj job_info) st')
                      end
                  end
              end
          end
      end
  end.
End Submit.

(** ** Listing *)

Definition text_cell (s : string) : json := JStr s.

(** [f"{s:<{w}}"] *)
Definition ljust (w : nat) (s : string) : string :=
  s +:+ posixpath.repeat_str " " (w - String.length s).

(** [widths[i] = max(widths[i], len(str(cell)))] over one row. *)
Fixpoint merge_widths (widths : list nat) (cells : list string) : list nat :=
  match widths, cells with
  | w :: ws, c :: cs => Nat.max w (String.length c) :: merge_widths ws cs
  | ws, [] => ws
  | [], _ :: _ => []
  end.

Fixpoint ljust_cells (widths : list nat) (cells : list string) : list string :=
  match widths, cells with
  | w :: ws, c :: cs => ljust w c :: ljust_cells ws cs
  | _, _ => []
  end.

Section Table.
(** [str(cell)] for a cell of a row. *)
Variable cell_str : json → string.

(** [table]: a header line, a rule, and the rows in columns of even
    width.  Rows are not longer than the header. *)
Definition table (headers : list string) (rows : list (list json)) : string :=
  let texts := List.map (List.map cell_str) rows in
  let widths := fold_left merge_widths texts (List.map String.length headers) in
  let line := str_join "  " (ljust_cells widths headers) in
  let body :=
    str_join nl (List.map (λ r, str_join "  " (ljust_cells widths r)) texts) in
  line +:+ nl +:+ posixpath.repeat_str "-" (String.length line)
  +:+ (if nonempty body then nl +:+ body else "").
End Table.

(** [queue_filter and queue_name != queue_filter] *)
Definition filtered_out (queue_filter : option string) (queue_name : string)
  : bool :=
  match queue_filter with
  | Some qf => nonempty qf && negb (String.eqb queue_name qf)
  | None => false
  end.

(** The row of one [.job] file in [h_display_batch_status]. *)
Definition status_row (queue_name fname : string) (f : jobfile) : list json :=
  match load_job f with
  | Some job =>
      [ text_cell queue_name;
        get_or "process_name" (text_cell (base_name fname)) job;
        get_or "queue_priority" (text_cell "") job;
        get_or "process_priority" (text_cell "") job;
        text_cell "pending" ]
  | None =>
      [ text_cell queue_name; text_cell (base_name fname);
        text_cell ""; text_cell ""; text_cell "unreadable" ]
  end.

(** The row of one [.job] file in [h_list_batch_requests]. *)
Definition request_row (queue_name fname : string) (f : jobfile) : list json :=
  match load_job f with
  | Some job =>
      [ text_cell queue_name;
        get_or "process_name" (text_cell (base_name fname)) job;
        get_or "queue_priority" (text_cell "") job ]
  | None =>
      [ text_cell queue_name; text_cell (base_name fname); text_cell "" ]
  end.

(** The two nested loops shared by the listings: queues and files by
    sorted name, one row per [.job] file. *)
Definition listing_rows (row : string → string → jobfile → list json)
    (st : store) (queue_filter : option string) : list (list json) :=
  flat_map
    (λ queue_name,
       if filtered_out queue_filter queue_name then []
       else match dict_get queue_name st with
            | Some (QDir _ files) =>
                flat_map
                  (λ fname,
                     if is_job fname then
                       match dict_get fname files with
                       | Some f => [row queue_name fname f]
                       | None => []
                       end
                     else [])
                  (sorted (dict_keys files))
            | _ => []
            end)
    (sorted (dict_keys st)).

Section Listing.
Variable cell_str : json → string.

Definition h_display_batch_status (st : store) (args : list string)
  : string :=
  let rows := listing_rows status_row st (head args) in
  match rows with
  | [] => "(no batch requests)"
  | _ =>
      table cell_str ["Queue"; "Process"; "QueuePri"; "ProcPri"; "Status"] rows
  end.

Definition h_list_batch_requests (st : store) (args : list string)
  : string :=
  let rows := listing_rows request_row st (head args) in
  match rows with
  | [] => "(no batch requests)"
  | _ => table cell_str ["Queue"; "Process"; "QueuePri"] rows
  end.
End Listing.

(** [str] of the cells that are text, integers, booleans or [None]. *)
Definition scalar_str (v : json) : string :=
  match v with
  | JStr s => s
  | JInt z => str_of_Z z
  | JBool true => "True"
  | JBool false => "False"
  | JNull => "None"
  | _ => "?"
  end.

(** ** Cancel and update *)

Section Patterns.
Variable fnmatch_fn : string → string → bool.

(** The pattern loop: [p_name.lower()] is taken for the first pattern
    already, so a name that is not a string raises when there is
    one. *)
Definition match_patterns (p_name : json) (patterns : list string)
  : pyres bool :=
  match patterns with
  | [] => Ok false
  | _ =>
      match py_lower p_name with
      | Ok name => Ok (existsb (λ pat, fnmatch_fn name (lower pat)) patterns)
      | Raise e => Raise e
      end
  end.

(** The process name used by [h_cancel_batch_requests]: the file base
    name when the record does not load. *)
Definition cancel_name (fname : string) (f : jobfile) : json :=
  match load_job f with
  | Some job => get_or "process_name" (text_cell (base_name fname)) job
  | None => text_cell (base_name fname)
  end.

(** One file of the cancel loop: whether it is removed. *)
Definition cancel_file (patterns : list string) (fname : string)
    (f : jobfile) : pyres bool :=
  if is_job fname then
    match match_patterns (cancel_name fname f) patterns with
    | Ok m => Ok (m && negb (f_locked f))
    | Raise e => Raise e
    end
  else Ok false.

(** The files of one queue; an exception stops the loop and leaves the
    remaining entries. *)
Fixpoint cancel_files (patterns : list string) (files : dict jobfile)
    (cancelled : nat) : dict jobfile * nat * option pyexn :=
  match files with
  | [] => ([], cancelled, None)
  | (fname, f) :: rest =>
      match cancel_file patterns fname f with
      | Raise e => (files, cancelled, Some e)
      | Ok true => cancel_files patterns rest (S cancelled)
      | Ok false =>
          let '(rest', c, e) := cancel_files patterns rest cancelled in
          ((fname, f) :: rest', c, e)
      end
  end.

Fixpoint cancel_queues (patterns : list string) (st : store)
    (cancelled : nat) : store * nat * option pyexn :=
  match st with
  | [] => ([], cancelled, None)
  | (q, QFile x) :: rest =>
      let '(rest', c, e) := cancel_queues patterns rest cancelled in
      ((q, QFile x) :: rest', c, e)
  | (q, QDir ce files) :: rest =>
      let '(files', c, e) := cancel_files patterns files cancelled in
      match e with
      | Some _ => ((q, QDir ce files') :: rest, c, e)
      | None =>
          let '(rest', c', e') := cancel_queues patterns rest c in
          ((q, QDir ce files') :: rest', c', e')
      end
  end.

Definition h_cancel_batch_requests (g : globals) (st : store)
    (args : list string) : string * globals * store :=
  match args with
  | [] => (_err "usage: cancel_batch_requests <process_name(s)>" g, st)
  | _ =>
      let '(st', cancelled, e) := cancel_queues args st 0 in
      match e with
      | None =>
          (_ok ("cancelled " +:+ str_of_nat cancelled +:+ " batch request(s)"),
           g, st')
      | Some e => (_err ("cancel_batch_requests: " +:+ exn_msg e) g, st')
      end
  end.

(** The option loop of [h_update_batch_requests]. *)
Fixpoint parse_update_loop (args patterns : list string)
    (new_qpri new_ppri : option Z)
  : (list string * option Z * option Z) + string :=
  match args with
  | [] => inl (patterns, new_qpri, new_ppri)
  | a :: rest =>
      if startswith a "-" then
        if String.eqb a "-queue_priority" then
          match rest with
          | [] => inr "update_batch_requests: missing value for -queue_priority"
          | v :: rest' =>
              match py_int v with
              | Some n => parse_update_loop rest' patterns (Some n) new_ppri
              | None => inr "update_batch_requests: invalid queue_priority"
              end
          end
        else if String.eqb a "-process_priority" then
          match rest with
          | [] => inr "update_batch_requests: missing value for -process_priority"
          | v :: rest' =>
              match py_int v with
              | Some n => parse_update_loop rest' patterns new_qpri (Some n)
              | None => inr "update_batch_requests: invalid process_priority"
              end
          end
        else inr ("update_batch_requests: unknown option " +:+ a)
      else parse_update_loop rest (patterns ++ [a]) new_qpri new_ppri
  end.

(** [job.get(key) != n] *)
Definition py_ne_int (v : option json) (n : Z) : bool :=
  match v with
  | Some j => negb (py_eq_int j n)
  | None => true
  end.

(** One priority field: written only when a value is requested and the
    stored one differs. *)
Definition set_priority (key : string) (new : option Z)
    (job : dict json) (changed : bool) : dict json * bool :=
  match new with
  | Some n =>
      if py_ne_int (dict_get key job) n
      then (dict_set key (JInt n) job, true)
      else (job, changed)
  | None => (job, changed)
  end.

Definition apply_updates (new_qpri new_ppri : option Z) (job : dict json)
  : dict json * bool :=
  let '(job, changed) := set_priority "queue_priority" new_qpri job false in
  set_priority "process_priority" new_ppri job changed.

(** One file of the update loop: its entry afterwards and whether it
    was counted. *)
Definition update_file (patterns : list string) (new_qpri new_ppri : option Z)
    (fname : string) (f : jobfile) : pyres (jobfile * bool) :=
  if is_job fname then
    match load_job f with
    | None => Ok (f, false)
    | Some job =>
        match match_patterns
                (get_or "process_name" (text_cell (base_name fname)) job)
                patterns with
        | Raise e => Raise e
        | Ok false => Ok (f, false)
        | Ok true =>
            let '(job', changed) := apply_updates new_qpri new_ppri job in
            if changed && negb (f_locked f)
            then Ok ({| f_content := Some (JObj job');
                        f_locked := f_locked f |}, true)
            else Ok (f, false)
        end
    end
  else Ok (f, false).

Fixpoint update_files (patterns : list string) (new_qpri new_ppri : option Z)
    (files : dict jobfile) (updated : nat)
  : dict jobfile * nat * option pyexn :=
  match files with
  | [] => ([], updated, None)
  | (fname, f) :: rest =>
      match update_file patterns new_qpri new_ppri fname f with
      | Raise e => (files, updated, Some e)
      | Ok (f', counted) =>
          let '(rest', c, e) :=
            update_files patterns new_qpri new_ppri rest
                         (if counted then S updated else updated) in
          ((fname, f') :: rest', c, e)
      end
  end.

Fixpoint update_queues (patterns : list string) (new_qpri new_ppri : option Z)
    (st : store) (updated : nat) : store * nat * option pyexn :=
  match st with
  | [] => ([], updated, None)
  | (q, QFile x) :: rest =>
      let '(rest', c, e) :=
        update_queues patterns new_qpri new_ppri rest updated in
      ((q, QFile x) :: rest', c, e)
  | (q, QDir ce files) :: rest =>
      let '(files', c, e) :=
        update_files patterns new_qpri new_ppri files updated in
      match e with
      | Some _ => ((q, QDir ce files') :: rest, c, e)
      | None =>
          let '(rest', c', e') :=
            update_queues patterns new_qpri new_ppri rest c in
          ((q, QDir ce files') :: rest', c', e')
      end
  end.

Definition h_update_batch_requests (g : globals) (st : store)
    (args : list string) : string * globals * store :=
  match args with
  | [] => (_err "usage: update_batch_requests <process_name(s)> [options]" g, st)
  | _ =>
      match parse_update_loop args [] None None with
      | inr msg => (_err msg g, st)
      | inl (patterns, new_qpri, new_ppri) =>
          if bool_decide (patterns = [])
             || (bool_decide (new_qpri = None) && bool_decide (new_ppri = None))
          then
            (_err ("update_batch_requests: specify process names and "
                   +:+ "at least one priority option") g, st)
          else
            let '(st', updated, e) :=
              update_queues patterns new_qpri new_ppri st 0 in
            match e with
            | None =>
                (_ok ("updated " +:+ str_of_nat updated
                      +:+ " batch request(s)"), g, st')
            | Some e =>
                (_err ("update_batch_requests: " +:+ exn_msg e) g, st')
            end
      end
  end.
End Patterns.

(** ** A sample store *)

Definition job_record (process_name : string) (queue_priority : json)
  : json :=
  JObj [ ("command_line", JStr process_name);
         ("process_name", JStr process_name);
         ("queue_priority", queue_priority);
         ("process_priority", JNull) ].

Definition plain_file (content : option json) : jobfile :=
  {| f_content := content; f_locked := false |}.

(** Two queues: [nightly] holds a record that does not parse, [normal] two
    records, one of which stores its priority as the float [7.0]. *)
Definition sample_store : store :=
  [ ("normal",
     QDir None
       [ ("report.job", plain_file (Some (job_record "report" (JInt 4))));
         ("rebuild.job",
          plain_file (Some (job_record "rebuild" (JFloat (FFinite 7 0)))));
         ("notes.txt", plain_file None) ]);
    ("nightly",
     QDir None [ ("Broken.job", plain_file None) ]) ].

(** ** Names used to state the batch properties *)

(** The derivation as the specification words it: everything from the
    last ['.'] onward is dropped. *)
Definition drop_from_last_dot (s : string) : string :=
  if contains dot s then str_join "." (removelast (split_on dot s)) else s.

Definition derive_process_name_spec (command_line : string) : pyres string :=
  if is_empty command_line then Ok "batch"
  else
    match split_ws (strip command_line) with
    | [] => Raise (PyExn "IndexError" "list index out of range")
    | first_word :: _ =>
        let w := strip_chars (String squote (String dquote EmptyString)) first_word in
        let w := last_or EmptyString (split_on gt_sign w) in
        let w := posixpath.basename w in
        let w := drop_from_last_dot w in
        let name := str_filter (λ ch, isalnum ch || contains ch "_-") w in
        Ok (str_take 32 (if is_empty name then "batch" else name))
    end.

(** The job file names in the order they are tried: [name.job],
    [name_1.job], [name_2.job], ... *)
Definition candidate_name (process_name : string) (k : nat) : string :=
  match k with
  | O => process_name +:+ ".job"
  | S _ => process_name +:+ "_" +:+ str_of_nat k +:+ ".job"
  end.

(** The entries of a queue directory; none when the queue is missing. *)
Definition queue_files (st : store) (queue_name : string) : dict jobfile :=
  match dict_get queue_name st with
  | Some (QDir _ files) => files
  | _ => []
  end.

(** Names are distinct within a listing. *)
Definition store_wf (st : store) : Prop :=
  NoDup (dict_keys st)
  ∧ ∀ q ce files, (q, QDir ce files) ∈ st → NoDup (dict_keys files).

(** The number of files in the queue directories. *)
Fixpoint file_count (st : store) : nat :=
  match st with
  | [] => 0
  | (_, QFile _) :: rest => file_count rest
  | (_, QDir _ files) :: rest => length files + file_count rest
  end.

(** ** Comparing stores *)

Global Instance pyfloat_eq_dec : EqDecision pyfloat.
Proof. solve_decision. Defined.

Definition json_eq_dec : ∀ a b : json, {a = b} + {a ≠ b}.
Proof.
  fix IH 1. intros a b.
  destruct a as [|x|x|x|x|x|x], b as [|y|y|y|y|y|y];
    try (right; discriminate); try (left; reflexivity).
  - destruct (decide (x = y)) as [->|]; [by left | right; congruence].
  - destruct (decide (x = y)) as [->|]; [by left | right; congruence].
  - destruct (decide (x = y)) as [->|]; [by left | right; congruence].
  - destruct (decide (x = y)) as [->|]; [by left | right; congruence].
  - destruct (List.list_eq_dec IH x y) as [->|]; [by left | right; congruence].
  - assert (∀ p q : string * json, {p = q} + {p ≠ q}) as Hp.
    { intros [k v] [k' v'].
      destruct (decide (k = k')) as [->|]; [|right; congruence].
      destruct (IH v v') as [->|]; [by left | right; congruence]. }
    destruct (List.list_eq_dec Hp x y) as [->|]; [by left | right; congruence].
Defined.

Global Instance json_eqdec : EqDecision json := json_eq_dec.

Global Instance jobfile_eq_dec : EqDecision jobfile.
Proof. solve_decision. Defined.

(** The files of a queue directory, tagged with the queue name. *)
Definition lift_files (q : string) (files : dict jobfile)
  : list (string * string * jobfile) :=
  List.map (λ nf, (q, fst nf, snd nf)) files.

(** The files of all queue directories with their queue, in listing
    order. *)
Fixpoint all_files (st : store) : list (string * string * jobfile) :=
  match st with
  | [] => []
  | (_, QFile _) :: rest => all_files rest
  | (q, QDir _ files) :: rest => lift_files q files ++ all_files rest
  end.

(** How many files differ between two listings of the same files. *)
Definition modified_count (before after : list (string * string * jobfile))
  : nat :=
  length (List.filter (λ p, bool_decide (snd (fst p) ≠ snd (snd p)))
                      (zip before after)).

(** The priority requested for a field of the record, if any. *)
Definition requested (new_qpri new_ppri : option Z) (key : string)
  : option Z :=
  if String.eqb key "queue_priority" then new_qpri
  else if String.eqb key "process_priority" then new_ppri
  else None.

(** A field after an update: the requested value where one is requested
    and the stored value differs from it, the stored value otherwise. *)
Definition field_after (new_qpri new_ppri : option Z) (job : dict json)
    (key : string) : option json :=
  match requested new_qpri new_ppri key with
  | Some v =>
      if py_ne_int (dict_get key job) v then Some (JInt v)
      else dict_get key job
  | None => dict_get key job
  end.

(** A file before and after an update run: untouched, or a matching job
    record rewritten with the fields that differed. *)
Definition file_updated (fnmatch_fn : string → string → bool)
    (patterns : list string) (new_qpri new_ppri : option Z)
    (fname : string) (f f' : jobfile) : Prop :=
  f' = f
  ∨ (is_job fname = true
     ∧ f_locked f = false
     ∧ f_locked f' = false
     ∧ ∃ job job',
         load_job f = Some job
         ∧ match_patterns fnmatch_fn
             (get_or "process_name" (text_cell (base_name fname)) job)
             patterns = Ok true
         ∧ f_content f' = Some (JObj job')
         ∧ ∀ key, dict_get key job' = field_after new_qpri new_ppri job key).

(** Two listings of the same files, each file untouched or updated. *)
Definition store_updated (fnmatch_fn : string → string → bool)
    (patterns : list string) (new_qpri new_ppri : option Z)
    (before after : list (string * string * jobfile)) : Prop :=
  Forall2 (λ a b, fst a = fst b
                  ∧ file_updated fnmatch_fn patterns new_qpri new_ppri
                      (snd (fst a)) (snd a) (snd b))
          before after.

(** ** The command report *)

(** [vos_commands.txt] in the working directory: absent, present but
    failing to open or decode with the given exception, or its lines. *)
Inductive txt_file :=
  | TxtMissing
  | TxtUnreadable (e : pyexn)
  | TxtLines (lines : list string).

Definition load_txt_commands (file : txt_file) : pyres (list string) :=
  match file with
  | TxtMissing => Ok []
  | TxtUnreadable e => Raise e
  | TxtLines lines =>
      Ok (List.filter (λ ln, nonempty ln && negb (startswith ln "#"))
                      (List.map strip lines))
  end.

Section Report.
(** The text built from the loaded names (source lines 1606 to 1656): a
    temporary shell made under [try]/[except], the two sorted lists and
    their colour codes. *)
Variable render_report : list string → string.

(** [h_show_commands_status]: the command list is read before the
    [try] block. *)
Definition h_show_commands_status (g : globals) (file : txt_file)
    (args : list string) : pyres (string * globals) :=
  match args with
  | _ :: _ => Ok (_err "usage: show commands status" g)
  | [] =>
      match load_txt_commands file with
      | Raise e => Raise e
      | Ok names => Ok (render_report names, g)
      end
  end.
End Report.

(** * Registry set-up, submission, settings, file tools and completion

    The functions of [vos_emulator.py] around the ones above: what they
    call and what calls them. *)

From Stdlib Require Strings.Byte.
From Stdlib Require Import Sorting.Sorted.

(** A name of the command list that [register_bulk] registers: some line
    of the list is [k] once stripped, and [k] is not empty. *)
Definition listed (k : string) (names : list string) : bool :=
  nonempty k && existsb (λ n, String.eqb (strip n) k) names.

(** Every character of [s] satisfies [p]. *)
Fixpoint str_all (p : ascii → bool) (s : string) : bool :=
  match s with
  | EmptyString => true
  | String c s' => p c && str_all p s'
  end.

(** A word as [str.split()] yields them: not empty and free of
    whitespace. *)
Definition is_word (w : string) : bool :=
  nonempty w && str_all (λ c, negb (isspace c)) w.

(** The alias patterns in the order [_resolve] tries them: longest
    first. *)
Definition alias_order : list string :=
  ["show commands report"; "quit"; "ls"; "ll"; "q"].

(** The characters [_derive_process_name] keeps. *)
Definition name_char (ch : ascii) : bool := isalnum ch || contains ch "_-".

(** The keys [_parse_batch_arguments] can store. *)
Definition batch_option_keys : list string :=
  List.map option_key (batch_flags ++ batch_value_options).

Definition nul : ascii := ascii_of_nat 0.

(** A name that addresses an entry of the directory it is looked up in:
    not empty, not [.] or [..], and free of separators and NUL. *)
Definition path_component (s : string) : bool :=
  nonempty s && negb (contains slash s) && negb (contains nul s)
  && negb (String.eqb s ".") && negb (String.eqb s "..").

(** The queue and process names given as options are such that the job
    file is an entry of the queue directory and the queue directory an
    entry of [BATCH_ROOT]. *)
Definition store_names_ok (opts : dict json) : bool :=
  match dict_get "queue" opts with
  | Some (JStr q) => path_component q
  | _ => true
  end
  && match dict_get "process_name" opts with
     | Some (JStr p) => negb (contains slash p) && negb (contains nul p)
     | _ => true
     end.

(** What the cancel loop may remove: a [.job] file that the host lets go
    and whose process name, the one of its record or else its base name,
    is a text that one of the patterns matches, both in lower case. *)
Definition cancel_candidate (fnmatch_fn : string → string → bool)
    (pats : list string) (fname : string) (f : jobfile) : Prop :=
  is_job fname = true
  ∧ f_locked f = false
  ∧ ∃ name pat,
      cancel_name fname f = JStr name
      ∧ pat ∈ pats
      ∧ fnmatch_fn (lower name) (lower pat) = true.

(** Entry by entry, the store after a cancel run holds the entries it
    held: what is not a directory as it was, and each queue directory
    with a sublist of its files in which only the files the loop may
    remove can be missing. *)
Definition queue_cancelled (fnmatch_fn : string → string → bool)
    (pats : list string) (a b : string * qentry) : Prop :=
  fst a = fst b
  ∧ match snd a, snd b with
    | QFile x, QFile y => x = y
    | QDir ce files, QDir ce' files' =>
        ce = ce'
        ∧ sublist files' files
        ∧ ∀ fname f, (fname, f) ∈ files →
                     (fname, f) ∈ files'
                     ∨ cancel_candidate fnmatch_fn pats fname f
    | _, _ => False
    end.

(** The process name of a [.job] file is a text: [p_name.lower()] does
    not raise for it. *)
Definition name_is_text (fname : string) (f : jobfile) : bool :=
  negb (is_job fname)
  || match cancel_name fname f with JStr _ => true | _ => false end.

(** No record of the store holds a [process_name] that is not a text. *)
Definition names_are_text (st : store) : bool :=
  forallb
    (λ entry : string * qentry,
       match snd entry with
       | QFile _ => true
       | QDir _ files =>
           forallb (λ file : string * jobfile,
                      name_is_text (fst file) (snd file)) files
       end)
    st.

(** A queue in which a record with the number 5 as process name is
    listed before a record that does not parse. *)
Definition cut_short_store : store :=
  [ ("nightly",
     QDir None
       [ ("a.job", plain_file (Some (JObj [("process_name", JInt 5)])));
         ("Broken.job", plain_file None) ]) ].

(** A text without a newline. *)
Definition one_line (s : string) : bool := negb (contains newline s).

(** The width of a table line: the column widths and two blanks between
    neighbours. *)
Definition line_width (widths : list nat) : nat :=
  list_sum widths + 2 * (length widths - 1).

(** A character [fnmatch] gives a meaning to. *)
Definition glob_char (c : ascii) : bool := contains c "*?[".

(** A pattern without such characters. *)
Definition glob_free (pat : string) : bool :=
  str_all (λ c, negb (glob_char c)) pat.

(** ** Session settings *)

(** The module variables behind the library path, language, time zone,
    line width and profile commands. *)
Record settings := {
  LIBRARY_PATHS : list string;
  CURRENT_LANGUAGE : string;
  CURRENT_TIME_ZONE : string;
  LINE_WRAP_WIDTH : Z;
  CURRENT_PROFILE : string;
  PROFILES : list string
}.

(** The settings the module starts with. *)
Definition initial_settings : settings :=
  {| LIBRARY_PATHS := [];
     CURRENT_LANGUAGE := "en";
     CURRENT_TIME_ZONE := "UTC";
     LINE_WRAP_WIDTH := 80;
     CURRENT_PROFILE := "default";
     PROFILES := ["default"] |}.

Definition set_library_paths (l : list string) (s : settings) : settings :=
  {| LIBRARY_PATHS := l;
     CURRENT_LANGUAGE := CURRENT_LANGUAGE s;
     CURRENT_TIME_ZONE := CURRENT_TIME_ZONE s;
     LINE_WRAP_WIDTH := LINE_WRAP_WIDTH s;
     CURRENT_PROFILE := CURRENT_PROFILE s;
     PROFILES := PROFILES s |}.

Definition set_line_wrap_width (n : Z) (s : settings) : settings :=
  {| LIBRARY_PATHS := LIBRARY_PATHS s;
     CURRENT_LANGUAGE := CURRENT_LANGUAGE s;
     CURRENT_TIME_ZONE := CURRENT_TIME_ZONE s;
     LINE_WRAP_WIDTH := n;
     CURRENT_PROFILE := CURRENT_PROFILE s;
     PROFILES := PROFILES s |}.

Definition set_language (lang : string) (s : settings) : settings :=
  {| LIBRARY_PATHS := LIBRARY_PATHS s;
     CURRENT_LANGUAGE := lang;
     CURRENT_TIME_ZONE := CURRENT_TIME_ZONE s;
     LINE_WRAP_WIDTH := LINE_WRAP_WIDTH s;
     CURRENT_PROFILE := CURRENT_PROFILE s;
     PROFILES := PROFILES s |}.

Definition set_time_zone (zone : string) (s : settings) : settings :=
  {| LIBRARY_PATHS := LIBRARY_PATHS s;
     CURRENT_LANGUAGE := CURRENT_LANGUAGE s;
     CURRENT_TIME_ZONE := zone;
     LINE_WRAP_WIDTH := LINE_WRAP_WIDTH s;
     CURRENT_PROFILE := CURRENT_PROFILE s;
     PROFILES := PROFILES s |}.

Definition set_profiles (current : string) (l : list string) (s : settings)
  : settings :=
  {| LIBRARY_PATHS := LIBRARY_PATHS s;
     CURRENT_LANGUAGE := CURRENT_LANGUAGE s;
     CURRENT_TIME_ZONE := CURRENT_TIME_ZONE s;
     LINE_WRAP_WIDTH := LINE_WRAP_WIDTH s;
     CURRENT_PROFILE := current;
     PROFILES := l |}.

(** [l.remove(x)]: the first occurrence is dropped; [None] is the
    [ValueError] raised when there is none. *)
Fixpoint list_remove (x : string) (l : list string) : option (list string) :=
  match l with
  | [] => None
  | y :: l' =>
      if String.eqb y x then Some l'
      else (λ r, y :: r) <$> list_remove x l'
  end.

Definition h_list_library_paths (g : globals) (s : settings)
    (args : list string) : string * globals * settings :=
  match args with
  | _ :: _ => (_err "usage: list_library_paths" g, s)
  | [] =>
      match LIBRARY_PATHS s with
      | [] => ("(no library paths configured)", g, s)
      | paths => (str_join nl paths, g, s)
      end
  end.

Definition h_add_library_path (g : globals) (s : settings)
    (args : list string) : string * globals * settings :=
  match args with
  | [path] =>
      if negb (str_in path (LIBRARY_PATHS s)) then
        (_ok ("added library path: " +:+ path), g,
         set_library_paths (LIBRARY_PATHS s ++ [path]) s)
      else (_ok ("library path already present: " +:+ path), g, s)
  | _ => (_err "usage: add_library_path <path>" g, s)
  end.

Definition h_delete_library_path (g : globals) (s : settings)
    (args : list string) : string * globals * settings :=
  match args with
  | [path] =>
      match list_remove path (LIBRARY_PATHS s) with
      | Some paths =>
          (_ok ("removed library path: " +:+ path), g,
           set_library_paths paths s)
      | None => (_err ("library path not found: " +:+ path) g, s)
      end
  | _ => (_err "usage: delete_library_path <path>" g, s)
  end.

Definition h_set_language (g : globals) (s : settings) (args : list string)
  : string * globals * settings :=
  match args with
  | [lang] => (_ok ("language set to " +:+ lang), g, set_language lang s)
  | _ => (_err "usage: set_language <language_code>" g, s)
  end.

Definition h_set_time_zone (g : globals) (s : settings) (args : list string)
  : string * globals * settings :=
  match args with
  | [zone] => (_ok ("time zone set to " +:+ zone), g, set_time_zone zone s)
  | _ => (_err "usage: set_time_zone <time_zone>" g, s)
  end.

(** [h_set_line_wrap_width]; [int] is [py_int], which the interpreter
    follows for texts within its limit on the number of digits. *)
Definition h_set_line_wrap_width (g : globals) (s : settings)
    (args : list string) : string * globals * settings :=
  match args with
  | [a] =>
      match py_int a with
      | Some n =>
          if (n <=? 0)%Z then (_err "line wrap width must be positive" g, s)
          else (_ok ("line wrap width set to " +:+ str_of_Z n), g,
                set_line_wrap_width n s)
      | None => (_err "set_line_wrap_width: invalid number" g, s)
      end
  | _ => (_err "usage: set_line_wrap_width <number>" g, s)
  end.

Definition h_profile (g : globals) (s : settings) (args : list string)
  : string * globals * settings :=
  match args with
  | [] => ("Current profile: " +:+ CURRENT_PROFILE s, g, s)
  | [name] =>
      let profiles :=
        if negb (str_in name (PROFILES s)) then PROFILES s ++ [name]
        else PROFILES s in
      (_ok ("profile set to " +:+ name), g, set_profiles name profiles s)
  | _ => (_err "usage: profile [name]" g, s)
  end.

Definition h_add_profile (g : globals) (s : settings) (args : list string)
  : string * globals * settings :=
  match args with
  | [name] =>
      if str_in name (PROFILES s) then
        (_ok ("profile already exists: " +:+ name), g, s)
      else
        (_ok ("added profile: " +:+ name), g,
         set_profiles (CURRENT_PROFILE s) (PROFILES s ++ [name]) s)
  | _ => (_err "usage: add_profile <name>" g, s)
  end.

(** The settings commands by name, as the registry binds them. *)
Inductive setting_command :=
  | list_library_paths | add_library_path | delete_library_path
  | set_language_cmd | set_time_zone_cmd | set_line_wrap_width_cmd
  | profile | add_profile.

Definition run_setting (c : setting_command) (g : globals) (s : settings)
    (args : list string) : string * globals * settings :=
  match c with
  | list_library_paths => h_list_library_paths g s args
  | add_library_path => h_add_library_path g s args
  | delete_library_path => h_delete_library_path g s args
  | set_language_cmd => h_set_language g s args
  | set_time_zone_cmd => h_set_time_zone g s args
  | set_line_wrap_width_cmd => h_set_line_wrap_width g s args
  | profile => h_profile g s args
  | add_profile => h_add_profile g s args
  end.

(** A session: the commands run one after the other. *)
Fixpoint run_settings (cmds : list (setting_command * list string))
    (g : globals) (s : settings) : globals * settings :=
  match cmds with
  | [] => (g, s)
  | (c, args) :: rest =>
      let '(_, g', s') := run_setting c g s args in
      run_settings rest g' s'
  end.

(** What every session keeps: no path and no profile is listed twice,
    the current profile is a listed one, and the line width is
    positive. *)
Definition settings_ok (s : settings) : Prop :=
  NoDup (LIBRARY_PATHS s)
  ∧ NoDup (PROFILES s)
  ∧ CURRENT_PROFILE s ∈ PROFILES s
  ∧ (0 < LINE_WRAP_WIDTH s)%Z.

(** ** File comparison *)

Global Instance byte_eq_dec : EqDecision Byte.byte := Byte.byte_eq_dec.

(** What [open(path, "rb")] and [read()] give for a path of the host. *)
Inductive file_read :=
  | OpenFails (e : pyexn)
  | ReadFails (e : pyexn)
  | FileData (data : list Byte.byte).

(** [next((i for i in range(lim) if ca[i:i+1] != cb[i:i+1]), lim)],
    counted from [i]. *)
Fixpoint first_difference (ca cb : list Byte.byte) (i : nat) : nat :=
  match ca, cb with
  | x :: ca', y :: cb' =>
      if Byte.eqb x y then first_difference ca' cb' (S i) else i
  | _, _ => i
  end.

Section CompareFiles.
Variable read_file : string → file_read.

Definition h_compare_files (g : globals) (args : list string)
  : string * globals :=
  match args with
  | [a; b] =>
      let a_path := resolve_state_path g a in
      let b_path := resolve_state_path g b in
      let failed e := _err ("compare_files: " +:+ exn_msg e) g in
      match read_file a_path, read_file b_path with
      | OpenFails e, _ => failed e
      | _, OpenFails e => failed e
      | ReadFails e, _ => failed e
      | _, ReadFails e => failed e
      | FileData ca, FileData cb =>
          if bool_decide (ca = cb) then ("Files are identical.", g)
          else ("Files differ at byte "
                +:+ str_of_nat (first_difference ca cb 0), g)
      end
  | _ => _err "usage: compare_files <a> <b>" g
  end.
End CompareFiles.

(** A host on which [a] holds the bytes 0, 1 and [b] the byte 0. *)
Definition sample_read (path : string) : file_read :=
  if String.eqb path "/home/vos_state/filesystem/a"
  then FileData [Byte.x00; Byte.x01]
  else if String.eqb path "/home/vos_state/filesystem/b"
  then FileData [Byte.x00]
  else OpenFails (PyExn "FileNotFoundError" "No such file or directory").

(** ** Path completion *)

Section CompletePath.
(** [os.listdir], [None] when it raises, and [os.path.isdir]. *)
Variable listdir : string → option (list string).
Variable isdir : string → bool.

(** The directory completions are read from, the text put before each of
    them and the pattern they must start with. *)
Definition completion_target (g : globals) (text : string)
  : string * string * string :=
  if is_empty text then (current_dir_path g, "", "")
  else
    let parts := split_on gt_sign text in
    let pattern := last_or "" parts in
    let prefix_str :=
      if nonempty pattern then str_drop_end (String.length pattern) text
      else text in
    let prefix_parts := removelast parts in
    let base_dir :=
      if startswith text ">" then
        posixpath.join (STATE_DIR g) (List.filter nonempty prefix_parts)
      else
        let base_parts :=
          if nonempty (CURRENT_DIR g) then split_on slash (CURRENT_DIR g)
          else [] in
        posixpath.join (STATE_DIR g) (base_parts ++ prefix_parts) in
    (base_dir, prefix_str, pattern).

Definition _complete_path (g : globals) (text : string) : list string :=
  let '(base_dir, prefix_str, pattern) := completion_target g text in
  match listdir base_dir with
  | None => []
  | Some entries =>
      flat_map
        (λ entry,
           if nonempty pattern
              && negb (startswith (lower entry) (lower pattern))
           then []
           else if isdir (posixpath.join base_dir [entry])
           then [prefix_str +:+ entry +:+ ">"]
           else [prefix_str +:+ entry])
        (sorted entries)
  end.
End CompletePath.

(** ** Completion of command names *)

(** The [do_*] methods of the shell class, without the prefix. *)
Definition meta_commands : list string :=
  ["EOF"; "clear"; "commands"; "exit"; "help"].

(** Code-point order on names, the order of [sorted]. *)
Definition name_le (a b : string) : Prop := String.leb a b = true.

(** [completenames]: the meta commands and the registered names that
    start with the text, as [sorted(set(base + extra))]. *)
Definition completenames (sh : VOShell) (text : string) : list string :=
  let base := List.filter (λ a, startswith a text) meta_commands in
  let extra := List.filter (λ k, startswith k text) (index sh) in
  sorted (remove_dups (base ++ extra)).

(** [complete_commands] *)
Definition complete_commands (sh : VOShell) (text : string) : list string :=
  List.filter (λ k, startswith k text) (index sh).

(** ** File modes *)

(** The ints that [stat.S_ISDIR] takes: those of the C type [mode_t] of
    the host, 32 bits without sign. *)
Definition mode_t_ok (mode : Z) : bool :=
  (0 <=? mode)%Z && (mode <? 2 ^ 32)%Z.

(** [stat.S_ISDIR]: the file type bits are those of a directory; [None]
    is the [OverflowError] raised for an int that is not a [mode_t]. *)
Definition S_ISDIR (mode : Z) : option bool :=
  if mode_t_ok mode then Some (Z.eqb (Z.land mode 61440) 16384) else None.

(** The permission bits from [S_IRUSR] down to [S_IXOTH], each with its
    letter. *)
Definition perms : list (Z * ascii) :=
  [ (256, "r"); (128, "w"); (64, "x"); (32, "r"); (16, "w"); (8, "x");
    (4, "r"); (2, "w"); (1, "x") ]%Z%char.

(** [ch if (mode & bit) else '-'] *)
Definition perm_char (mode : Z) (p : Z * ascii) : ascii :=
  if negb (Z.eqb (Z.land mode (fst p)) 0) then snd p else "-"%char.

(** [_mode_to_str]; the call of [stat.S_ISDIR] comes first and its
    exception leaves the function. *)
Definition _mode_to_str (mode : Z) : option string :=
  match S_ISDIR mode with
  | None => None
  | Some is_dir =>
      Some (String (if is_dir then "d" else "-")%char
              (String.string_of_list_ascii (List.map (perm_char mode) perms)))
  end.

(** The commands whose arguments are completed as paths. *)
Definition FILE_COMMANDS : list string :=
  [ "create_file"; "copy_file"; "move_file"; "delete_file"; "compare_files";
    "create_dir"; "copy_dir"; "move_dir"; "delete_dir"; "rename";
    "display_file"; "display_file_status"; "display_dir_status";
    "dump_file"; "list"; "locate_files"; "locate_large_dirs";
    "locate_large_files" ].

Definition DIR_COMMANDS : list string := ["change_current_dir"].

Section CompleteDefault.
Variable fnmatch_fn : string → string → bool.
Variable get_close_matches : string → list string → list string.
Variable listdir : string → option (list string).
Variable isdir : string → bool.

(** [completedefault]: path completions when the first word of the line
    resolves to a file or directory command. *)
Definition completedefault (sh : VOShell) (g : globals) (text line : string)
  : list string :=
  match split_ws (strip line) with
  | [] => []
  | cmd_token :: _ =>
      match (_resolve fnmatch_fn get_close_matches sh cmd_token).1.1 with
      | Some resolved =>
          if str_in resolved FILE_COMMANDS || str_in resolved DIR_COMMANDS
          then _complete_path listdir isdir g text
          else []
      | None => []
      end
  end.
End CompleteDefault.

(** ** Hexadecimal dumps *)

Definition hex_digits : list ascii :=
  String.list_ascii_of_string "0123456789abcdef".

Definition hex_digit (n : nat) : ascii := nth n hex_digits "0"%char.

(** [f"{b:02x}"] *)
Definition hex_byte (b : Byte.byte) : string :=
  let n := Byte.to_nat b in
  String (hex_digit (n / 16)) (String (hex_digit (n mod 16)) EmptyString).

(** The digits of a positive number, most significant first. *)
Fixpoint hex_go (fuel n : nat) : string :=
  match fuel with
  | O => EmptyString
  | S fuel' =>
      if n =? 0 then EmptyString
      else hex_go fuel' (n / 16) +:+ String (hex_digit (n mod 16)) EmptyString
  end.

(** [format(n, "x")] *)
Definition hex_of_nat (n : nat) : string :=
  if n =? 0 then "0" else hex_go n n.

(** Zero padding on the left, as in [f"{n:08x}"]. *)
Definition zfill (w : nat) (s : string) : string :=
  posixpath.repeat_str "0" (w - String.length s) +:+ s.

(** [chr(b) if 32 <= b < 127 else '.'] *)
Definition printable (b : Byte.byte) : ascii :=
  let n := Byte.to_nat b in
  if (32 <=? n) && (n <? 127) then ascii_of_nat n else "."%char.

(** One line of the dump: offset, hexadecimal column, text column. *)
Definition dump_line (offset : nat) (chunk : list Byte.byte) : string :=
  zfill 8 (hex_of_nat offset) +:+ "  "
  +:+ ljust 47 (str_join " " (List.map hex_byte chunk)) +:+ "  "
  +:+ String.string_of_list_ascii (List.map printable chunk).

(** The loop over [range(0, len(data), 16)], at most [fuel] lines. *)
Fixpoint dump_lines (fuel offset : nat) (data : list Byte.byte)
  : list string :=
  match fuel, data with
  | S fuel', _ :: _ =>
      dump_line offset (take 16 data)
      :: dump_lines fuel' (offset + 16) (drop 16 data)
  | _, _ => []
  end.

Section DumpFile.
Variable isdir : string → bool.
Variable read_file : string → file_read.

Definition h_dump_file (g : globals) (args : list string) : string * globals :=
  match args with
  | [a] =>
      let path := resolve_state_path g a in
      if isdir path then
        _err ("dump_file: " +:+ path +:+ " is a directory") g
      else
        match read_file path with
        | OpenFails e | ReadFails e => _err ("dump_file: " +:+ exn_msg e) g
        | FileData data =>
            (str_join nl (dump_lines (length data) 0 data), g)
        end
  | _ => _err "usage: dump_file <path>" g
  end.
End DumpFile.

(** Reading a dump back: the value of a hexadecimal digit, of a pair of
    digits, and the bytes of the hexadecimal column of the lines. *)
Fixpoint digit_index (c : ascii) (digits : list ascii) : option nat :=
  match digits with
  | [] => None
  | d :: rest => if Ascii.eqb c d then Some 0 else S <$> digit_index c rest
  end.

Definition unhex_byte (s : string) : option Byte.byte :=
  match s with
  | String a (String b EmptyString) =>
      match digit_index a hex_digits, digit_index b hex_digits with
      | Some x, Some y => Byte.of_nat (16 * x + y)
      | _, _ => None
      end
  | _ => None
  end.

Definition line_bytes (line : string) : list Byte.byte :=
  omap unhex_byte (split_ws (str_take 47 (str_drop 10 line))).

Definition undump (lines : list string) : list Byte.byte :=
  flat_map line_bytes lines.

(** * Properties *)

(** ** Strings *)

Lemma append_cons c (s t : string) : String c s +:+ t = String c (s +:+ t).
Proof. reflexivity. Qed.

Lemma append_nil_l (t : string) : "" +:+ t = t.
Proof. reflexivity. Qed.

Lemma append_nil_r (s : string) : s +:+ "" = s.
Proof. induction s as [|c s IH]; [done | by rewrite append_cons, IH]. Qed.

Lemma append_assoc (a b c : string) : (a +:+ b) +:+ c = a +:+ (b +:+ c).
Proof. induction a as [|x a IH]; [done | by rewrite !append_cons, IH]. Qed.

Lemma ascii_eqb_eq (a b : ascii) : Ascii.eqb a b = true ↔ a = b.
Proof. apply Ascii.eqb_eq. Qed.

Lemma ascii_eqb_refl (a : ascii) : Ascii.eqb a a = true.
Proof. by apply Ascii.eqb_eq. Qed.

Lemma split_on_not_nil sep s : split_on sep s ≠ [].
Proof.
  destruct s as [|c s]; simpl; [done |].
  destruct (Ascii.eqb c sep); [done |].
  by destruct (split_on sep s).
Qed.

(** Splitting and joining on the same separator gives the string back. *)
Lemma join_split sep s :
  str_join (String sep "") (split_on sep s) = s.
Proof.
  induction s as [|c s IH]; simpl; [done |].
  pose proof (split_on_not_nil sep s) as Hn.
  destruct (Ascii.eqb c sep) eqn:E.
  - apply ascii_eqb_eq in E as ->.
    destruct (split_on sep s) as [|w ws]; [done |].
    simpl in *. by rewrite IH.
  - destruct (split_on sep s) as [|w ws]; [done |].
    destruct ws as [|w' ws]; simpl in *; by rewrite <- IH.
Qed.

Lemma split_on_no_sep sep s :
  Forall (λ seg, contains sep seg = false) (split_on sep s).
Proof.
  induction s as [|c s IH]; simpl.
  - by constructor.
  - destruct (Ascii.eqb c sep) eqn:E.
    + by constructor.
    + pose proof (split_on_not_nil sep s) as Hn.
      destruct (split_on sep s) as [|w ws]; [done |].
      inversion IH; subst. constructor; [|done].
      simpl. by rewrite E.
Qed.

Lemma split_on_clean sep s :
  contains sep s = false → split_on sep s = [s].
Proof.
  induction s as [|c s IH]; simpl; [done |].
  destruct (Ascii.eqb c sep); simpl; [done |].
  intros H. by rewrite IH.
Qed.

Lemma split_on_app sep a rest :
  contains sep a = false →
  split_on sep (a +:+ String sep rest) = a :: split_on sep rest.
Proof.
  induction a as [|c a IH]; simpl.
  - by rewrite ascii_eqb_refl.
  - destruct (Ascii.eqb c sep); simpl; [done |].
    intros H. by rewrite IH.
Qed.

(** Joining separator-free segments and splitting again recovers them. *)
Lemma split_join sep segs :
  segs ≠ [] →
  Forall (λ seg, contains sep seg = false) segs →
  split_on sep (str_join (String sep "") segs) = segs.
Proof.
  induction segs as [|a segs IH]; [done |].
  intros _ Hall. inversion Hall as [|? ? Ha Hrest]; subst.
  destruct segs as [|b segs].
  - simpl. by apply split_on_clean.
  - change (str_join (String sep "") (a :: b :: segs))
      with (a +:+ String sep (str_join (String sep "") (b :: segs))).
    rewrite split_on_app by done. f_equal. by apply IH.
Qed.

Lemma last_char_None s : last_char s = None ↔ s = "".
Proof.
  destruct s as [|c s]; simpl; [done |].
  by destruct (last_char s).
Qed.

Lemma last_char_app a b : b ≠ "" → last_char (a +:+ b) = last_char b.
Proof.
  intros Hb. induction a as [|c a IH]; [done |].
  rewrite append_cons. simpl. rewrite IH.
  destruct (last_char b) eqn:E; [done |].
  by apply last_char_None in E.
Qed.

Lemma last_char_contains s c : last_char s = Some c → contains c s = true.
Proof.
  induction s as [|a s IH]; simpl; [done |].
  destruct (last_char s) as [x|] eqn:E.
  - intros [= ->]. rewrite IH by done. by rewrite orb_true_r.
  - intros [= ->]. by rewrite ascii_eqb_refl.
Qed.

Lemma last_char_map f s : last_char (str_map f s) = f <$> last_char s.
Proof.
  induction s as [|c s IH]; simpl; [done |].
  rewrite IH. by destruct (last_char s).
Qed.

(** Nothing is stripped on the right of a string whose last character is
    kept. *)
Lemma rstrip_by_id p s :
  (∀ c, last_char s = Some c → p c = false) → rstrip_by p s = s.
Proof.
  induction s as [|c s IH]; simpl; [done |].
  intros H. destruct (last_char s) as [x|] eqn:E.
  - rewrite IH by (intros ? [= <-]; by apply H).
    destruct s; [done |]. done.
  - apply last_char_None in E as ->. simpl.
    by rewrite (H c).
Qed.

Lemma endswith_char s c :
  endswith s (String c "") =
  match last_char s with Some x => Ascii.eqb x c | None => false end.
Proof.
  induction s as [|a s IH]; [done |].
  destruct s as [|b s].
  - simpl. destruct (Ascii.eqb a c); done.
  - change (endswith (String a (String b s)) (String c ""))
      with (String.eqb (String a (String b s)) (String c "")
            || endswith (String b s) (String c "")).
    rewrite IH. simpl. destruct (Ascii.eqb a c); simpl;
      by destruct (last_char s).
Qed.

(** Joining the pieces of a split with another separator replaces the
    separator character. *)
Lemma join_split_replace a b s :
  str_join (String b "") (split_on a s)
  = str_map (λ c, if Ascii.eqb c a then b else c) s.
Proof.
  induction s as [|c s IH]; simpl; [done |].
  pose proof (split_on_not_nil a s) as Hn.
  destruct (Ascii.eqb c a) eqn:E.
  - destruct (split_on a s) as [|w ws]; [done |].
    simpl in *. by rewrite IH.
  - destruct (split_on a s) as [|w ws]; [done |].
    destruct ws as [|w' ws]; simpl in *; by rewrite <- IH.
Qed.

(** ** [os.path.join] over clean segments *)

Lemma join2_relative root b :
  startswith b "/" = false → posixpath.join2 root b = dir_prefix root +:+ b.
Proof.
  intros H. unfold posixpath.join2, dir_prefix. rewrite H.
  destruct (is_empty root || endswith root "/"); [done |].
  by rewrite append_assoc.
Qed.

Lemma startswith_cons a p b s :
  startswith (String b s) (String a p) = Ascii.eqb a b && startswith s p.
Proof. reflexivity. Qed.

Lemma clean_not_abs a x :
  a ≠ "" → contains slash a = false → startswith (a +:+ x) "/" = false.
Proof.
  destruct a as [|c a]; [done |]. intros _ H.
  apply orb_false_elim in H as [H _].
  rewrite append_cons, startswith_cons, Ascii.eqb_sym.
  fold slash. by rewrite H.
Qed.

Lemma dir_prefix_clean r a :
  a ≠ "" → contains slash a = false →
  dir_prefix (r +:+ a) = r +:+ a +:+ "/".
Proof.
  intros Ha Hs. unfold dir_prefix.
  assert (is_empty (r +:+ a) = false) as ->.
  { destruct r; [by destruct a | done]. }
  rewrite endswith_char, last_char_app by done.
  destruct (last_char a) as [x|] eqn:E.
  - destruct (Ascii.eqb x "/") eqn:Ex.
    + apply ascii_eqb_eq in Ex as ->.
      apply last_char_contains in E. unfold slash in Hs. congruence.
    + simpl. by rewrite append_assoc.
  - simpl. by rewrite append_assoc.
Qed.

(** [os.path.join(root, *segs)] is [os.path.join(root, "/".join(segs))] when
    no segment is empty or contains a slash. *)
Lemma join_segments root segs :
  segs ≠ [] →
  Forall (λ seg, seg ≠ "" ∧ contains slash seg = false) segs →
  posixpath.join root segs = posixpath.join2 root (str_join "/" segs).
Proof.
  revert root. induction segs as [|a segs IH]; [done |].
  intros root _ Hall. inversion Hall as [|? ? [Ha Hs] Hrest]; subst.
  destruct segs as [|b segs]; [done |].
  change (posixpath.join root (a :: b :: segs))
    with (posixpath.join (posixpath.join2 root a) (b :: segs)).
  rewrite IH by done.
  change (str_join "/" (a :: b :: segs))
    with (a +:+ "/" +:+ str_join "/" (b :: segs)).
  assert (startswith (str_join "/" (b :: segs)) "/" = false) as Hb.
  { inversion Hrest as [|? ? [Hb Hbs] _]; subst.
    destruct segs as [|b' segs].
    - simpl. rewrite <- (append_nil_r b). by apply clean_not_abs.
    - change (str_join "/" (b :: b' :: segs))
        with (b +:+ "/" +:+ str_join "/" (b' :: segs)).
      by apply clean_not_abs. }
  rewrite (join2_relative root a)
    by (rewrite <- (append_nil_r a); by apply clean_not_abs).
  rewrite (join2_relative root (a +:+ _)) by (by apply clean_not_abs).
  rewrite join2_relative by done.
  rewrite dir_prefix_clean by done.
  by rewrite !append_assoc.
Qed.

(** ** Round trip of the working directory (C5) *)

Lemma vos_format_strip d :
  match last_char d with Some c => negb (isspace c) | None => true end = true →
  strip (">" +:+ str_join ">" (split_on slash d))
  = ">" +:+ str_join ">" (split_on slash d).
Proof.
  intros Hlast. unfold strip, strip_by.
  change (lstrip_by isspace (">" +:+ ?x)) with (">" +:+ x).
  apply rstrip_by_id. intros c.
  change (">" +:+ ?x) with (String ">" x).
  change ">" with (String gt_sign "") at 1.
  rewrite join_split_replace. simpl. rewrite last_char_map.
  destruct (last_char d) as [x|]; simpl.
  - intros [= <-]. destruct (Ascii.eqb x slash) eqn:E; [done |].
    by apply negb_true_iff.
  - by intros [= <-].
Qed.

Lemma legacy_abs_not_host x : posixpath.isabs (">" +:+ x) = false.
Proof. reflexivity. Qed.

Lemma legacy_abs_contains x : contains gt_sign (">" +:+ x) = true.
Proof. reflexivity. Qed.

Lemma legacy_abs_starts x : startswith (">" +:+ x) ">" = true.
Proof. reflexivity. Qed.

Lemma legacy_abs_split x :
  split_on gt_sign (">" +:+ x) = "" :: split_on gt_sign x.
Proof. reflexivity. Qed.

(** C5, as amended: for the empty working directory and for every working
    directory whose segments are non-empty, contain no legacy separator,
    and that does not end in whitespace, resolving its legacy rendering
    yields the sandbox root joined with it. *)
Theorem legacy_round_trip (g : globals) :
  CURRENT_DIR g = "" ∨ legacy_clean (CURRENT_DIR g) = true →
  resolve_state_path g (vos_format (CURRENT_DIR g)) = current_dir_path g.
Proof.
  intros [Hd | Hd].
  - unfold vos_format, current_dir_path. rewrite Hd. reflexivity.
  - unfold legacy_clean in Hd. apply andb_true_iff in Hd as [Hsegs Hlast].
    assert (CURRENT_DIR g ≠ "") as Hne.
    { intros E. rewrite E in Hsegs. done. }
    assert (nonempty (CURRENT_DIR g) = true) as Hnb.
    { by destruct (CURRENT_DIR g). }
    unfold vos_format, current_dir_path, resolve_state_path. rewrite Hnb.
    change (is_empty (">" +:+ ?x)) with false. cbv iota zeta.
    rewrite vos_format_strip by done.
    rewrite legacy_abs_not_host, legacy_abs_contains, legacy_abs_starts,
      legacy_abs_split.
    change (List.filter nonempty ("" :: ?l)) with (List.filter nonempty l).
    rewrite forallb_forall in Hsegs.
    change ">" with (String gt_sign "").
    rewrite split_join.
    + rewrite forallb_filter_id.
      2:{ apply forallb_forall. intros seg Hin.
          by apply Hsegs, andb_true_iff in Hin as [H _]. }
      rewrite join_segments.
      * change "/" with (String slash ""). by rewrite join_split.
      * apply split_on_not_nil.
      * pose proof (split_on_no_sep slash (CURRENT_DIR g)) as Hs.
        rewrite Forall_forall in Hs |- *. intros seg Hin. split.
        -- apply list_elem_of_In, Hsegs, andb_true_iff in Hin as [H _].
           by destruct seg.
        -- by apply Hs.
    + apply split_on_not_nil.
    + apply Forall_forall. intros seg Hin.
      apply list_elem_of_In, Hsegs, andb_true_iff in Hin as [_ H].
      by apply negb_true_iff.
Qed.

(** ** The registry *)

Lemma string_eqb_eq (a b : string) : String.eqb a b = true ↔ a = b.
Proof. apply String.eqb_eq. Qed.

Lemma string_eqb_neq (a b : string) : String.eqb a b = false ↔ a ≠ b.
Proof. apply String.eqb_neq. Qed.

Lemma dict_get_Some_in {V} k (v : V) d :
  dict_get k d = Some v → k ∈ dict_keys d.
Proof.
  induction d as [|[k' v'] d IH]; simpl; [done |].
  destruct (String.eqb k' k) eqn:E.
  - apply string_eqb_eq in E as ->. intros _. apply list_elem_of_here.
  - intros H. apply list_elem_of_further. by apply IH.
Qed.

Lemma dict_keys_set {V} k (v : V) d :
  dict_keys (dict_set k v d)
  = if dict_has k d then dict_keys d else dict_keys d ++ [k].
Proof.
  unfold dict_has. induction d as [|[k' v'] d IH]; simpl; [done |].
  destruct (String.eqb k' k) eqn:E; simpl; [done |].
  rewrite IH. by destruct (dict_get k d).
Qed.

Lemma dict_get_None_not_in {V} k (d : dict V) :
  dict_get k d = None → k ∉ dict_keys d.
Proof.
  induction d as [|[k' v'] d IH]; simpl.
  - intros _. apply not_elem_of_nil.
  - destruct (String.eqb k' k) eqn:E; [done |].
    apply string_eqb_neq in E. intros H.
    apply not_elem_of_cons. split; [done | by apply IH].
Qed.

Lemma dict_set_NoDup {V} k (v : V) d :
  NoDup (dict_keys d) → NoDup (dict_keys (dict_set k v d)).
Proof.
  intros Hd. rewrite dict_keys_set. unfold dict_has.
  destruct (dict_get k d) eqn:E; [done |].
  apply NoDup_app. split; [done |]. split.
  - intros x Hx Hk. apply list_elem_of_singleton in Hk as ->.
    by apply dict_get_None_not_in in E.
  - apply NoDup_singleton.
Qed.

Lemma dict_keys_del {V} k (d : dict V) :
  dict_keys (dict_del k d)
  = List.filter (λ k', negb (String.eqb k' k)) (dict_keys d).
Proof.
  unfold dict_del, dict_keys.
  induction d as [|[k' v'] d IH]; simpl; [done |].
  destruct (String.eqb k' k); simpl; by rewrite IH.
Qed.

Lemma filter_NoDup {A} (f : A → bool) l : NoDup l → NoDup (List.filter f l).
Proof.
  induction 1 as [|x l Hx Hl IH]; simpl; [constructor |].
  destruct (f x); [|done]. constructor; [|done].
  rewrite list_elem_of_In, filter_In, <- list_elem_of_In. tauto.
Qed.

Lemma dict_del_NoDup {V} k (d : dict V) :
  NoDup (dict_keys d) → NoDup (dict_keys (dict_del k d)).
Proof. intros H. rewrite dict_keys_del. by apply filter_NoDup. Qed.

(** A fold of key-preserving updates keeps the registry keys distinct. *)
Lemma fold_NoDup {V A} (step : dict V → A → dict V) (xs : list A) d :
  (∀ d x, NoDup (dict_keys d) → NoDup (dict_keys (step d x))) →
  NoDup (dict_keys d) → NoDup (dict_keys (fold_left step xs d)).
Proof.
  intros Hstep. revert d. induction xs as [|x xs IH]; simpl; [done |].
  intros d Hd. apply IH. by apply Hstep.
Qed.

Lemma BUILTINS_NoDup : NoDup (dict_keys BUILTINS).
Proof. apply (bool_decide_unpack _). by vm_compute. Qed.

(** The registry built by [__init__] is well formed for every command
    pack and command list. *)
Lemma VOShell_init_wf yaml_pack _txt : shell_wf (VOShell_init yaml_pack _txt).
Proof.
  split; [done |]. unfold VOShell_init. cbn [commands].
  apply fold_NoDup.
  { intros d a Hd. destruct (dict_has a d); [by apply dict_del_NoDup | done]. }
  apply fold_NoDup.
  { intros d k Hd. destruct (str_in k _); [done | by apply dict_del_NoDup]. }
  unfold register_bulk. apply fold_NoDup.
  { intros d name Hd. destruct (_ && _); [by apply dict_set_NoDup | done]. }
  apply fold_NoDup.
  { intros d kv Hd. by apply dict_set_NoDup. }
  apply BUILTINS_NoDup.
Qed.

(** Entries whose lower-case key differs leave the looked-up slot alone. *)
Lemma build_ci_other (d : dict value) (m : gmap string (string * value)) key :
  Forall (λ k, lower k ≠ key) (dict_keys d) →
  fold_left (λ m kv, <[lower (fst kv) := kv]> m) d m !! key = m !! key.
Proof.
  revert m. induction d as [|[k v] d IH]; simpl; [done |].
  intros m Hall. inversion Hall as [|? ? Hk Hrest]; subst.
  rewrite IH by done. by rewrite lookup_insert_ne.
Qed.

Lemma build_ci_found (d : dict value) (m : gmap string (string * value)) n v :
  NoDup (dict_keys d) →
  dict_get n d = Some v →
  Forall (λ k, lower k = lower n → k = n) (dict_keys d) →
  fold_left (λ m kv, <[lower (fst kv) := kv]> m) d m !! lower n = Some (n, v).
Proof.
  revert m. induction d as [|[k v'] d IH]; simpl; [done |].
  intros m Hnd Hget Hall.
  inversion Hnd as [|? ? Hk Hnd']; subst.
  inversion Hall as [|? ? Hku Hrest]; subst.
  destruct (String.eqb k n) eqn:E.
  - apply string_eqb_eq in E as ->. injection Hget as ->.
    rewrite build_ci_other.
    + by rewrite lookup_insert_eq.
    + rewrite Forall_forall in Hrest |- *. intros k Hin Hlow.
      apply Hk. by rewrite <- (Hrest k Hin Hlow).
  - by apply IH.
Qed.

Lemma expand_alias_skip al keys line line_lc :
  forallb (λ a, negb (String.eqb line_lc a)
                && negb (startswith line_lc (a +:+ " "))) keys = true →
  expand_alias al keys line line_lc = line.
Proof.
  induction keys as [|a keys IH]; simpl; [done |].
  intros H. apply andb_true_iff in H as [Ha Hrest].
  apply andb_true_iff in Ha as [H1 H2].
  apply negb_true_iff in H1, H2. rewrite H1, H2. simpl. by apply IH.
Qed.

Lemma lower_empty s : lower s = "" → s = "".
Proof. by destruct s. Qed.

Lemma insert_by_len_perm x l : insert_by_len x l ≡ₚ x :: l.
Proof.
  induction l as [|y l IH]; simpl; [done |].
  destruct (_ <? _); [done |].
  rewrite IH. apply Permutation_swap.
Qed.

Lemma longest_first_perm keys : longest_first keys ≡ₚ keys.
Proof.
  unfold longest_first.
  enough (∀ acc, fold_left (λ acc k, insert_by_len k acc) keys acc ≡ₚ acc ++ keys)
    as H by apply (H []).
  induction keys as [|k keys IH]; intros acc; simpl.
  - by rewrite app_nil_r.
  - rewrite IH, insert_by_len_perm. simpl. apply Permutation_middle.
Qed.

Lemma forallb_perm {A} (f : A → bool) l l' :
  l ≡ₚ l' → forallb f l = true → forallb f l' = true.
Proof.
  intros Hp. rewrite !forallb_forall. intros H x Hin.
  apply H. eapply Permutation_in; [symmetry; exact Hp | done].
Qed.

(** ** Resolution of registered names (C3) *)

Section ResolveFacts.
Variable fnmatch_fn : string → string → bool.
Variable get_close_matches : string → list string → list string.

Local Abbreviation resolve := (_resolve fnmatch_fn get_close_matches).

(** The second step of [_resolve]: a line that no alias rewrites and that
    is a registered name up to letter case is answered at once. *)
Lemma full_line_match sh n v line :
  shell_wf sh →
  dict_get n (commands sh) = Some v →
  n ≠ "" →
  lower (strip line) = lower n →
  case_unique sh n = true →
  alias_free sh n = true →
  resolve sh line = (Some n, v, []).
Proof.
  intros [Hci Hnd] Hget Hne Hline Huniq Hfree.
  unfold _resolve.
  destruct (is_empty (strip line)) eqn:Hempty.
  { destruct (strip line); [|done]. simpl in Hline.
    symmetry in Hline. by apply lower_empty in Hline. }
  assert (alias_expanded sh (strip line) = strip line) as ->.
  { unfold alias_expanded. apply expand_alias_skip.
    rewrite Hline. eapply forallb_perm; [|exact Hfree].
    symmetry. apply longest_first_perm. }
  rewrite Hline, Hci. unfold build_ci.
  rewrite (build_ci_found _ _ n v); [done | done | done |].
  apply Forall_forall. intros k Hk Hlow.
  unfold case_unique in Huniq. rewrite forallb_forall in Huniq.
  apply list_elem_of_In, Huniq in Hk.
  apply string_eqb_eq in Hlow. rewrite Hlow in Hk.
  by apply string_eqb_eq in Hk.
Qed.

(** C3, as amended: for every registered, non-empty name [n] that no other
    registered name equals up to letter case and that no alias pattern
    shadows, a line that is [n] in any letter case resolves to [n], its
    handler and no arguments, on the full-line match, before the line is
    split into head and arguments. *)
Theorem resolve_registered_name sh n v line :
  shell_wf sh →
  dict_get n (commands sh) = Some v →
  n ≠ "" →
  lower (strip line) = lower n →
  case_unique sh n = true →
  alias_free sh n = true →
  resolve sh line = (Some n, v, []).
Proof. apply full_line_match. Qed.

(** On the registry built without a command list every name meets these
    conditions: there the claim holds as the specification states it. *)
Lemma builtin_names_resolve n v line :
  dict_get n (commands builtin_shell) = Some v →
  lower (strip line) = lower n →
  resolve builtin_shell line = (Some n, v, []).
Proof.
  intros Hget Hline.
  assert (forallb (λ k, nonempty k && case_unique builtin_shell k
                        && alias_free builtin_shell k)
                  (dict_keys (commands builtin_shell)) = true) as Hall.
  { by vm_compute. }
  rewrite forallb_forall in Hall.
  pose proof (dict_get_Some_in _ _ _ Hget) as Hin.
  apply list_elem_of_In, Hall in Hin.
  apply andb_true_iff in Hin as [Hin Hfree].
  apply andb_true_iff in Hin as [Hne Huniq].
  apply full_line_match;
    [apply VOShell_init_wf | exact Hget | | exact Hline | exact Huniq
    | exact Hfree].
  intros ->. discriminate Hne.
Qed.

(** ** Ambiguous heads (C4) *)

(** C4, as amended: when neither the expanded line nor its head is a
    registered name up to letter case and more than one registered name
    starts with the head or matches it as a glob, the resolver returns
    the ambiguous diagnostic and no handler; it lists the candidates in
    registration order, at most the first 20, followed by the "more"
    line exactly when there are more than 20. *)
Theorem resolve_ambiguous sh line head args :
  strip line ≠ "" →
  commands_ci sh !! lower (alias_expanded sh (strip line)) = None →
  _split_cmd_args (alias_expanded sh (strip line)) (commands_ci sh)
    = (head, args) →
  head ≠ "" →
  commands_ci sh !! lower head = None →
  1 < length (candidates fnmatch_fn sh (lower head)) →
  ∃ shown more,
    resolve sh line
    = (None,
       VStr ("Ambiguous command. Did you mean:" +:+ nl +:+ "  - "
             +:+ str_join (nl +:+ "  - ") shown +:+ more),
       [])
    ∧ shown = take 20 (candidates fnmatch_fn sh (lower head))
    ∧ length shown ≤ 20
    ∧ (20 < length (candidates fnmatch_fn sh (lower head))
       → more = nl +:+ "  ... (more)")
    ∧ (length (candidates fnmatch_fn sh (lower head)) ≤ 20 → more = "")
    ∧ candidates fnmatch_fn sh (lower head)
      = List.filter
          (λ k, startswith (lower k) (lower head)
                || fnmatch_fn (lower k) (lower head))
          (dict_keys (commands sh)).
Proof.
  intros Hline Hfull Hsplit Hhead Hexact Hmany.
  set (cands := candidates fnmatch_fn sh (lower head)) in *.
  exists (take 20 cands),
    (if 20 <? length cands then nl +:+ "  ... (more)" else "").
  split; [|split; [done |split; [|split; [|split; [|done]]]]].
  - unfold _resolve. destruct (strip line) eqn:E; [done |]. simpl is_empty.
    cbv iota. rewrite Hfull, Hsplit.
    destruct head; [done |]. simpl is_empty. cbv iota.
    rewrite Hexact. fold cands.
    destruct cands as [|c1 [|c2 cands']]; simpl in Hmany; [lia | lia |].
    reflexivity.
  - rewrite length_take. lia.
  - intros H. apply Nat.ltb_lt in H. by rewrite H.
  - intros H. apply Nat.ltb_ge in H. by rewrite H.
Qed.
End ResolveFacts.

Lemma resolve_registered_name_witness :
  _resolve fnmatch.fnmatch no_close_matches builtin_shell
    "Show Commands STATUS"
  = (Some "show commands status", VHandler Fn.h_show_commands_status, []).
Proof.
  apply resolve_registered_name.
  - apply VOShell_init_wf.
  - reflexivity.
  - discriminate.
  - reflexivity.
  - reflexivity.
  - reflexivity.
Defined.

(** A command list naming [LIST] hides the built-in [list]: the claim of C3
    fails for a registered name that another one equals up to case. *)
Lemma resolve_case_collision :
  dict_get "list" (commands (VOShell_init [] ["LIST"]))
    = Some (VHandler Fn.h_list)
  ∧ _resolve fnmatch.fnmatch no_close_matches
      (VOShell_init [] ["LIST"]) "list"
    ≠ (Some "list", VHandler Fn.h_list, []).
Proof. split; [reflexivity |]. vm_compute. discriminate. Qed.

Lemma resolve_ambiguous_witness :
  ∃ shown more,
    _resolve fnmatch.fnmatch no_close_matches builtin_shell "co x"
    = (None,
       VStr ("Ambiguous command. Did you mean:" +:+ nl +:+ "  - "
             +:+ str_join (nl +:+ "  - ") shown +:+ more),
       [])
    ∧ shown = take 20 (candidates fnmatch.fnmatch builtin_shell (lower "co"))
    ∧ length shown ≤ 20
    ∧ (20 < length (candidates fnmatch.fnmatch builtin_shell (lower "co"))
       → more = nl +:+ "  ... (more)")
    ∧ (length (candidates fnmatch.fnmatch builtin_shell (lower "co")) ≤ 20
       → more = "")
    ∧ candidates fnmatch.fnmatch builtin_shell (lower "co")
      = List.filter
          (λ k, startswith (lower k) (lower "co")
                || fnmatch.fnmatch (lower k) (lower "co"))
          (dict_keys (commands builtin_shell)).
Proof.
  apply (resolve_ambiguous fnmatch.fnmatch no_close_matches builtin_shell
           "co x" "co" ["x"]).
  - discriminate.
  - reflexivity.
  - reflexivity.
  - discriminate.
  - reflexivity.
  - vm_compute. lia.
Defined.

(** On the built-in registry the head [co] is answered with the candidates
    in registration order, which is not sorted order, and the head [list],
    a prefix of four names, is resolved to the exact name: the claim of C4
    fails on both. *)
Lemma ambiguous_not_sorted :
  _resolve fnmatch.fnmatch no_close_matches builtin_shell "co"
  = (None,
     VStr (ambiguous_message
             ["copy_file"; "compare_files"; "copy_dir"; "compare_dirs"]),
     [])
  ∧ sorted ["copy_file"; "compare_files"; "copy_dir"; "compare_dirs"]
    ≠ ["copy_file"; "compare_files"; "copy_dir"; "compare_dirs"]
  ∧ 1 < length (candidates fnmatch.fnmatch builtin_shell "list")
  ∧ _resolve fnmatch.fnmatch no_close_matches builtin_shell "list"
    = (Some "list", VHandler Fn.h_list, []).
Proof.
  split; [reflexivity |]. split; [vm_compute; discriminate |].
  split; [vm_compute; lia | reflexivity].
Qed.

(** ** Directory change (C2) *)

Section ChangeDirFacts.
Variable cwd : string.
Variable isdir : string → bool.

(** The working directory is committed only for an existing directory
    that passes the prefix test on absolute paths. *)
Lemma change_dir_commit g args msg g' :
  h_change_current_dir cwd isdir g args = (msg, g') →
  CURRENT_DIR g' ≠ CURRENT_DIR g →
  ∃ target,
    args = [target]
    ∧ isdir (resolve_state_path g target) = true
    ∧ startswith (posixpath.abspath cwd (resolve_state_path g target))
                 (posixpath.abspath cwd (STATE_DIR g)) = true.
Proof.
  unfold h_change_current_dir.
  destruct args as [|target [|? ?]]; try (intros [= <- <-]; done).
  destruct (isdir (resolve_state_path g target)) eqn:Hd; simpl;
    [|intros [= <- <-]; done].
  destruct (startswith _ _) eqn:Hp; simpl; [|intros [= <- <-]; done].
  intros _ _. by exists target.
Qed.

(** What the handler does check: a target that is not an existing
    directory is answered with the does-not-exist error, and an existing
    directory whose absolute path does not begin with the text of the
    absolute sandbox root with the containment error; both leave the
    working directory unchanged, and the working directory is committed
    only for a directory that passes this test on the two texts. *)
Lemma change_dir_contained g target :
  (isdir (resolve_state_path g target) = false →
   h_change_current_dir cwd isdir g [target]
   = _err ("change_current_dir: target directory does not exist: "
           +:+ resolve_state_path g target) g)
  ∧ (isdir (resolve_state_path g target) = true →
     startswith (posixpath.abspath cwd (resolve_state_path g target))
                (posixpath.abspath cwd (STATE_DIR g)) = false →
     h_change_current_dir cwd isdir g [target]
     = _err ("change_current_dir: target " +:+ resolve_state_path g target
             +:+ " is outside STATE_DIR") g)
  ∧ (∀ msg, CURRENT_DIR (snd (_err msg g)) = CURRENT_DIR g)
  ∧ (∀ args msg g',
       h_change_current_dir cwd isdir g args = (msg, g') →
       CURRENT_DIR g' ≠ CURRENT_DIR g →
       ∃ t, args = [t]
            ∧ isdir (resolve_state_path g t) = true
            ∧ startswith (posixpath.abspath cwd (resolve_state_path g t))
                         (posixpath.abspath cwd (STATE_DIR g)) = true).
Proof.
  split; [|split; [|split]].
  - intros Hd. unfold h_change_current_dir. by rewrite Hd.
  - intros Hd Hp. unfold h_change_current_dir. by rewrite Hd, Hp.
  - done.
  - apply change_dir_commit.
Qed.
End ChangeDirFacts.

Lemma change_dir_contained_witness :
  h_change_current_dir "/home" sample_isdir sample_globals [">..>.."]
  = _err "change_current_dir: target /home/vos_state/filesystem/../.. is outside STATE_DIR"
         sample_globals.
Proof.
  refine (proj1 (proj2 (change_dir_contained "/home" sample_isdir
                          sample_globals ">..>..")) _ _); reflexivity.
Defined.

(** A target outside the sandbox root that is not an existing directory
    is refused before the containment test, with the does-not-exist
    error; the working directory stays as it is. *)
Lemma change_dir_missing_target :
  within_root (posixpath.abspath "/home" (STATE_DIR sample_globals))
    (posixpath.abspath "/home"
       (resolve_state_path sample_globals ">..>missing")) = false
  ∧ h_change_current_dir "/home" sample_isdir sample_globals [">..>missing"]
    = _err "change_current_dir: target directory does not exist: /home/vos_state/filesystem/../missing"
           sample_globals
  ∧ h_change_current_dir "/home" sample_isdir sample_globals [">..>missing"]
    ≠ _err "change_current_dir: target /home/vos_state/filesystem/../missing is outside STATE_DIR"
           sample_globals.
Proof. split; [reflexivity |]. split; [reflexivity |]. discriminate. Qed.

(** C2: the containment test compares texts, not paths.  The directory
    [filesystem2] next to the sandbox root [filesystem] exists and lies
    outside the root, yet its absolute path begins with the text of the
    root: the request is answered with [OK] instead of the containment
    error, and the working directory is moved to [../filesystem2],
    outside the sandbox. *)
Theorem change_dir_escapes_to_sibling :
  let target := ">..>filesystem2" in
  let resolved := resolve_state_path sample_globals target in
  let root := posixpath.abspath "/home" (STATE_DIR sample_globals) in
  let answer :=
    h_change_current_dir "/home" sample_isdir sample_globals [target] in
  sample_isdir resolved = true
  ∧ root = "/home/vos_state/filesystem"
  ∧ posixpath.abspath "/home" resolved = "/home/vos_state/filesystem2"
  ∧ within_root root (posixpath.abspath "/home" resolved) = false
  ∧ startswith (posixpath.abspath "/home" resolved) root = true
  ∧ answer
    = ("[OK] current directory set to >..>filesystem2",
       set_current_dir "../filesystem2" sample_globals)
  ∧ answer
    ≠ _err ("change_current_dir: target " +:+ resolved
            +:+ " is outside STATE_DIR") sample_globals
  ∧ CURRENT_DIR answer.2 ≠ CURRENT_DIR sample_globals
  ∧ posixpath.normpath (current_dir_path answer.2)
    = "/home/vos_state/filesystem2".
Proof.
  cbv zeta. repeat split; try reflexivity; vm_compute; discriminate.
Qed.

(** A working directory reached through a host-absolute path can hold the
    legacy separator inside a segment; its legacy rendering then resolves
    to another path: the claim of C5 fails for it. *)
Lemma legacy_round_trip_fails :
  h_change_current_dir "/home" sample_isdir sample_globals
    ["/home/vos_state/filesystem/a>b"]
  = ("[OK] current directory set to >a>b",
     set_current_dir "a>b" sample_globals)
  ∧ resolve_state_path (set_current_dir "a>b" sample_globals)
      (vos_format "a>b")
    = "/home/vos_state/filesystem/a/b"
  ∧ current_dir_path (set_current_dir "a>b" sample_globals)
    = "/home/vos_state/filesystem/a>b"
  ∧ resolve_state_path (set_current_dir "a>b" sample_globals)
      (vos_format (CURRENT_DIR (set_current_dir "a>b" sample_globals)))
    ≠ current_dir_path (set_current_dir "a>b" sample_globals).
Proof. repeat split; try reflexivity. vm_compute. discriminate. Qed.

Lemma legacy_round_trip_witness :
  resolve_state_path (set_current_dir "Sales/Jones" sample_globals)
    (vos_format "Sales/Jones")
  = current_dir_path (set_current_dir "Sales/Jones" sample_globals).
Proof.
  apply (legacy_round_trip (set_current_dir "Sales/Jones" sample_globals)).
  right. reflexivity.
Defined.

(** ** Process names (C1) *)

Example derive_report :
  _derive_process_name "'Sales>Report.txt' -queue nightly" = Ok "Report".
Proof. reflexivity. Qed.

Lemma split_on_contains sep s :
  contains sep s = true → 2 ≤ length (split_on sep s).
Proof.
  induction s as [|c s IH]; simpl; [done |].
  pose proof (split_on_not_nil sep s) as Hn.
  destruct (Ascii.eqb c sep); simpl.
  - intros _. destruct (split_on sep s); [done | simpl; lia].
  - intros H. apply IH in H. destruct (split_on sep s); [done | done].
Qed.

(** Cutting at the first dot and cutting at the last dot agree on a name
    with at most one dot. *)
Lemma first_and_last_dot_agree w :
  length (split_on dot w) ≤ 2 →
  (if contains dot w then hd EmptyString (split_on dot w) else w)
  = drop_from_last_dot w.
Proof.
  intros Hlen. unfold drop_from_last_dot.
  destruct (contains dot w) eqn:E; [|done].
  apply split_on_contains in E.
  destruct (split_on dot w) as [|a [|b [|c l]]]; simpl in *; try lia.
  done.
Qed.

(** C1 fails on the code: the extension is cut at the first ['.'] of the
    base name, not at the last one as the specification and the docstring
    of [_derive_process_name] say; [batch archive.tar.gz] is stored under
    the process name [archive]. *)
Theorem derive_cuts_at_first_dot :
  _derive_process_name "archive.tar.gz" = Ok "archive"
  ∧ derive_process_name_spec "archive.tar.gz" = Ok "archivetar"
  ∧ ∃ st,
      h_batch 0 sample_globals [] ["archive.tar.gz"]
      = Ok ("[OK] queued batch request archive in queue 'normal'",
            sample_globals, st)
      ∧ dict_keys (queue_files st "normal") = ["archive.job"].
Proof. split; [reflexivity |]. split; [reflexivity |]. by eexists. Qed.

(** ** Unique job names (C6) *)

Lemma append_length (a b : string) :
  String.length (a +:+ b) = String.length a + String.length b.
Proof. induction a as [|c a IH]; [done |]. rewrite append_cons. simpl. by rewrite IH. Qed.

Lemma append_cancel_r (a b t : string) : a +:+ t = b +:+ t → a = b.
Proof.
  revert b. induction a as [|c a IH]; intros [|d b] H.
  - done.
  - apply (f_equal String.length) in H.
    rewrite append_nil_l, append_cons in H. simpl in H.
    rewrite append_length in H. lia.
  - apply (f_equal String.length) in H.
    rewrite append_nil_l, append_cons in H. simpl in H.
    rewrite append_length in H. lia.
  - rewrite !append_cons in H. injection H as -> H. f_equal. by apply IH.
Qed.

Lemma str_of_nat_inj a b : str_of_nat a = str_of_nat b → a = b.
Proof.
  unfold str_of_nat. intros H.
  apply Unsigned.to_uint_inj.
  assert (Some (Nat.to_uint a) = Some (Nat.to_uint b)) as [=]; [|done].
  by rewrite <- !NilEmpty.usu, H.
Qed.

Lemma candidate_name_inj p a b : candidate_name p a = candidate_name p b → a = b.
Proof.
  destruct a as [|a], b as [|b]; unfold candidate_name; intros H.
  - done.
  - apply String.app_inj in H. discriminate.
  - apply String.app_inj in H. discriminate.
  - apply String.app_inj in H. change ("_" +:+ ?x) with (String "_" x) in H.
    injection H as H. apply append_cancel_r in H. by apply str_of_nat_inj.
Qed.

Lemma dict_has_in {V} k (d : dict V) : dict_has k d = true ↔ k ∈ dict_keys d.
Proof.
  unfold dict_has. split.
  - destruct (dict_get k d) eqn:E; [|done]. intros _.
    by apply dict_get_Some_in in E.
  - destruct (dict_get k d) eqn:E; [done |].
    by apply dict_get_None_not_in in E.
Qed.

(** Among the first [n + 1] candidate names one is free in a directory of
    [n] entries. *)
Lemma free_candidate_exists (files : dict jobfile) p :
  ∃ k, k ≤ length files ∧ dict_has (candidate_name p k) files = false.
Proof.
  assert (∀ n, (∀ k, k ≤ n → dict_has (candidate_name p k) files = true)
             ∨ ∃ k, k ≤ n ∧ dict_has (candidate_name p k) files = false)
    as Hsearch.
  { induction n as [|n [IH | (k & Hk & Hfree)]].
    - destruct (dict_has (candidate_name p 0) files) eqn:E.
      + left. intros k Hk. by replace k with 0 by lia.
      + right. by exists 0.
    - destruct (dict_has (candidate_name p (S n)) files) eqn:E.
      + left. intros k Hk. destruct (decide (k = S n)) as [->|]; [done |].
        apply IH. lia.
      + right. by exists (S n).
    - right. exists k. split; [lia | done]. }
  destruct (Hsearch (length files)) as [Hall | Hfree]; [|done].
  exfalso.
  assert (length (candidate_name p <$> seq 0 (S (length files)))
          ≤ length (dict_keys files)) as Hlen.
  { apply submseteq_length, NoDup_submseteq.
    - apply NoDup_fmap_2; [|apply NoDup_seq].
      intros a b. apply candidate_name_inj.
    - intros x Hx. apply list_elem_of_fmap in Hx as (k & -> & Hk).
      apply elem_of_seq in Hk. apply dict_has_in, Hall. lia. }
  rewrite length_fmap, length_seq in Hlen.
  unfold dict_keys in Hlen. rewrite length_map in Hlen. lia.
Qed.

(** The loop leaves on the first free candidate when one lies within its
    fuel. *)
Lemma unique_name_loop_first_free fuel (files : dict jobfile) p j k :
  j ≤ k ≤ j + fuel →
  dict_has (candidate_name p k) files = false →
  ∃ k', unique_name_loop fuel files p (candidate_name p j) (S j)
        = candidate_name p k'
        ∧ j ≤ k'
        ∧ dict_has (candidate_name p k') files = false
        ∧ ∀ i, j ≤ i < k' → dict_has (candidate_name p i) files = true.
Proof.
  revert j. induction fuel as [|fuel IH]; intros j Hk Hfree.
  - assert (k = j) as -> by lia. exists j. simpl.
    repeat split; [lia | done | intros; lia].
  - simpl. destruct (dict_has (candidate_name p j) files) eqn:E.
    + assert (k ≠ j) by congruence.
      destruct (IH (S j)) as (k' & Hloop & Hle & Hf & Hbefore); [lia | done |].
      exists k'. repeat split; [done | lia | done |].
      intros i Hi. destruct (decide (i = j)) as [->|]; [done |].
      apply Hbefore. lia.
    + exists j. repeat split; [lia | done | intros; lia].
Qed.

(** The name chosen by the loop is free: the unrolling never runs out. *)
Lemma unique_name_loop_free (files : dict jobfile) p :
  dict_has (unique_name_loop (length files) files p (p +:+ ".job") 1) files
  = false.
Proof.
  destruct (free_candidate_exists files p) as (k & Hk & Hfree).
  destruct (unique_name_loop_first_free (length files) files p 0 k)
    as (k' & Hloop & _ & Hf & _); [lia | done |].
  change (candidate_name p 0) with (p +:+ ".job") in Hloop.
  by rewrite Hloop.
Qed.

Lemma dict_get_set_eq {V} k (v : V) d : dict_get k (dict_set k v d) = Some v.
Proof.
  induction d as [|[k' v'] d IH]; simpl.
  - by rewrite String.eqb_refl.
  - destruct (String.eqb k' k) eqn:E; simpl; by rewrite E.
Qed.

Lemma dict_get_set_ne {V} k k' (v : V) d :
  k ≠ k' → dict_get k' (dict_set k v d) = dict_get k' d.
Proof.
  intros Hne. induction d as [|[k0 v0] d IH]; simpl.
  - apply string_eqb_neq in Hne. by rewrite Hne.
  - destruct (String.eqb k0 k) eqn:E; simpl.
    + apply string_eqb_eq in E as ->.
      apply string_eqb_neq in Hne. by rewrite Hne.
    + by rewrite IH.
Qed.

Lemma dict_get_set {V} k k' (v : V) d :
  dict_get k' (dict_set k v d)
  = if String.eqb k k' then Some v else dict_get k' d.
Proof.
  destruct (String.eqb k k') eqn:E.
  - apply string_eqb_eq in E as ->. apply dict_get_set_eq.
  - apply string_eqb_neq in E. by apply dict_get_set_ne.
Qed.

Lemma dict_has_set {V} k k' (v : V) d :
  dict_has k' (dict_set k v d) = String.eqb k k' || dict_has k' d.
Proof. unfold dict_has. rewrite dict_get_set. by destruct (String.eqb k k'). Qed.

Lemma dict_set_length_new {V} k (v : V) d :
  dict_has k d = false → length (dict_set k v d) = S (length d).
Proof.
  intros H. transitivity (length (dict_keys (dict_set k v d))).
  { unfold dict_keys. by rewrite length_map. }
  rewrite dict_keys_set, H, length_app. unfold dict_keys.
  rewrite length_map. simpl. lia.
Qed.

(** After a write the queue holds the file with the written record. *)
Lemma queue_files_write st q ce files fname record :
  dict_get q st = Some (QDir ce files) →
  queue_files (write_job q fname record st) q
  = dict_set fname (plain_file (Some record)) files.
Proof.
  intros H. unfold write_job, queue_files. rewrite H.
  by rewrite dict_get_set_eq.
Qed.

Lemma write_job_get st q ce files fname record :
  dict_get q st = Some (QDir ce files) →
  dict_get q (write_job q fname record st)
  = Some (QDir ce (dict_set fname (plain_file (Some record)) files)).
Proof. intros H. unfold write_job. rewrite H. by rewrite dict_get_set_eq. Qed.

(** The queue directory exists after [_generate_unique_job_path] and holds
    what it held before. *)
Lemma generate_keeps_queue st q p :
  (∀ e, dict_get q st ≠ Some (QFile e)) →
  ∃ fname st' ce,
    _generate_unique_job_path st q p = Ok (fname, st')
    ∧ dict_get q st' = Some (QDir ce (queue_files st q))
    ∧ fname = unique_name_loop (length (queue_files st q)) (queue_files st q)
                p (p +:+ ".job") 1.
Proof.
  intros Hdir. unfold _generate_unique_job_path, queue_files.
  destruct (dict_get q st) as [[e | ce files]|] eqn:E.
  - by destruct (Hdir e).
  - eexists _, st, ce. repeat split. done.
  - eexists _, _, None. repeat split. by rewrite dict_get_set_eq.
Qed.

(** C6: for a queue name that names an entry of the batch root and a
    process name free of separators, so that the queue directory and
    the job file are the entries the store holds, the job file name is
    [name.job] when that is free in the queue directory and otherwise
    the first free one of [name_1.job], [name_2.job], ...; two
    submissions of one process name to a queue holding neither
    [name.job] nor [name_1.job] give these two files. *)
Theorem unique_job_name_first_free st q p :
  path_component q = true →
  contains slash p = false →
  contains nul p = false →
  (∀ e, dict_get q st ≠ Some (QFile e)) →
  (∃ k st',
     _generate_unique_job_path st q p = Ok (candidate_name p k, st')
     ∧ dict_has (candidate_name p k) (queue_files st q) = false
     ∧ (∀ j, j < k → dict_has (candidate_name p j) (queue_files st q) = true)
     ∧ queue_files st' q = queue_files st q)
  ∧ (dict_has (p +:+ ".job") (queue_files st q) = false →
     dict_has (p +:+ "_1.job") (queue_files st q) = false →
     ∃ st1,
       _generate_unique_job_path st q p = Ok (p +:+ ".job", st1)
       ∧ ∀ r1, ∃ st2,
           _generate_unique_job_path (write_job q (p +:+ ".job") r1 st1) q p
           = Ok (p +:+ "_1.job", st2)
           ∧ ∀ r2,
               dict_get (p +:+ ".job")
                 (queue_files (write_job q (p +:+ "_1.job") r2 st2) q)
               = Some (plain_file (Some r1))
               ∧ dict_get (p +:+ "_1.job")
                   (queue_files (write_job q (p +:+ "_1.job") r2 st2) q)
                 = Some (plain_file (Some r2))).
Proof.
  intros _ _ _ Hdir.
  destruct (generate_keeps_queue st q p Hdir) as (fname & st' & ce & Hgen & Hq & Hname).
  set (files := queue_files st q) in *.
  destruct (free_candidate_exists files p) as (k0 & Hk0 & Hfree0).
  destruct (unique_name_loop_first_free (length files) files p 0 k0)
    as (k & Hloop & _ & Hfree & Hbefore); [lia | done |].
  change (candidate_name p 0) with (p +:+ ".job") in Hloop.
  rewrite Hloop in Hname. subst fname.
  split.
  - exists k, st'. repeat split; [done | done | |].
    + intros j Hj. apply Hbefore. lia.
    + unfold queue_files at 1. by rewrite Hq.
  - intros Hf0 Hf1.
    assert (k = 0) as ->.
    { destruct k as [|k]; [done |].
      pose proof (Hbefore 0 ltac:(lia)) as H0.
      change (candidate_name p 0) with (p +:+ ".job") in H0. congruence. }
    exists st'. split; [done |]. intros r1.
    set (stA := write_job q (p +:+ ".job") r1 st').
    set (filesA := dict_set (p +:+ ".job") (plain_file (Some r1)) files).
    assert (dict_get q stA = Some (QDir ce filesA)) as HqA.
    { by apply write_job_get. }
    assert (queue_files stA q = filesA) as HfA.
    { unfold queue_files. by rewrite HqA. }
    assert (∀ e, dict_get q stA ≠ Some (QFile e)) as HdirA.
    { intros e. by rewrite HqA. }
    destruct (generate_keeps_queue stA q p HdirA)
      as (fname2 & st2 & ce2 & Hgen2 & Hq2 & Hname2).
    rewrite HfA in Hq2, Hname2.
    assert (dict_has (candidate_name p 0) filesA = true) as Htaken.
    { unfold filesA. rewrite dict_has_set.
      change (candidate_name p 0) with (p +:+ ".job").
      by rewrite String.eqb_refl. }
    assert (dict_has (candidate_name p 1) filesA = false) as Hfree1.
    { unfold filesA. rewrite dict_has_set.
      change (candidate_name p 1) with (p +:+ "_1.job"). rewrite Hf1.
      destruct (String.eqb _ _) eqn:E; [|done].
      apply string_eqb_eq in E.
      by apply (candidate_name_inj p 0 1) in E. }
    destruct (unique_name_loop_first_free (length filesA) filesA p 0 1)
      as (k' & Hloop' & _ & Hfree' & Hbefore').
    { unfold filesA. rewrite dict_set_length_new by done. lia. }
    { done. }
    assert (k' = 1) as ->.
    { destruct k' as [|[|k']]; [congruence | done |].
      pose proof (Hbefore' 1 ltac:(lia)). congruence. }
    change (candidate_name p 0) with (p +:+ ".job") in Hloop'.
    rewrite Hloop' in Hname2. subst fname2.
    change (candidate_name p 1) with (p +:+ "_1.job") in Hgen2.
    exists st2. split; [done |]. intros r2.
    rewrite (queue_files_write _ _ _ _ _ _ Hq2).
    rewrite !dict_get_set, String.eqb_refl.
    split; [|done].
    destruct (String.eqb _ _) eqn:E.
    + apply string_eqb_eq in E.
      by apply (candidate_name_inj p 1 0) in E.
    + unfold filesA. by rewrite dict_get_set_eq.
Qed.

(** Two submissions through [h_batch] whose command lines derive the same
    process name. *)
Example batch_twice :
  ∃ g1 st1 g2 st2,
    h_batch 17 sample_globals [] ["run"; "nightly.cm"]
    = Ok ("[OK] queued batch request run in queue 'normal'", g1, st1)
    ∧ h_batch 18 g1 st1 ["'>tools>run.pm'"; "weekly"]
      = Ok ("[OK] queued batch request run in queue 'normal'", g2, st2)
    ∧ dict_keys (queue_files st2 "normal") = ["run.job"; "run_1.job"].
Proof. by eexists _, _, _, _. Qed.

Lemma unique_job_name_witness :
  ∃ st1,
    _generate_unique_job_path sample_store "normal" "build"
    = Ok ("build.job", st1)
    ∧ ∃ st2,
        _generate_unique_job_path
          (write_job "normal" "build.job" JNull st1) "normal" "build"
        = Ok ("build_1.job", st2).
Proof.
  destruct (unique_job_name_first_free sample_store "normal" "build"
              eq_refl eq_refl eq_refl)
    as [_ Htwo]; [done |].
  destruct Htwo as (st1 & Hgen & Hnext); [reflexivity | reflexivity |].
  exists st1. split; [exact Hgen |].
  destruct (Hnext JNull) as (st2 & Hgen2 & _). by exists st2.
Defined.

(** ** Listings (C8) *)

Lemma insert_sorted_perm x l : insert_sorted x l ≡ₚ x :: l.
Proof.
  induction l as [|y l IH]; simpl; [done |].
  destruct (String.leb x y); [done |].
  rewrite IH. apply Permutation_swap.
Qed.

Lemma sorted_perm l : sorted l ≡ₚ l.
Proof.
  induction l as [|x l IH]; simpl; [done |].
  by rewrite insert_sorted_perm, IH.
Qed.

Lemma in_sorted x l : x ∈ l → In x (sorted l).
Proof.
  intros H. apply list_elem_of_In. by rewrite sorted_perm.
Qed.

(** Every [.job] file of a listed queue directory has its row. *)
Lemma listing_rows_complete row st queue_filter q ce files fname f :
  dict_get q st = Some (QDir ce files) →
  dict_get fname files = Some f →
  filtered_out queue_filter q = false →
  is_job fname = true →
  In (row q fname f) (listing_rows row st queue_filter).
Proof.
  intros Hq Hf Hfilter Hjob. unfold listing_rows.
  apply in_flat_map. exists q. split.
  { apply in_sorted. by apply dict_get_Some_in in Hq. }
  rewrite Hfilter, Hq. apply in_flat_map. exists fname. split.
  { apply in_sorted. by apply dict_get_Some_in in Hf. }
  rewrite Hjob, Hf. by left.
Qed.

Section ListingFacts.
Variable cell_str : json → string.

(** C8, as amended: in [display_batch_status] a record that fails to
    parse is a row with the status [unreadable]; in
    [list_batch_requests], which has no status column, it is a row with
    the file base name and an empty priority.  In both, every [.job]
    file of every listed queue has its row, and the answer is the table
    of the rows: a malformed record does not end the enumeration. *)
Theorem listing_reports_unreadable st args q ce files fname f :
  dict_get q st = Some (QDir ce files) →
  dict_get fname files = Some f →
  filtered_out (head args) q = false →
  is_job fname = true →
  load_job f = None →
  In [text_cell q; text_cell (base_name fname); text_cell ""; text_cell "";
      text_cell "unreadable"]
     (listing_rows status_row st (head args))
  ∧ In [text_cell q; text_cell (base_name fname); text_cell ""]
       (listing_rows request_row st (head args))
  ∧ (∀ q' ce' files' fname' f',
       dict_get q' st = Some (QDir ce' files') →
       dict_get fname' files' = Some f' →
       filtered_out (head args) q' = false →
       is_job fname' = true →
       In (status_row q' fname' f') (listing_rows status_row st (head args))
       ∧ In (request_row q' fname' f')
            (listing_rows request_row st (head args)))
  ∧ h_display_batch_status cell_str st args
    = table cell_str ["Queue"; "Process"; "QueuePri"; "ProcPri"; "Status"]
        (listing_rows status_row st (head args))
  ∧ h_list_batch_requests cell_str st args
    = table cell_str ["Queue"; "Process"; "QueuePri"]
        (listing_rows request_row st (head args)).
Proof.
  intros Hq Hf Hfilter Hjob Hload.
  pose proof (listing_rows_complete status_row _ _ _ _ _ _ _
                Hq Hf Hfilter Hjob) as Hs.
  pose proof (listing_rows_complete request_row _ _ _ _ _ _ _
                Hq Hf Hfilter Hjob) as Hr.
  unfold status_row in Hs at 1. unfold request_row in Hr at 1.
  rewrite Hload in Hs, Hr.
  split; [done |]. split; [done |]. split.
  { intros q' ce' files' fname' f' Hq' Hf' Hfilter' Hjob'.
    split; by eapply listing_rows_complete. }
  unfold h_display_batch_status, h_list_batch_requests.
  split.
  - by destruct (listing_rows status_row st (head args)).
  - by destruct (listing_rows request_row st (head args)).
Qed.
End ListingFacts.

Lemma listing_reports_unreadable_witness :
  In [text_cell "nightly"; text_cell "Broken"; text_cell ""; text_cell "";
      text_cell "unreadable"]
     (listing_rows status_row sample_store None)
  ∧ h_display_batch_status scalar_str sample_store []
    = table scalar_str ["Queue"; "Process"; "QueuePri"; "ProcPri"; "Status"]
        (listing_rows status_row sample_store None).
Proof.
  destruct (listing_reports_unreadable scalar_str sample_store [] "nightly"
              None [("Broken.job", plain_file None)] "Broken.job"
              (plain_file None))
    as (Hrow & _ & _ & Htable & _); try reflexivity.
  split; [exact Hrow | exact Htable].
Defined.

(** [list_batch_requests] has no status column: the record of the queue
    [nightly] that does not parse is listed without the sentinel, so the
    claim of C8 fails for this listing. *)
Lemma list_requests_without_sentinel :
  load_job (plain_file None) = None
  ∧ listing_rows request_row sample_store (Some "nightly")
    = [[text_cell "nightly"; text_cell "Broken"; text_cell ""]]
  ∧ ¬ In (text_cell "unreadable")
         (concat (listing_rows request_row sample_store (Some "nightly")))
  ∧ h_list_batch_requests scalar_str sample_store ["nightly"]
    = "Queue    Process  QueuePri" +:+ nl
      +:+ "--------------------------" +:+ nl
      +:+ "nightly  Broken           ".
Proof.
  split; [reflexivity |]. split; [reflexivity |]. split; [|reflexivity].
  vm_compute. intros [H | [H | [H | []]]]; discriminate.
Qed.

(** ** Cancellation (C10) *)

Lemma err_not_ok a b : "[ERR] " +:+ a ≠ "[OK] " +:+ b.
Proof. intros H. discriminate H. Qed.

Lemma ok_inj a b : _ok a = _ok b → a = b.
Proof. unfold _ok. apply String.app_inj. Qed.

Lemma dict_get_in {V} k (v : V) d : dict_get k d = Some v → (k, v) ∈ d.
Proof.
  induction d as [|[k' v'] d IH]; simpl; [done |].
  destruct (String.eqb k' k) eqn:E.
  - apply string_eqb_eq in E as ->. intros [= ->]. apply list_elem_of_here.
  - intros H. apply list_elem_of_further. by apply IH.
Qed.

Lemma dict_get_not_in {V} k (d : dict V) : k ∉ dict_keys d → dict_get k d = None.
Proof.
  intros H. destruct (dict_get k d) eqn:E; [|done].
  by apply dict_get_Some_in in E.
Qed.

Section CancelFacts.
Variable fnmatch_fn : string → string → bool.

Local Abbreviation cancel_file' := (cancel_file fnmatch_fn).
Local Abbreviation cancel_files' := (cancel_files fnmatch_fn).
Local Abbreviation cancel_queues' := (cancel_queues fnmatch_fn).

(** Every removal is counted once, also when the loop is cut short. *)
Lemma cancel_files_count pats files c files' c' e :
  cancel_files' pats files c = (files', c', e) →
  c' + length files' = c + length files.
Proof.
  revert c files' c' e. induction files as [|[fname f] rest IH]; simpl.
  - intros c files' c' e [= <- <- <-]. done.
  - intros c files' c' e.
    destruct (cancel_file' pats fname f) as [[|]|err].
    + intros H. apply IH in H. lia.
    + destruct (cancel_files' pats rest c) as [[rest' c1] e1] eqn:E.
      intros [= <- <- <-]. apply IH in E. simpl. lia.
    + intros [= <- <- <-]. done.
Qed.

Lemma cancel_queues_count pats st c st' c' e :
  cancel_queues' pats st c = (st', c', e) →
  c' + file_count st' = c + file_count st.
Proof.
  revert c st' c' e. induction st as [|[q [x | ce files]] rest IH]; simpl.
  - intros c st' c' e [= <- <- <-]. done.
  - intros c st' c' e.
    destruct (cancel_queues' pats rest c) as [[rest' c1] e1] eqn:E.
    intros [= <- <- <-]. apply IH in E. simpl. done.
  - intros c st' c' e.
    destruct (cancel_files' pats files c) as [[files' c1] e1] eqn:Ef.
    apply cancel_files_count in Ef.
    destruct e1 as [err|].
    + intros [= <- <- <-]. simpl. lia.
    + destruct (cancel_queues' pats rest c1) as [[rest' c2] e2] eqn:E.
      intros [= <- <- <-]. apply IH in E. simpl. lia.
Qed.

Lemma cancel_files_mono pats files c files' c' e :
  cancel_files' pats files c = (files', c', e) → c ≤ c'.
Proof.
  revert c files' c' e. induction files as [|[fname f] rest IH]; simpl.
  - intros c files' c' e [= <- <- <-]. done.
  - intros c files' c' e.
    destruct (cancel_file' pats fname f) as [[|]|err].
    + intros H. apply IH in H. lia.
    + destruct (cancel_files' pats rest c) as [[rest' c1] e1] eqn:E.
      intros [= <- <- <-]. by apply IH in E.
    + intros [= <- <- <-]. done.
Qed.

Lemma cancel_queues_mono pats st c st' c' e :
  cancel_queues' pats st c = (st', c', e) → c ≤ c'.
Proof.
  revert c st' c' e. induction st as [|[q [x | ce files]] rest IH]; simpl.
  - intros c st' c' e [= <- <- <-]. done.
  - intros c st' c' e.
    destruct (cancel_queues' pats rest c) as [[rest' c1] e1] eqn:E.
    intros [= <- <- <-]. by apply IH in E.
  - intros c st' c' e.
    destruct (cancel_files' pats files c) as [[files' c1] e1] eqn:Ef.
    apply cancel_files_mono in Ef.
    destruct e1 as [err|].
    + intros [= <- <- <-]. done.
    + destruct (cancel_queues' pats rest c1) as [[rest' c2] e2] eqn:E.
      intros [= <- <- <-]. apply IH in E. lia.
Qed.

(** The loop only removes entries. *)
Lemma cancel_files_keys pats files c files' c' e k :
  cancel_files' pats files c = (files', c', e) →
  k ∈ dict_keys files' → k ∈ dict_keys files.
Proof.
  revert c files' c' e. induction files as [|[fname f] rest IH]; simpl.
  - intros c files' c' e [= <- <- <-]. done.
  - intros c files' c' e.
    destruct (cancel_file' pats fname f) as [[|]|err].
    + intros H Hk. apply list_elem_of_further. by eapply IH.
    + destruct (cancel_files' pats rest c) as [[rest' c1] e1] eqn:E.
      intros [= <- <- <-]. simpl. intros Hk.
      apply elem_of_cons in Hk as [-> | Hk].
      * apply list_elem_of_here.
      * apply list_elem_of_further. by eapply IH.
    + intros [= <- <- <-]. done.
Qed.

(** In a completed run a file that matches and can be removed is gone
    and counted. *)
Lemma cancel_files_removed pats files c files' c' fname f :
  cancel_files' pats files c = (files', c', None) →
  NoDup (dict_keys files) →
  dict_get fname files = Some f →
  cancel_file' pats fname f = Ok true →
  dict_get fname files' = None ∧ S c ≤ c'.
Proof.
  revert c files' c'. induction files as [|[fname0 f0] rest IH]; simpl; [done |].
  intros c files' c' Hloop Hnd Hget Hcancel.
  inversion Hnd as [|? ? Hfresh Hnd']; subst.
  destruct (String.eqb fname0 fname) eqn:E.
  - apply string_eqb_eq in E as ->. injection Hget as ->.
    rewrite Hcancel in Hloop. split.
    + apply dict_get_not_in. intros Hk. apply Hfresh.
      by eapply cancel_files_keys.
    + by apply cancel_files_mono in Hloop.
  - destruct (cancel_file' pats fname0 f0) as [[|]|err]; [| |done].
    + destruct (IH _ _ _ Hloop Hnd' Hget Hcancel) as [H1 H2].
      split; [done | lia].
    + destruct (cancel_files' pats rest c) as [[rest' c1] e1] eqn:Er.
      injection Hloop as <- <- ->. simpl. rewrite E. by eapply IH.
Qed.

(** A completed run went through the files of every queue directory. *)
Lemma cancel_queues_lookup pats st c st' c' q ce files :
  cancel_queues' pats st c = (st', c', None) →
  dict_get q st = Some (QDir ce files) →
  ∃ c0 files' c1,
    cancel_files' pats files c0 = (files', c1, None)
    ∧ dict_get q st' = Some (QDir ce files')
    ∧ c ≤ c0 ∧ c1 ≤ c'.
Proof.
  revert c st' c'. induction st as [|[q0 entry] rest IH]; simpl; [done |].
  intros c st' c' Hloop Hget.
  destruct entry as [x | ce0 files0].
  - destruct (cancel_queues' pats rest c) as [[rest' c1] e1] eqn:E.
    injection Hloop as <- <- ->. simpl.
    destruct (String.eqb q0 q); [done |]. by eapply IH.
  - destruct (cancel_files' pats files0 c) as [[files0' c1] e1] eqn:Ef.
    destruct e1 as [err|]; [done |].
    destruct (cancel_queues' pats rest c1) as [[rest' c2] e2] eqn:E.
    injection Hloop as <- <- ->. simpl.
    destruct (String.eqb q0 q).
    + injection Hget as <- <-. exists c, files0', c1.
      apply cancel_queues_mono in E. done.
    + destruct (IH _ _ _ E Hget) as (c0 & files' & c3 & H1 & H2 & H3 & H4).
      exists c0, files', c3. apply cancel_files_mono in Ef.
      repeat split; [done | done | lia | done].
Qed.

End CancelFacts.

Lemma sample_store_wf : store_wf sample_store.
Proof.
  split.
  - apply (bool_decide_unpack _). by vm_compute.
  - intros q ce files Hin. unfold sample_store in Hin.
    repeat (apply elem_of_cons in Hin as [[= -> -> ->] | Hin];
            [apply (bool_decide_unpack _); by vm_compute |]).
    by apply elem_of_nil in Hin.
Qed.

(** ** Priority updates (C7) *)

Lemma py_ne_int_same v : py_ne_int (Some (JInt v)) v = false.
Proof. simpl. by rewrite Z.eqb_refl. Qed.

Lemma set_priority_get key new job changed job' changed' key' :
  set_priority key new job changed = (job', changed') →
  dict_get key' job'
  = if String.eqb key key' then
      match new with
      | Some v =>
          if py_ne_int (dict_get key job) v then Some (JInt v)
          else dict_get key job
      | None => dict_get key job
      end
    else dict_get key' job.
Proof.
  unfold set_priority. destruct new as [v|].
  - destruct (py_ne_int (dict_get key job) v) eqn:E; intros [= <- <-].
    + by rewrite dict_get_set.
    + destruct (String.eqb key key') eqn:Ek; [|done].
      by apply string_eqb_eq in Ek as ->.
  - intros [= <- <-]. destruct (String.eqb key key') eqn:Ek; [|done].
    by apply string_eqb_eq in Ek as ->.
Qed.

Lemma set_priority_changed key new job changed job' changed' :
  set_priority key new job changed = (job', changed') →
  changed' = changed
             || match new with
                | Some v => py_ne_int (dict_get key job) v
                | None => false
                end
  ∧ (changed' = changed → changed = false → job' = job).
Proof.
  unfold set_priority. destruct new as [v|].
  - destruct (py_ne_int (dict_get key job) v) eqn:E; intros [= <- <-].
    + rewrite orb_true_r. split; [done |]. by intros <-.
    + by rewrite orb_false_r.
  - intros [= <- <-]. by rewrite orb_false_r.
Qed.

(** The record after [apply_updates], field by field, and what the flag
    says. *)
Lemma apply_updates_fields new_qpri new_ppri job job' changed :
  apply_updates new_qpri new_ppri job = (job', changed) →
  (∀ key, dict_get key job' = field_after new_qpri new_ppri job key)
  ∧ (changed = true →
     ∃ key v, requested new_qpri new_ppri key = Some v
              ∧ py_ne_int (dict_get key job) v = true)
  ∧ (changed = false → job' = job).
Proof.
  unfold apply_updates.
  destruct (set_priority "queue_priority" new_qpri job false)
    as [job1 ch1] eqn:E1.
  intros E2.
  pose proof (set_priority_get _ _ _ _ _ _ "process_priority" E1) as Hpp.
  change (String.eqb "queue_priority" "process_priority") with false in Hpp.
  cbv iota in Hpp.
  split; [|split].
  - intros key. rewrite (set_priority_get _ _ _ _ _ _ key E2), Hpp.
    rewrite (set_priority_get _ _ _ _ _ _ key E1).
    unfold field_after, requested. rewrite !(String.eqb_sym key).
    destruct (String.eqb "process_priority" key) eqn:Ep.
    + apply string_eqb_eq in Ep as <-.
      change (String.eqb "queue_priority" "process_priority") with false.
      done.
    + destruct (String.eqb "queue_priority" key) eqn:Eq; [|done].
      by apply string_eqb_eq in Eq as <-.
  - intros ->.
    apply set_priority_changed in E1 as [Hc1 _], E2 as [Hc2 _].
    rewrite Hpp in Hc2. simpl in Hc1. subst ch1.
    symmetry in Hc2. apply orb_true_iff in Hc2 as [Hq | Hp].
    + destruct new_qpri as [v|]; [|done].
      exists "queue_priority", v. done.
    + destruct new_ppri as [v|]; [|done].
      exists "process_priority", v. done.
  - intros ->.
    apply set_priority_changed in E1 as [Hc1 Hj1], E2 as [Hc2 Hj2].
    symmetry in Hc2. apply orb_false_iff in Hc2 as [-> Hp].
    rewrite Hj2 by done. by apply Hj1.
Qed.

Lemma apply_updates_changed new_qpri new_ppri job job' :
  apply_updates new_qpri new_ppri job = (job', true) → job' ≠ job.
Proof.
  intros H. apply apply_updates_fields in H as (Hfields & Hch & _).
  destruct (Hch eq_refl) as (key & v & Hreq & Hne).
  intros ->. specialize (Hfields key).
  unfold field_after in Hfields. rewrite Hreq, Hne in Hfields.
  rewrite Hfields, py_ne_int_same in Hne. done.
Qed.

Section UpdateFacts.
Variable fnmatch_fn : string → string → bool.

(** One file of the update loop: it is counted exactly when its record
    is rewritten. *)
Lemma update_file_spec pats new_qpri new_ppri fname f f' counted :
  update_file fnmatch_fn pats new_qpri new_ppri fname f = Ok (f', counted) →
  file_updated fnmatch_fn pats new_qpri new_ppri fname f f'
  ∧ (if counted then f' ≠ f else f' = f).
Proof.
  unfold update_file.
  destruct (is_job fname) eqn:Hjob; [|by intros [= <- <-]; split; [left|]].
  destruct (load_job f) as [job|] eqn:Hload;
    [|by intros [= <- <-]; split; [left|]].
  destruct (match_patterns _ _ _) as [[|]|err] eqn:Hm;
    [|by intros [= <- <-]; split; [left|] | done].
  destruct (apply_updates new_qpri new_ppri job) as [job' changed] eqn:Hup.
  destruct changed; simpl; [|by intros [= <- <-]; split; [left|]].
  destruct (f_locked f) eqn:Hlock; simpl;
    [by intros [= <- <-]; split; [left|] |].
  intros [= <- <-]. split.
  - right. split; [done |]. split; [done |]. split; [done |].
    exists job, job'. split; [done |]. split; [done |]. split; [done |].
    by apply apply_updates_fields in Hup as (Hfields & _).
  - apply apply_updates_changed in Hup.
    unfold load_job in Hload. intros Heq. rewrite <- Heq in Hload.
    simpl in Hload. congruence.
Qed.

Local Abbreviation store_updated' := (store_updated fnmatch_fn).

Lemma modified_count_cons a b l l' :
  modified_count (a :: l) (b :: l')
  = (if bool_decide (snd a ≠ snd b) then 1 else 0) + modified_count l l'.
Proof.
  unfold modified_count. simpl.
  by destruct (bool_decide (snd a ≠ snd b)).
Qed.

Lemma modified_count_app l1 l1' l2 l2' :
  length l1 = length l1' →
  modified_count (l1 ++ l2) (l1' ++ l2')
  = modified_count l1 l1' + modified_count l2 l2'.
Proof.
  revert l1'. induction l1 as [|a l1 IH]; intros [|b l1'] Hlen;
    simpl in Hlen; try done.
  simpl. rewrite !modified_count_cons, IH by lia. lia.
Qed.

Lemma update_files_rel pats new_qpri new_ppri q files c files' c' :
  update_files fnmatch_fn pats new_qpri new_ppri files c = (files', c', None) →
  store_updated' pats new_qpri new_ppri (lift_files q files) (lift_files q files')
  ∧ c' = c + modified_count (lift_files q files) (lift_files q files').
Proof.
  revert c files' c'. induction files as [|[fname f] rest IH]; simpl.
  - intros c files' c' [= <- <-]. split; [constructor | done].
  - intros c files' c'.
    destruct (update_file fnmatch_fn pats new_qpri new_ppri fname f)
      as [[f1 counted]|err] eqn:Hfile; [|done].
    destruct (update_files fnmatch_fn pats new_qpri new_ppri rest _)
      as [[rest' c1] e1] eqn:Hrest.
    intros [= <- <- ->].
    apply IH in Hrest as [Hrel Hcount].
    apply update_file_spec in Hfile as [Hfile Hcounted].
    split.
    + constructor; [|done]. done.
    + simpl. rewrite modified_count_cons. simpl.
      destruct counted.
      * rewrite bool_decide_eq_true_2 by (by intros ->). lia.
      * rewrite bool_decide_eq_false_2 by (by intros H; apply H). lia.
Qed.

Lemma update_queues_rel pats new_qpri new_ppri st c st' c' :
  update_queues fnmatch_fn pats new_qpri new_ppri st c = (st', c', None) →
  store_updated' pats new_qpri new_ppri (all_files st) (all_files st')
  ∧ c' = c + modified_count (all_files st) (all_files st').
Proof.
  revert c st' c'. induction st as [|[q [x | ce files]] rest IH]; simpl.
  - intros c st' c' [= <- <-]. split; [constructor | done].
  - intros c st' c'.
    destruct (update_queues fnmatch_fn pats new_qpri new_ppri rest c)
      as [[rest' c1] e1] eqn:Hrest.
    intros [= <- <- ->]. simpl. by apply IH.
  - intros c st' c'.
    destruct (update_files fnmatch_fn pats new_qpri new_ppri files c)
      as [[files' c1] e1] eqn:Hfiles.
    destruct e1 as [err|]; [done |].
    destruct (update_queues fnmatch_fn pats new_qpri new_ppri rest c1)
      as [[rest' c2] e2] eqn:Hrest.
    intros [= <- <- ->]. simpl.
    apply (update_files_rel _ _ _ q) in Hfiles as [Hrel1 Hc1].
    apply IH in Hrest as [Hrel2 Hc2].
    fold (lift_files q files) (lift_files q files').
    split.
    + by apply Forall2_app.
    + rewrite modified_count_app by (by eapply Forall2_length). lia.
Qed.

(** Without a priority option the option loop fails or leaves both
    priorities as they were. *)
Lemma parse_update_no_priority args pats qp pp :
  ¬ In "-queue_priority" args →
  ¬ In "-process_priority" args →
  (∃ msg, parse_update_loop args pats qp pp = inr msg)
  ∨ (∃ pats', parse_update_loop args pats qp pp = inl (pats', qp, pp)).
Proof.
  revert pats. induction args as [|a rest IH]; intros pats Hq Hp;
    cbn [parse_update_loop].
  - right. by exists pats.
  - apply not_in_cons in Hq as [Hqa Hq], Hp as [Hpa Hp].
    destruct (startswith a "-").
    + destruct (String.eqb a "-queue_priority") eqn:Eq.
      { by apply string_eqb_eq in Eq. }
      destruct (String.eqb a "-process_priority") eqn:Ep.
      { by apply string_eqb_eq in Ep. }
      left. by eexists.
    + by apply IH.
Qed.

End UpdateFacts.


(** Both records of the queue [normal] match [RE*], one is rewritten: the
    other stores the requested priority as [7.0] and is left alone. *)
Example update_counts_modified_only :
  h_update_batch_requests fnmatch.fnmatch sample_globals sample_store
    ["RE*"; "-queue_priority"; "7"]
  = ("[OK] updated 1 batch request(s)", sample_globals,
     [ ("normal",
        QDir None
          [ ("report.job", plain_file (Some (job_record "report" (JInt 7))));
            ("rebuild.job",
             plain_file (Some (job_record "rebuild" (JFloat (FFinite 7 0)))));
            ("notes.txt", plain_file None) ]);
       ("nightly", QDir None [ ("Broken.job", plain_file None) ]) ]).
Proof. reflexivity. Qed.

(** ** Handlers called without arguments (C9) *)

(** C9 fails on the code: [h_show_commands_status] reads the command list
    before its [try] block, so with a [vos_commands.txt] that exists and
    cannot be opened or decoded the call with an empty argument list
    raises instead of returning a string. *)
Theorem show_commands_status_raises render_report g e :
  h_show_commands_status render_report g (TxtUnreadable e) [] = Raise e.
Proof. reflexivity. Qed.

(** The other handlers embedded here answer an empty argument list with
    a string. *)
Lemma handlers_answer_empty_args cwd isdir now fnmatch_fn cell_str
    render_report g st lines :
  h_display_current_dir g []
    = ("Current directory: " +:+ vos_format (CURRENT_DIR g), g)
  ∧ h_change_current_dir cwd isdir g []
    = _err "usage: change_current_dir <path>" g
  ∧ h_batch now g st [] = Ok (_err "batch: missing command line" g, st)
  ∧ h_cancel_batch_requests fnmatch_fn g st []
    = (_err "usage: cancel_batch_requests <process_name(s)>" g, st)
  ∧ h_update_batch_requests fnmatch_fn g st []
    = (_err "usage: update_batch_requests <process_name(s)> [options]" g, st)
  ∧ (∃ s, h_display_batch_status cell_str st [] = s)
  ∧ (∃ s, h_list_batch_requests cell_str st [] = s)
  ∧ (∃ s, h_show_commands_status render_report g TxtMissing [] = Ok (s, g))
  ∧ (∃ s, h_show_commands_status render_report g (TxtLines lines) []
          = Ok (s, g)).
Proof. repeat split; by eexists. Qed.

Lemma register_bulk_cons d n names :
  register_bulk d (n :: names)
  = register_bulk
      (if nonempty (strip n) && negb (dict_has (strip n) d)
       then dict_set (strip n) (VHandler (Fn._stub (strip n))) d else d)
      names.
Proof. reflexivity. Qed.

Lemma register_bulk_get d names k :
  dict_get k (register_bulk d names)
  = match dict_get k d with
    | Some v => Some v
    | None => if listed k names then Some (VHandler (Fn._stub k)) else None
    end.
Proof.
  revert d. induction names as [|n names IH]; intros d.
  - unfold listed. simpl. rewrite andb_false_r. by destruct (dict_get k d).
  - rewrite register_bulk_cons, IH. unfold listed. cbn [existsb].
    destruct (nonempty (strip n) && negb (dict_has (strip n) d)) eqn:Hc.
    + apply andb_true_iff in Hc as [Hne Hhas].
      apply negb_true_iff in Hhas. unfold dict_has in Hhas.
      rewrite dict_get_set.
      destruct (String.eqb (strip n) k) eqn:E.
      * apply string_eqb_eq in E as <-.
        destruct (dict_get (strip n) d); [done |]. by rewrite Hne.
      * done.
    + destruct (dict_get k d) eqn:Hk; [done |].
      destruct (String.eqb (strip n) k) eqn:E; [|done].
      apply string_eqb_eq in E as <-.
      unfold dict_has in Hc. rewrite Hk in Hc. simpl in Hc.
      rewrite andb_true_r in Hc. by rewrite Hc.
Qed.

(** X1: [register_bulk] never replaces an entry: a key that [d] binds keeps
    its value; a key that [d] does not bind gets the stub handler of that
    key exactly when it is the stripped, non-empty form of a listed name,
    and stays unbound otherwise. *)
Theorem register_bulk_lookup d names k :
  dict_get k (register_bulk d names)
  = match dict_get k d with
    | Some v => Some v
    | None => if listed k names then Some (VHandler (Fn._stub k)) else None
    end.
Proof. apply register_bulk_get. Qed.

Lemma register_bulk_noop d names :
  Forall (λ n, nonempty (strip n) = true → dict_has (strip n) d = true) names →
  register_bulk d names = d.
Proof.
  induction 1 as [|n names Hn _ IH]; [done |].
  rewrite register_bulk_cons.
  destruct (nonempty (strip n)) eqn:Hne; simpl; [|done].
  by rewrite (Hn eq_refl).
Qed.

(** X2: registering the same names a second time leaves the registry as the
    first registration made it. *)
Theorem register_bulk_idempotent d names :
  register_bulk (register_bulk d names) names = register_bulk d names.
Proof.
  apply register_bulk_noop, Forall_forall. intros n Hin Hne.
  unfold dict_has. rewrite register_bulk_get.
  destruct (dict_get (strip n) d); [done |].
  assert (listed (strip n) names = true) as ->; [|done].
  unfold listed. rewrite Hne. simpl.
  apply existsb_exists. exists n. split.
  - by apply list_elem_of_In.
  - apply String.eqb_refl.
Qed.

Lemma dict_get_app {V} k (a b : dict V) :
  dict_get k (a ++ b)
  = match dict_get k a with Some v => Some v | None => dict_get k b end.
Proof.
  induction a as [|[k' v'] a IH]; simpl; [done |].
  by destruct (String.eqb k' k).
Qed.

Lemma dict_get_del {V} k k' (d : dict V) :
  dict_get k (dict_del k' d) = if String.eqb k' k then None else dict_get k d.
Proof.
  unfold dict_del. induction d as [|[k0 v0] d IH]; simpl.
  - by destruct (String.eqb k' k).
  - destruct (String.eqb k0 k') eqn:E0; simpl.
    + apply string_eqb_eq in E0 as ->. rewrite IH.
      by destruct (String.eqb k' k).
    + rewrite IH. destruct (String.eqb k0 k) eqn:E1; [|done].
      apply string_eqb_eq in E1 as ->.
      rewrite String.eqb_sym in E0. by rewrite E0.
Qed.

Lemma str_in_keys_get {V} k (d : dict V) :
  str_in k (dict_keys d) = false → dict_get k d = None.
Proof.
  unfold str_in. induction d as [|[k' v'] d IH]; simpl; [done |].
  rewrite String.eqb_sym. by destruct (String.eqb k' k).
Qed.

(** The command pack: the last entry of a name replaces the registry
    entry. *)
Lemma pack_get (y : dict string) (d : dict value) k :
  dict_get k (fold_left (λ d kv, dict_set (fst kv) (VStr (snd kv)) d) y d)
  = match dict_get k (rev y) with
    | Some s => Some (VStr s)
    | None => dict_get k d
    end.
Proof.
  revert d. induction y as [|[k0 s0] y IH]; intros d; simpl; [done |].
  rewrite IH, dict_get_app, dict_get_set. simpl.
  by destruct (dict_get k (rev y)), (String.eqb k0 k).
Qed.

Lemma allowed_get allowed ks (d : dict value) k :
  dict_get k (fold_left (λ d k', if str_in k' allowed then d else dict_del k' d)
                        ks d)
  = if negb (str_in k allowed) && str_in k ks then None else dict_get k d.
Proof.
  revert d. induction ks as [|k' ks IH]; intros d; simpl.
  - by rewrite andb_false_r.
  - rewrite IH.
    destruct (str_in k allowed) eqn:Ha; simpl.
    + destruct (str_in k' allowed) eqn:Ha'; [done |].
      rewrite dict_get_del.
      destruct (String.eqb k' k) eqn:E; [|done].
      apply string_eqb_eq in E as ->. congruence.
    + destruct (str_in k ks); simpl.
      * by rewrite orb_true_r.
      * rewrite orb_false_r. destruct (String.eqb k k') eqn:E.
        -- apply string_eqb_eq in E as <-. rewrite Ha, dict_get_del.
           by rewrite String.eqb_refl.
        -- destruct (str_in k' allowed); [done |]. rewrite dict_get_del.
           rewrite String.eqb_sym in E. by rewrite E.
Qed.

Lemma alias_keys_get keys (d : dict value) k :
  dict_get k (fold_left (λ d a, if dict_has a d then dict_del a d else d) keys d)
  = if str_in k keys then None else dict_get k d.
Proof.
  revert d. induction keys as [|a keys IH]; intros d; simpl; [done |].
  rewrite IH. fold (str_in k keys).
  destruct (str_in k keys); [by rewrite orb_true_r |]. rewrite orb_false_r.
  unfold dict_has. destruct (dict_get a d) eqn:Ha.
  - rewrite dict_get_del, String.eqb_sym. done.
  - destruct (String.eqb k a) eqn:E; [|done].
    by apply string_eqb_eq in E as ->.
Qed.

(** What the registry holds for a name once [__init__] has run. *)
Lemma init_get yaml_pack _txt k :
  dict_get k (commands (VOShell_init yaml_pack _txt))
  = if str_in k (dict_keys ALIASES)
       || negb (str_in k (_txt ++ emulator_commands))
    then None
    else match dict_get k (rev yaml_pack) with
         | Some s => Some (VStr s)
         | None =>
             match dict_get k BUILTINS with
             | Some v => Some v
             | None =>
                 if listed k _txt then Some (VHandler (Fn._stub k)) else None
             end
         end.
Proof.
  unfold VOShell_init. cbn [commands].
  rewrite alias_keys_get. destruct (str_in k (dict_keys ALIASES)); [done |].
  rewrite allowed_get. simpl orb.
  destruct (str_in k (_txt ++ emulator_commands)) eqn:Ha; simpl.
  - rewrite register_bulk_get, pack_get.
    by destruct (dict_get k (rev yaml_pack)).
  - destruct (str_in k (dict_keys _)) eqn:Hk; [done |].
    by apply str_in_keys_get.
Qed.

(** X3: the registry that [__init__] builds, by lookup.  A name is bound only
    if it is no alias pattern and is in the command list or among the
    emulator's own commands; it is then bound to the text the pack gives
    it (the last entry for the name), else to its built-in value, else to
    the stub handler when the command list names it. *)
Theorem init_registry_lookup yaml_pack _txt k :
  dict_get k (commands (VOShell_init yaml_pack _txt))
  = if str_in k (dict_keys ALIASES)
       || negb (str_in k (_txt ++ emulator_commands))
    then None
    else match dict_get k (rev yaml_pack) with
         | Some s => Some (VStr s)
         | None =>
             match dict_get k BUILTINS with
             | Some v => Some v
             | None =>
                 if listed k _txt then Some (VHandler (Fn._stub k)) else None
             end
         end.
Proof. apply init_get. Qed.

Lemma str_in_app x a b : str_in x (a ++ b) = str_in x a || str_in x b.
Proof. unfold str_in. apply existsb_app. Qed.

Lemma builtins_allowed k v :
  dict_get k BUILTINS = Some v → str_in k emulator_commands = true.
Proof.
  intros H. apply dict_get_Some_in, list_elem_of_In in H.
  assert (forallb (λ k, str_in k emulator_commands) (dict_keys BUILTINS) = true)
    as Hall by (by vm_compute).
  rewrite forallb_forall in Hall. by apply Hall.
Qed.

(** X4: a built-in command that is no alias pattern and that the pack does
    not redefine is registered with its built-in value, whatever the
    command list holds. *)
Theorem init_keeps_builtins yaml_pack _txt k v :
  dict_get k BUILTINS = Some v →
  str_in k (dict_keys ALIASES) = false →
  dict_get k (rev yaml_pack) = None →
  dict_get k (commands (VOShell_init yaml_pack _txt)) = Some v.
Proof.
  intros Hb Ha Hy. rewrite init_get, Ha, Hy, Hb, str_in_app.
  by rewrite (builtins_allowed k v Hb), orb_true_r.
Qed.

Lemma init_keeps_builtins_witness :
  dict_get "batch"
    (commands (VOShell_init [("list", "listing")] ["batch"; "BATCH"; "list"]))
  = Some (VHandler Fn.h_batch).
Proof. apply init_keeps_builtins; reflexivity. Defined.

(** Entries of the case-insensitive table come from the registry. *)
Lemma build_ci_sound (d : dict value) (m : gmap string (string * value))
    key orig v :
  NoDup (dict_keys d) →
  fold_left (λ m kv, <[lower (fst kv) := kv]> m) d m !! key = Some (orig, v) →
  m !! key = Some (orig, v)
  ∨ (dict_get orig d = Some v ∧ lower orig = key).
Proof.
  revert m. induction d as [|[k0 v0] d IH]; simpl; intros m Hnd H; [by left |].
  inversion Hnd as [|? ? Hk Hnd']; subst.
  destruct (IH _ Hnd' H) as [Hm | [Hget Hlow]].
  - destruct (decide (lower k0 = key)) as [<-|Hne].
    + rewrite lookup_insert_eq in Hm. injection Hm as -> ->.
      right. by rewrite String.eqb_refl.
    + rewrite lookup_insert_ne in Hm by done. by left.
  - right. split; [|done].
    destruct (String.eqb k0 orig) eqn:E; [|done].
    apply string_eqb_eq in E as ->.
    by apply dict_get_Some_in in Hget.
Qed.

Lemma ci_sound sh key orig v :
  shell_wf sh →
  commands_ci sh !! key = Some (orig, v) →
  dict_get orig (commands sh) = Some v.
Proof.
  intros [Hci Hnd] H. rewrite Hci in H.
  destruct (build_ci_sound _ _ _ _ _ Hnd H) as [Hm | [Hget _]]; [|done].
  by rewrite lookup_empty in Hm.
Qed.

Lemma dict_get_of_key {V} k (d : dict V) :
  k ∈ dict_keys d → ∃ v, dict_get k d = Some v.
Proof.
  intros H. destruct (dict_get k d) eqn:E; [by eexists |].
  by apply dict_get_None_not_in in E.
Qed.

Section ResolveSound.
Variable fnmatch_fn : string → string → bool.
Variable get_close_matches : string → list string → list string.

(** X5: on a shell as [__init__] leaves it, [_resolve] returns either a key
    with the value the registry binds to that key, or no key, no
    arguments and a value that is not a handler. *)
Theorem resolve_sound sh line :
  shell_wf sh →
  match _resolve fnmatch_fn get_close_matches sh line with
  | (Some key, val, _) => dict_get key (commands sh) = Some val
  | (None, val, args) => args = [] ∧ ∀ h, val ≠ VHandler h
  end.
Proof.
  intros Hwf. unfold _resolve.
  destruct (is_empty (strip line)); [done |].
  destruct (commands_ci sh !! lower (alias_expanded sh (strip line)))
    as [[orig v]|] eqn:Hfull.
  { by apply ci_sound in Hfull. }
  destruct (_split_cmd_args _ _) as [head args].
  destruct (is_empty head); [done |].
  destruct (commands_ci sh !! lower head) as [[orig v]|] eqn:Hhead.
  { by apply ci_sound in Hhead. }
  destruct (candidates fnmatch_fn sh (lower head)) as [|key [|k2 rest]] eqn:Hc.
  - by destruct (get_close_matches head (index sh)).
  - assert (key ∈ dict_keys (commands sh)) as Hin.
    { apply list_elem_of_In.
      assert (In key (candidates fnmatch_fn sh (lower head))) as Hk
        by (rewrite Hc; by left).
      unfold candidates in Hk. by apply filter_In in Hk as [Hk _]. }
    destruct (dict_get_of_key _ _ Hin) as [v ->]. done.
  - done.
Qed.
End ResolveSound.

Lemma resolve_sound_witness :
  match _resolve fnmatch.fnmatch no_close_matches builtin_shell
          "display_current_m now" with
  | (Some key, val, _) => dict_get key (commands builtin_shell) = Some val
  | (None, val, args) => args = [] ∧ ∀ h, val ≠ VHandler h
  end.
Proof. apply resolve_sound, VOShell_init_wf. Defined.

Lemma split_ws_lstrip s : split_ws (lstrip_by isspace s) = split_ws s.
Proof.
  induction s as [|c s IH]; [done |]. cbn [lstrip_by].
  destruct (isspace c) eqn:E; [|done].
  rewrite IH. cbn [split_ws]. by rewrite E.
Qed.

Lemma split_ws_cons c s :
  split_ws (String c s)
  = if isspace c then split_ws s
    else match s with
         | EmptyString => [String c EmptyString]
         | String c' _ =>
             if isspace c' then String c EmptyString :: split_ws s
             else match split_ws s with
                  | w :: ws => String c w :: ws
                  | [] => [String c EmptyString]
                  end
         end.
Proof. reflexivity. Qed.

Lemma rstrip_by_cons p c s :
  rstrip_by p (String c s)
  = if is_empty (rstrip_by p s) && p c then EmptyString
    else String c (rstrip_by p s).
Proof. reflexivity. Qed.

Lemma rstrip_empty_head p c s :
  rstrip_by p (String c s) = "" → p c = true.
Proof.
  rewrite rstrip_by_cons. destruct (is_empty _ && p c) eqn:E; [|done].
  intros _. by apply andb_true_iff in E as [_ ?].
Qed.

Lemma rstrip_head p c s c' r :
  rstrip_by p (String c s) = String c' r → c' = c.
Proof.
  rewrite rstrip_by_cons. destruct (is_empty _ && p c); [done |].
  by intros [= -> _].
Qed.

Lemma split_ws_rstrip s : split_ws (rstrip_by isspace s) = split_ws s.
Proof.
  induction s as [|c s IH]; [done |].
  rewrite rstrip_by_cons.
  destruct (is_empty (rstrip_by isspace s) && isspace c) eqn:E.
  - apply andb_true_iff in E as [Hr Hc].
    rewrite split_ws_cons, Hc, <- IH.
    by destruct (rstrip_by isspace s).
  - rewrite !split_ws_cons.
    destruct (isspace c) eqn:Hc; [done |].
    destruct s as [|c' s'].
    + done.
    + destruct (rstrip_by isspace (String c' s')) as [|c'' r] eqn:Hr.
      * apply rstrip_empty_head in Hr as Hsp. rewrite Hsp.
        rewrite <- IH. done.
      * apply rstrip_head in Hr as Heq. subst c''.
        rewrite <- IH. done.
Qed.

Lemma split_ws_strip s : split_ws (strip s) = split_ws s.
Proof.
  unfold strip, strip_by. by rewrite split_ws_rstrip, split_ws_lstrip.
Qed.

Lemma split_ws_word w : is_word w = true → split_ws w = [w].
Proof.
  unfold is_word. induction w as [|c w IH]; [done |].
  cbn [nonempty is_empty negb andb str_all]. intros H.
  apply andb_true_iff in H as [Hc Hw]. apply negb_true_iff in Hc.
  rewrite split_ws_cons, Hc.
  destruct w as [|c' w']; [done |].
  cbn [str_all] in Hw. apply andb_true_iff in Hw as [Hc' Hw'].
  apply negb_true_iff in Hc' as Hsp. rewrite Hsp.
  rewrite IH; [done |]. cbn [nonempty is_empty negb andb str_all].
  by rewrite Hc', Hw'.
Qed.

Lemma split_ws_words s : Forall (λ w, is_word w = true) (split_ws s).
Proof.
  induction s as [|c s IH]; [constructor |].
  rewrite split_ws_cons. destruct (isspace c) eqn:Hc; [done |].
  assert (is_word (String c EmptyString) = true) as H1.
  { unfold is_word. simpl. by rewrite Hc. }
  destruct s as [|c' s']; [by constructor |].
  destruct (isspace c'); [by constructor |].
  destruct (split_ws (String c' s')) as [|w ws]; [by constructor |].
  inversion IH as [|? ? Hw Hws]; subst. constructor; [|done].
  unfold is_word in *. cbn [nonempty is_empty negb andb str_all].
  rewrite Hc. simpl. by apply andb_true_iff in Hw as [_ ?].
Qed.

Lemma split_ws_pair a b :
  is_word a = true → is_word b = true →
  split_ws (a +:+ " " +:+ b) = [a; b].
Proof.
  intros Ha Hb. induction a as [|c a IH]; [done |].
  unfold is_word in Ha. cbn [nonempty is_empty negb andb str_all] in Ha.
  apply andb_true_iff in Ha as [Hc Ha]. apply negb_true_iff in Hc.
  rewrite append_cons, split_ws_cons, Hc.
  destruct a as [|c' a'].
  - rewrite append_nil_l. change (" " +:+ b) with (String " " b).
    change (isspace " ") with true. cbv iota.
    rewrite split_ws_cons. change (isspace " ") with true. cbv iota.
    by rewrite (split_ws_word b Hb).
  - rewrite append_cons.
    cbn [str_all] in Ha. apply andb_true_iff in Ha as [Hc' Ha'].
    apply negb_true_iff in Hc' as Hsp. rewrite Hsp.
    rewrite <- append_cons, IH; [done |].
    unfold is_word. cbn [nonempty is_empty negb andb str_all].
    by rewrite Hc', Ha'.
Qed.

(** X6: [_split_cmd_args] keeps the words of the line: the words of the head
    followed by the arguments are the words of the line, for every
    table of commands. *)
Theorem split_cmd_args_tokens line ci :
  split_ws (fst (_split_cmd_args line ci)) ++ snd (_split_cmd_args line ci)
  = split_ws line.
Proof.
  unfold _split_cmd_args. rewrite split_ws_strip.
  pose proof (split_ws_words line) as Hw.
  destruct (split_ws line) as [|p0 [|p1 rest]]; [done | |].
  - inversion Hw; subst. simpl. by rewrite split_ws_word.
  - inversion Hw as [|? ? H0 Hw']; subst.
    inversion Hw' as [|? ? H1 _]; subst.
    destruct (bool_decide _); simpl.
    + by rewrite split_ws_pair.
    + by rewrite split_ws_word.
Qed.

Lemma lower_app a b : lower (a +:+ b) = lower a +:+ lower b.
Proof. induction a as [|c a IH]; [done |]. rewrite !append_cons. simpl. rewrite append_cons. by rewrite IH. Qed.

Lemma lower_length s : String.length (lower s) = String.length s.
Proof. induction s as [|c s IH]; simpl; [done | by rewrite IH]. Qed.

Lemma str_drop_app w t : str_drop (String.length w) (w +:+ t) = t.
Proof. induction w as [|c w IH]; [by destruct t |]. by rewrite append_cons. Qed.

Lemma isspace_lower c : isspace c = true → lower_char c = c.
Proof.
  destruct c as [[] [] [] [] [] [] [] []]; vm_compute; congruence.
Qed.

Lemma lower_char_space c : isspace (lower_char c) = false → isspace c = false.
Proof.
  intros H. destruct (isspace c) eqn:E; [|done].
  by rewrite (isspace_lower c E), E in H.
Qed.

Lemma rstrip_by_app_last p w s c :
  last_char w = Some c → p c = false →
  rstrip_by p (w +:+ s) = w +:+ rstrip_by p s.
Proof.
  revert c. induction w as [|a w IH]; intros c; [done |].
  rewrite !append_cons, rstrip_by_cons. cbn [last_char].
  destruct (last_char w) as [x|] eqn:Hl.
  - intros [= ->] Hp. rewrite (IH c eq_refl Hp).
    destruct w as [|b w']; [done |]. by rewrite append_cons.
  - apply last_char_None in Hl as ->. intros [= ->] Hp.
    rewrite !append_nil_l, Hp, andb_false_r. done.
Qed.

Lemma rstrip_by_idem p s : rstrip_by p (rstrip_by p s) = rstrip_by p s.
Proof.
  induction s as [|c s IH]; [done |].
  rewrite rstrip_by_cons.
  destruct (is_empty (rstrip_by p s) && p c) eqn:E; [done |].
  rewrite rstrip_by_cons, IH, E. done.
Qed.


Lemma last_char_lower s : last_char (lower s) = lower_char <$> last_char s.
Proof.
  induction s as [|c s IH]; [done |]. simpl. rewrite IH.
  by destruct (last_char s).
Qed.

Lemma lstrip_by_word p c s : p c = false → lstrip_by p (String c s) = String c s.
Proof. intros H. simpl. by rewrite H. Qed.

(** A line that starts and ends with a character that is not whitespace
    once lower-cased is trimmed on the right of what follows it only. *)
Lemma strip_word_app w rest x a' y :
  lower w = String x a' → isspace x = false →
  last_char (lower w) = Some y → isspace y = false →
  strip (w +:+ rest) = w +:+ rstrip_by isspace rest.
Proof.
  intros Hlow Hx Hlast Hy.
  destruct w as [|c w']; [done |]. simpl in Hlow. injection Hlow as Hc _.
  unfold strip, strip_by. rewrite append_cons, lstrip_by_word.
  2:{ apply lower_char_space. by rewrite Hc. }
  rewrite <- append_cons.
  rewrite last_char_lower in Hlast.
  destruct (last_char (String c w')) as [z|] eqn:Hz; [|done].
  injection Hlast as Hlast.
  apply (rstrip_by_app_last _ _ _ z); [done |].
  apply lower_char_space. by rewrite Hlast.
Qed.

Lemma alias_order_eq :
  longest_first (dict_keys (build_aliases ALIASES)) = alias_order.
Proof. reflexivity. Qed.

Lemma alias_table_expand a target line lx :
  (a, target) ∈ ALIASES →
  lx = "" ∨ (∃ lx', lx = String " " lx') →
  expand_alias (build_aliases ALIASES) alias_order line (a +:+ lx)
  = strip (target +:+ str_drop (String.length a) line)
  ∧ expand_alias (build_aliases ALIASES) alias_order line (target +:+ lx)
    = line
  ∧ lower target = target
  ∧ (∃ x a' y, a = String x a' ∧ isspace x = false
               ∧ last_char a = Some y ∧ isspace y = false)
  ∧ (∃ x a' y, target = String x a' ∧ isspace x = false
               ∧ last_char target = Some y ∧ isspace y = false).
Proof.
  intros Hin Hlx. unfold ALIASES in Hin.
  repeat (apply elem_of_cons in Hin as [[= -> ->] | Hin]);
    [.. | by apply elem_of_nil in Hin];
    (split; [by destruct Hlx as [-> | [lx' ->]] |]);
    (split; [by destruct Hlx as [-> | [lx' ->]] |]);
    (split; [reflexivity |]);
    (split; [by eexists _, _, _ | by eexists _, _, _]).
Qed.

Lemma rstrip_space_form rest :
  rest = "" ∨ startswith rest " " = true →
  rstrip_by isspace rest = ""
  ∨ ∃ t', rstrip_by isspace rest = String " " t'.
Proof.
  intros [-> | H]; [by left |].
  destruct rest as [|c rest']; [done |]. cbn [startswith] in H.
  apply andb_true_iff in H as [Hc _]. apply ascii_eqb_eq in Hc as <-.
  rewrite rstrip_by_cons. destruct (_ && _); [by left | right; by eexists].
Qed.

Section AliasFacts.
Variable fnmatch_fn : string → string → bool.
Variable get_close_matches : string → list string → list string.

(** X7: on the shell that [__init__] builds, a line made of an alias in any
    letter case and then nothing, or text that begins with a space,
    resolves as the line with the alias replaced by its target. *)
Theorem alias_synonym yaml_pack _txt a target w rest :
  (a, target) ∈ ALIASES →
  lower w = a →
  rest = "" ∨ startswith rest " " = true →
  _resolve fnmatch_fn get_close_matches (VOShell_init yaml_pack _txt)
    (w +:+ rest)
  = _resolve fnmatch_fn get_close_matches (VOShell_init yaml_pack _txt)
      (target +:+ rest).
Proof.
  intros Hin Hlow Hrest.
  set (t := rstrip_by isspace rest).
  assert (lower t = "" ∨ ∃ lx', lower t = String " " lx') as Hlt.
  { destruct (rstrip_space_form rest Hrest) as [Ht | [t' Ht]];
      fold t in Ht; rewrite Ht; [by left | right; by eexists]. }
  destruct (alias_table_expand a target (w +:+ t) (lower t) Hin Hlt)
    as (Hexp & _ & Hlt' & (x & a' & y & Ha & Hx & Hl & Hy) & _).
  destruct (alias_table_expand a target (target +:+ t) (lower t) Hin Hlt)
    as (_ & Hid & _ & _ & (x' & b' & y' & Hb & Hx' & Hl' & Hy')).
  assert (strip (w +:+ rest) = w +:+ t) as Hs1.
  { apply (strip_word_app w rest x a' y); rewrite ?Hlow; done. }
  assert (strip (target +:+ rest) = target +:+ t) as Hs2.
  { apply (strip_word_app target rest x' b' y'); rewrite ?Hlt'; done. }
  assert (strip (target +:+ t) = target +:+ t) as Hs3.
  { rewrite (strip_word_app target t x' b' y'); rewrite ?Hlt'; try done.
    unfold t. by rewrite rstrip_by_idem. }
  unfold _resolve. rewrite Hs1, Hs2.
  assert (alias_expanded (VOShell_init yaml_pack _txt) (w +:+ t)
          = target +:+ t) as ->.
  { unfold alias_expanded. cbn [aliases VOShell_init].
    rewrite alias_order_eq, lower_app, Hlow, Hexp.
    assert (String.length a = String.length w) as ->
      by (rewrite <- Hlow; apply lower_length).
    rewrite str_drop_app. exact Hs3. }
  assert (alias_expanded (VOShell_init yaml_pack _txt) (target +:+ t)
          = target +:+ t) as ->.
  { unfold alias_expanded. cbn [aliases VOShell_init].
    by rewrite alias_order_eq, lower_app, Hlt', Hid. }
  assert (is_empty (w +:+ t) = is_empty (target +:+ t)) as ->; [|done].
  destruct w; [by rewrite <- Hlow in Ha |]. by rewrite Hb.
Qed.
End AliasFacts.

Lemma str_all_filter p s : str_all p (str_filter p s) = true.
Proof.
  induction s as [|c s IH]; [done |]. simpl.
  destruct (p c) eqn:E; [|done]. simpl. by rewrite E.
Qed.

Lemma str_all_take p n s : str_all p s = true → str_all p (str_take n s) = true.
Proof.
  revert s. induction n as [|n IH]; intros [|c s]; simpl; try done.
  intros H. apply andb_true_iff in H as [-> H]. by apply IH.
Qed.

Lemma str_take_length n s : String.length (str_take n s) ≤ n.
Proof.
  revert s. induction n as [|n IH]; intros [|c s]; simpl; try lia.
  specialize (IH s). lia.
Qed.

Lemma str_take_nonempty n s : s ≠ "" → str_take (S n) s ≠ "".
Proof. by destruct s. Qed.

Lemma derive_name_chars command_line name :
  _derive_process_name command_line = Ok name →
  name ≠ ""
  ∧ String.length name ≤ 32
  ∧ str_all name_char name = true.
Proof.
  unfold _derive_process_name.
  destruct (is_empty command_line).
  { intros [= <-]. split; [done |]. split; [simpl; lia | reflexivity]. }
  destruct (split_ws (strip command_line)) as [|first_word _]; [done |].
  cbv zeta. fold name_char.
  set (w := if contains dot _ then _ else _).
  set (kept := if is_empty (str_filter name_char w) then _ else _).
  intros H. assert (name = str_take 32 kept) as -> by congruence.
  split; [|split].
  - apply str_take_nonempty. unfold kept.
    by destruct (str_filter name_char w).
  - apply str_take_length.
  - apply str_all_take. unfold kept.
    pose proof (str_all_filter name_char w) as Hall.
    by destruct (str_filter name_char w).
Qed.

(** X8: a derived process name is not empty, has at most 32 characters, and
    each of them is alphanumeric, [_] or [-]. *)
Theorem derive_name_safe command_line name :
  _derive_process_name command_line = Ok name →
  name ≠ ""
  ∧ String.length name ≤ 32
  ∧ str_all name_char name = true.
Proof. apply derive_name_chars. Qed.

Lemma derive_name_safe_witness :
  String.length "Report" ≤ 32 ∧ str_all name_char "Report" = true.
Proof.
  exact (proj2 (derive_name_safe "'>Sales>Jones>Report.txt' -fast" "Report"
                  eq_refl)).
Defined.

Lemma split_ws_nil s : split_ws s = [] ↔ str_all isspace s = true.
Proof.
  induction s as [|c s IH]; [done |].
  rewrite split_ws_cons. cbn [str_all].
  destruct (isspace c); simpl; [done |].
  split; [|done].
  destruct s as [|c' s']; [done |].
  destruct (isspace c'); [done |]. by destruct (split_ws _).
Qed.

(** X9: [_derive_process_name] raises exactly on the command lines that are
    not empty and hold white space only. *)
Theorem derive_name_raises command_line :
  (∃ e, _derive_process_name command_line = Raise e)
  ↔ command_line ≠ "" ∧ str_all isspace command_line = true.
Proof.
  unfold _derive_process_name.
  destruct command_line as [|c s] eqn:E; [split; [by intros [e ?] | by intros [? _]] |].
  rewrite <- E. replace (is_empty command_line) with false by (by subst).
  rewrite split_ws_strip.
  split.
  - intros [e He]. split; [by subst |].
    apply split_ws_nil. by destruct (split_ws command_line).
  - intros [_ H]. apply split_ws_nil in H. rewrite H. by eexists.
Qed.

Lemma dict_keys_set_in {V} k k' (v : V) d :
  k' ∈ dict_keys (dict_set k v d) → k' ∈ dict_keys d ∨ k' = k.
Proof.
  rewrite dict_keys_set. destruct (dict_has k d); [by left |].
  intros H. apply elem_of_app in H as [H | H]; [by left |].
  apply list_elem_of_singleton in H. by right.
Qed.

Lemma option_key_known token :
  str_in token (batch_flags ++ batch_value_options) = true →
  str_in (option_key token) batch_option_keys = true.
Proof.
  unfold str_in. rewrite !existsb_exists. intros (x & Hin & Heq).
  apply string_eqb_eq in Heq as <-.
  exists (option_key token). split; [|apply String.eqb_refl].
  unfold batch_option_keys. by apply in_map.
Qed.

Lemma parse_batch_loop_inv n args cmd opts cmd' opts' :
  length args ≤ n →
  parse_batch_loop args cmd opts = inl (cmd', opts') →
  ∃ words,
    cmd' = cmd ++ words
    ∧ sublist words args
    ∧ Forall (λ t, startswith t "-" = false) words
    ∧ ∀ k, k ∈ dict_keys opts' →
           k ∈ dict_keys opts ∨ str_in k batch_option_keys = true.
Proof.
  revert args cmd opts.
  induction n as [|n IH]; intros [|token rest] cmd opts Hlen; simpl in Hlen;
    try lia.
  - intros [= <- <-]. exists []. rewrite app_nil_r.
    repeat split; [constructor | constructor | by left].
  - intros [= <- <-]. exists []. rewrite app_nil_r.
    repeat split; [constructor | constructor | by left].
  - cbn [parse_batch_loop].
    destruct (startswith token "-") eqn:Hdash.
    + destruct (str_in token batch_flags) eqn:Hflag.
      * intros H. apply IH in H as (words & -> & Hsub & Hall & Hk); [|lia].
        exists words. repeat split; [by constructor | done |].
        intros k Hin. destruct (Hk k Hin) as [H | H]; [|by right].
        apply dict_keys_set_in in H as [H | ->]; [by left | right].
        apply option_key_known. unfold str_in in *.
        rewrite existsb_app. by rewrite Hflag.
      * destruct (str_in token batch_value_options) eqn:Hval; [|done].
        destruct rest as [|value rest']; [done |].
        intros H. apply IH in H as (words & -> & Hsub & Hall & Hk);
          [|simpl in Hlen; lia].
        exists words. repeat split; [by do 2 constructor | done |].
        intros k Hin. destruct (Hk k Hin) as [H | H]; [|by right].
        apply dict_keys_set_in in H as [H | ->]; [by left | right].
        apply option_key_known. unfold str_in in *.
        rewrite existsb_app. by rewrite Hval, orb_true_r.
    + intros H. apply IH in H as (words & -> & Hsub & Hall & Hk); [|lia].
      exists (token :: words). rewrite <- app_assoc.
      repeat split; [by constructor | by constructor | done].
Qed.

Lemma parse_batch_loop_err n args cmd opts e :
  length args ≤ n →
  parse_batch_loop args cmd opts = inr e → e ≠ "".
Proof.
  revert args cmd opts.
  induction n as [|n IH]; intros [|token rest] cmd opts Hlen; simpl in Hlen;
    try lia; try done.
  cbn [parse_batch_loop].
  destruct (startswith token "-").
  - destruct (str_in token batch_flags).
    + apply IH. lia.
    + destruct (str_in token batch_value_options).
      * destruct rest as [|value rest']; [by intros [= <-] |].
        apply IH. simpl in Hlen. lia.
      * by intros [= <-].
  - apply IH. lia.
Qed.

(** X10: a successful [_parse_batch_arguments] returns as command line the
    join, by single spaces, of a non-empty subsequence of the arguments
    none of which starts with [-], and stores known option keys only; a
    failed one returns a non-empty message. *)
Theorem parse_batch_arguments_words args :
  match _parse_batch_arguments args with
  | inl (command_line, opts) =>
      ∃ words,
        words ≠ []
        ∧ command_line = str_join " " words
        ∧ sublist words args
        ∧ Forall (λ t, startswith t "-" = false) words
        ∧ Forall (λ k, str_in k batch_option_keys = true) (dict_keys opts)
  | inr e => e ≠ ""
  end.
Proof.
  unfold _parse_batch_arguments.
  destruct (parse_batch_loop args [] []) as [[cmd opts]|e] eqn:E.
  - apply (parse_batch_loop_inv (length args)) in E
      as (words & -> & Hsub & Hall & Hk); [|done].
    simpl. destruct words as [|w words]; [done |].
    exists (w :: words). repeat split; try done.
    apply Forall_forall. intros k Hin.
    destruct (Hk k Hin) as [H | H]; [|done]. by apply elem_of_nil in H.
  - by apply (parse_batch_loop_err (length args)) in E.
Qed.

Lemma ok_triple_inv {A B C} (a a' : A) (b b' : B) (c c' : C) :
  @Ok (A * B * C) (a, b, c) = Ok (a', b', c') → a = a' ∧ b = b' ∧ c = c'.
Proof. intros H. by injection H. Qed.

Lemma dict_set_new {V} k (v : V) d :
  dict_has k d = false → dict_set k v d = d ++ [(k, v)].
Proof.
  unfold dict_has. induction d as [|[k' v'] d IH]; simpl; [done |].
  destruct (String.eqb k' k); [done |]. intros H. by rewrite IH.
Qed.

Lemma endswith_app a b : endswith (a +:+ b) b = true.
Proof.
  induction a as [|c a IH].
  - rewrite append_nil_l. destruct b; simpl; [done |].
    by rewrite ascii_eqb_refl, String.eqb_refl.
  - rewrite append_cons. cbn [endswith]. by rewrite IH, orb_true_r.
Qed.

Lemma candidate_is_job p k : is_job (candidate_name p k) = true.
Proof.
  unfold is_job, candidate_name. destruct k.
  - apply endswith_app.
  - rewrite <- !append_assoc. apply endswith_app.
Qed.

Section SubmitFacts.
Variable now : Z.

(** What a successful submission is made of. *)
Lemma batch_success g st args command_line opts m g' st' :
  _parse_batch_arguments args = inl (command_line, opts) →
  h_batch now g st args = Ok (_ok m, g', st') →
  ∃ q p k ce record,
    m = "queued batch request " +:+ p +:+ " in queue '" +:+ q +:+ "'"
    ∧ g' = g
    ∧ q = match dict_get "queue" opts with
          | Some (JStr q) => q
          | _ => "normal"
          end
    ∧ dict_has (candidate_name p k) (queue_files st q) = false
    ∧ (∀ j, j < k → dict_has (candidate_name p j) (queue_files st q) = true)
    ∧ dict_get q st' = Some (QDir ce
        (queue_files st q
         ++ [(candidate_name p k, plain_file (Some (JObj record)))]))
    ∧ (∀ q', q' ≠ q → dict_get q' st' = dict_get q' st)
    ∧ dict_get "command_line" record = Some (JStr command_line)
    ∧ dict_get "process_name" record = Some (JStr p)
    ∧ dict_get "queue_name" record = Some (JStr q)
    ∧ dict_get "timestamp" record = Some (JInt now)
    ∧ (∃ n, dict_get "queue_priority" record = Some (JInt n))
    ∧ (dict_get "process_priority" record = Some JNull
       ∨ ∃ n, dict_get "process_priority" record = Some (JInt n))
    ∧ (dict_get "process_name" opts = None →
       _derive_process_name command_line = Ok p).
Proof.
  intros Hparse Hrun. unfold h_batch in Hrun. rewrite Hparse in Hrun.
  destruct (match dict_get "process_name" opts with
            | Some (JStr s) => _ | _ => _ end) as [p|e] eqn:Hname0; [|done].
  set (q := match dict_get "queue" opts with
            | Some (JStr q) => q | _ => "normal" end) in *.
  destruct (opt_int "process_priority" opts) as [pp|].
  2:{ apply ok_triple_inv in Hrun as (Hm & _ & _). by apply err_not_ok in Hm. }
  destruct (opt_int "queue_priority" opts) as [qp|].
  2:{ apply ok_triple_inv in Hrun as (Hm & _ & _). by apply err_not_ok in Hm. }
  cbv zeta in Hrun.
  assert (∀ e, dict_get q st ≠ Some (QFile e)) as Hdir.
  { intros e He. unfold _generate_unique_job_path in Hrun.
    by rewrite He in Hrun. }
  destruct (generate_keeps_queue st q p Hdir)
    as (fname & st1 & ce & Hgen & Hq1 & Hname).
  rewrite Hgen in Hrun. rewrite Hq1 in Hrun.
  set (files := queue_files st q) in *.
  destruct (free_candidate_exists files p) as (k0 & Hk0 & Hfree0).
  destruct (unique_name_loop_first_free (length files) files p 0 k0)
    as (k & Hloop & _ & Hfree & Hbefore); [lia | done |].
  change (candidate_name p 0) with (p +:+ ".job") in Hloop.
  rewrite Hloop in Hname. subst fname.
  destruct ce as [e|].
  { apply ok_triple_inv in Hrun as (Hm & _ & _). by apply err_not_ok in Hm. }
  apply ok_triple_inv in Hrun as (Hm & <- & <-). apply ok_inj in Hm.
  eexists q, p, k, None, _.
  split; [done |]. split; [done |]. split; [done |]. split; [done |].
  split; [intros j Hj; apply Hbefore; lia |].
  split.
  { rewrite (write_job_get _ _ _ _ _ _ Hq1). by rewrite dict_set_new. }
  split.
  { intros q' Hne. unfold write_job. rewrite Hq1.
    rewrite dict_get_set_ne by done.
    unfold _generate_unique_job_path in Hgen.
    destruct (dict_get q st) as [[e | ce files']|] eqn:E; [done | |].
    - by injection Hgen as _ <-.
    - injection Hgen as _ <-. by rewrite dict_get_set_ne. }
  split; [done |]. split; [done |]. split; [done |]. split; [done |].
  split; [by eexists |].
  split; [destruct pp; [right; by eexists | by left] |].
  intros Hnone. by rewrite Hnone in Hname0.
Qed.

(** X11: a successful [batch], for queue and process names that are names of
    directory entries, changes the target queue only and adds one file to
    it, under a job name that was free, whose record holds the command
    line, the process name, the queue name and the time; the message
    names the process and the queue. *)
Theorem batch_adds_one_job g st args command_line opts m g' st' :
  _parse_batch_arguments args = inl (command_line, opts) →
  store_names_ok opts = true →
  h_batch now g st args = Ok (_ok m, g', st') →
  ∃ q p k ce record,
    m = "queued batch request " +:+ p +:+ " in queue '" +:+ q +:+ "'"
    ∧ g' = g
    ∧ dict_has (candidate_name p k) (queue_files st q) = false
    ∧ dict_get q st' = Some (QDir ce
        (queue_files st q
         ++ [(candidate_name p k, plain_file (Some (JObj record)))]))
    ∧ (∀ q', q' ≠ q → dict_get q' st' = dict_get q' st)
    ∧ dict_get "command_line" record = Some (JStr command_line)
    ∧ dict_get "process_name" record = Some (JStr p)
    ∧ dict_get "queue_name" record = Some (JStr q)
    ∧ dict_get "timestamp" record = Some (JInt now).
Proof.
  intros Hparse _ Hrun.
  destruct (batch_success _ _ _ _ _ _ _ _ Hparse Hrun)
    as (q & p & k & ce & record & H1 & H2 & _ & H4 & _ & H6 & H7 & H8 & H9
        & H10 & H11 & _).
  by exists q, p, k, ce, record.
Qed.
End SubmitFacts.

Lemma batch_adds_one_job_witness :
  ∃ st' q p k ce record,
    h_batch 17 sample_globals sample_store ["run"; "-queue"; "nightly"]
    = Ok (_ok ("queued batch request " +:+ p +:+ " in queue '" +:+ q +:+ "'"),
          sample_globals, st')
    ∧ dict_get q st' = Some (QDir ce
        (queue_files sample_store q
         ++ [(candidate_name p k, plain_file (Some (JObj record)))])).
Proof.
  destruct (batch_adds_one_job 17 sample_globals sample_store
              ["run"; "-queue"; "nightly"] _ _ _ _ _ eq_refl eq_refl eq_refl)
    as (q & p & k & ce & record & Hm & _ & _ & Hq & _).
  eexists _, q, p, k, ce, record. split; [|exact Hq].
  by rewrite <- Hm.
Defined.

Section SubmitListed.
Variable now : Z.

(** X12: after a successful [batch] the two listings, without a filter or
    filtered by the target queue, have a row for the new request, with
    status [pending] in the status listing. *)
Theorem batch_then_listed g st args command_line opts m g' st' :
  _parse_batch_arguments args = inl (command_line, opts) →
  store_names_ok opts = true →
  h_batch now g st args = Ok (_ok m, g', st') →
  ∃ q p qpri ppri,
    m = "queued batch request " +:+ p +:+ " in queue '" +:+ q +:+ "'"
    ∧ (ppri = JNull ∨ ∃ n, ppri = JInt n)
    ∧ ∀ queue_filter,
        queue_filter = None ∨ queue_filter = Some q →
        In [text_cell q; text_cell p; JInt qpri; ppri; text_cell "pending"]
           (listing_rows status_row st' queue_filter)
        ∧ In [text_cell q; text_cell p; JInt qpri]
             (listing_rows request_row st' queue_filter).
Proof.
  intros Hparse _ Hrun.
  destruct (batch_success now _ _ _ _ _ _ _ _ Hparse Hrun)
    as (q & p & k & ce & record & Hm & _ & _ & Hfree & _ & Hq & _ & _ & Hp
        & _ & _ & [qpri Hqp] & Hpp & _).
  set (f := plain_file (Some (JObj record))).
  assert (dict_get (candidate_name p k)
            (queue_files st q ++ [(candidate_name p k, f)]) = Some f) as Hf.
  { rewrite dict_get_app. unfold dict_has in Hfree.
    destruct (dict_get _ (queue_files st q)); [done |].
    simpl. by rewrite String.eqb_refl. }
  assert (∃ ppri, dict_get "process_priority" record = Some ppri
                  ∧ (ppri = JNull ∨ ∃ n, ppri = JInt n)) as (ppri & Hpp' & Hform).
  { destruct Hpp as [H | [n H]]; eexists; (split; [exact H |]);
      [by left | right; by eexists]. }
  exists q, p, qpri, ppri. split; [done |]. split; [done |].
  intros queue_filter Hqf.
  assert (filtered_out queue_filter q = false) as Hfilter.
  { destruct Hqf as [-> | ->]; [done |]. simpl.
    by rewrite String.eqb_refl, andb_false_r. }
  pose proof (listing_rows_complete status_row _ _ _ _ _ _ _
                Hq Hf Hfilter (candidate_is_job p k)) as Hs.
  pose proof (listing_rows_complete request_row _ _ _ _ _ _ _
                Hq Hf Hfilter (candidate_is_job p k)) as Hr.
  unfold status_row in Hs at 1. unfold request_row in Hr at 1.
  unfold f, load_job, plain_file in Hs, Hr. cbn [f_content] in Hs, Hr.
  unfold get_or in Hs, Hr. rewrite Hp, Hqp in Hs, Hr. rewrite Hpp' in Hs.
  done.
Qed.
End SubmitListed.

Lemma batch_then_listed_witness :
  ∃ q p qpri ppri,
    In [text_cell q; text_cell p; JInt qpri; ppri; text_cell "pending"]
       (listing_rows status_row
          (write_job "nightly" "run.job"
             (JObj
                [("command_line", JStr "run"); ("process_name", JStr "run");
                 ("queue_name", JStr "nightly"); ("process_priority", JNull);
                 ("queue_priority", JInt 4); ("privileged", JBool false);
                 ("restart", JBool true); ("notify", JBool false);
                 ("output_path", JNull); ("module", JNull);
                 ("current_dir", JNull); ("defer_until", JNull);
                 ("control_file", JNull); ("after", JNull);
                 ("cpu_limit", JNull); ("timestamp", JInt 17)])
             sample_store)
          None).
Proof.
  destruct (batch_then_listed 17 sample_globals sample_store
              ["run"; "-queue"; "nightly"] _ _ _ _ _ eq_refl eq_refl eq_refl)
    as (q & p & qpri & ppri & _ & _ & Hrows).
  exists q, p, qpri, ppri. exact (proj1 (Hrows None (or_introl eq_refl))).
Defined.

Lemma dict_get_elem {V} k (v : V) (d : dict V) :
  NoDup (dict_keys d) → (k, v) ∈ d → dict_get k d = Some v.
Proof.
  induction d as [|[k0 v0] d IH]; simpl; intros Hnd Hin.
  - by apply elem_of_nil in Hin.
  - inversion Hnd as [|? ? Hfresh Hnd']; subst.
    apply elem_of_cons in Hin as [[= -> ->] | Hin].
    + by rewrite String.eqb_refl.
    + destruct (String.eqb k0 k) eqn:E; [|by apply IH].
      apply string_eqb_eq in E as ->. exfalso. apply Hfresh.
      apply list_elem_of_In, in_map_iff. exists (k, v).
      split; [done | by apply list_elem_of_In].
Qed.

Lemma sublist_keys_NoDup {V} (d' d : dict V) :
  sublist d' d → NoDup (dict_keys d) → NoDup (dict_keys d').
Proof.
  intros Hsub Hnd.
  assert (sublist (dict_keys d') (dict_keys d)) as Hkeys.
  { clear Hnd. unfold dict_keys.
    induction Hsub as [|x l1 l2 _ IH|x l1 l2 _ IH]; simpl.
    - constructor.
    - by apply sublist_skip.
    - by apply sublist_cons. }
  by eapply sublist_NoDup.
Qed.

Section CancelFrame.
Variable fnmatch_fn : string → string → bool.

(** What the cancel loop leaves of a directory is a sublist of it. *)
Lemma cancel_files_sublist pats files c files' c' e :
  cancel_files fnmatch_fn pats files c = (files', c', e) →
  sublist files' files.
Proof.
  revert c files' c' e. induction files as [|[fname f] rest IH]; simpl.
  - intros c files' c' e [= <- <- <-]. done.
  - intros c files' c' e.
    destruct (cancel_file fnmatch_fn pats fname f) as [[|]|err].
    + intros H. apply sublist_cons. by eapply IH.
    + destruct (cancel_files fnmatch_fn pats rest c) as [[rest' c1] e1] eqn:E.
      intros [= <- <- <-]. apply sublist_skip. by eapply IH.
    + intros [= <- <- <-]. done.
Qed.

(** An entry for which the loop body does not answer with a removal,
    because it keeps the file or because it raises, stays. *)
Lemma cancel_files_stay pats files c files' c' e fname f :
  cancel_files fnmatch_fn pats files c = (files', c', e) →
  (fname, f) ∈ files →
  cancel_file fnmatch_fn pats fname f ≠ Ok true →
  (fname, f) ∈ files'.
Proof.
  revert c files' c' e. induction files as [|[fname0 f0] rest IH]; simpl.
  - intros c files' c' e _ H. by apply elem_of_nil in H.
  - intros c files' c' e Hloop Hin Hkeep.
    destruct (cancel_file fnmatch_fn pats fname0 f0) as [[|]|err] eqn:E0.
    + apply elem_of_cons in Hin as [[= -> ->] | Hin]; [congruence |].
      by eapply IH.
    + destruct (cancel_files fnmatch_fn pats rest c) as [[rest' c1] e1] eqn:E.
      injection Hloop as <- <- <-.
      apply elem_of_cons in Hin as [[= -> ->] | Hin].
      * apply list_elem_of_here.
      * apply list_elem_of_further. by eapply IH.
    + by injection Hloop as <- <- <-.
Qed.

(** The loop body answers with a removal only for a [.job] file that the
    host lets go and whose name is a text that a pattern matches. *)
Lemma cancel_file_true pats fname f :
  cancel_file fnmatch_fn pats fname f = Ok true →
  cancel_candidate fnmatch_fn pats fname f.
Proof.
  unfold cancel_file, match_patterns, cancel_candidate.
  destruct (is_job fname); [|done].
  destruct pats as [|pat pats]; [done |].
  destruct (cancel_name fname f) as [| | | |name| |] eqn:Hname; try done.
  cbn [py_lower]. intros [= H]. apply andb_true_iff in H as [Hm Hl].
  apply negb_true_iff in Hl. split; [done |]. split; [done |].
  change (existsb (λ p, fnmatch_fn (lower name) (lower p)) (pat :: pats)
          = true) in Hm.
  apply existsb_exists in Hm as (p & Hp & Hmatch).
  exists name, p. split; [done |]. split; [by apply list_elem_of_In | done].
Qed.

Lemma cancel_candidate_true pats fname f :
  cancel_candidate fnmatch_fn pats fname f →
  cancel_file fnmatch_fn pats fname f = Ok true.
Proof.
  intros (Hjob & Hfree & name & pat & Hname & Hpat & Hmatch).
  unfold cancel_file, match_patterns. rewrite Hjob, Hname, Hfree.
  destruct pats as [|pat0 pats]; [by apply elem_of_nil in Hpat |].
  cbn [py_lower].
  assert (existsb (λ p, fnmatch_fn (lower name) (lower p)) (pat0 :: pats)
          = true) as ->; [|done].
  apply existsb_exists. exists pat. split; [by apply list_elem_of_In | done].
Qed.

Lemma cancel_files_frame pats files c files' c' e fname f :
  cancel_files fnmatch_fn pats files c = (files', c', e) →
  (fname, f) ∈ files →
  (fname, f) ∈ files' ∨ cancel_candidate fnmatch_fn pats fname f.
Proof.
  intros Hloop Hin.
  destruct (cancel_file fnmatch_fn pats fname f) as [[|]|err] eqn:E.
  - right. by apply cancel_file_true.
  - left. eapply cancel_files_stay; [done | done | congruence].
  - left. eapply cancel_files_stay; [done | done | congruence].
Qed.

Lemma queue_cancelled_refl pats a : queue_cancelled fnmatch_fn pats a a.
Proof.
  split; [done |]. destruct (snd a); [done |].
  split; [done |]. split; [done |]. intros fname f Hin. by left.
Qed.

Lemma cancel_queues_frame pats st c st' c' e :
  cancel_queues fnmatch_fn pats st c = (st', c', e) →
  Forall2 (queue_cancelled fnmatch_fn pats) st st'.
Proof.
  revert c st' c' e. induction st as [|[q [x | ce files]] rest IH]; simpl.
  - intros c st' c' e [= <- <- <-]. constructor.
  - intros c st' c' e.
    destruct (cancel_queues fnmatch_fn pats rest c) as [[rest' c1] e1] eqn:E.
    intros [= <- <- <-]. constructor; [done | by eapply IH].
  - intros c st' c' e.
    destruct (cancel_files fnmatch_fn pats files c) as [[files' c1] e1] eqn:Ef.
    assert (queue_cancelled fnmatch_fn pats (q, QDir ce files) (q, QDir ce files')) as Hq.
    { split; [done |]. simpl. split; [done |]. split.
      - by eapply cancel_files_sublist.
      - intros fname f. by eapply cancel_files_frame. }
    destruct e1 as [err|].
    + intros [= <- <- <-]. constructor; [done |].
      apply Forall2_same_length_lookup_2; [done |].
      intros i a b Ha Hb. rewrite Ha in Hb. injection Hb as <-.
      apply queue_cancelled_refl.
    + destruct (cancel_queues fnmatch_fn pats rest c1) as [[rest' c2] e2] eqn:E.
      intros [= <- <- <-]. constructor; [done | by eapply IH].
Qed.

Lemma cancel_handler_frame g st pats :
  Forall2 (queue_cancelled fnmatch_fn pats) st
          (h_cancel_batch_requests fnmatch_fn g st pats).2.
Proof.
  unfold h_cancel_batch_requests. destruct pats as [|pat pats].
  - apply Forall2_same_length_lookup_2; [done |].
    intros i a b Ha Hb. simpl in Hb. rewrite Ha in Hb. injection Hb as <-.
    apply queue_cancelled_refl.
  - destruct (cancel_queues fnmatch_fn (pat :: pats) st 0) as [[st1 n] e] eqn:E.
    apply cancel_queues_frame in E. by destruct e.
Qed.

(** X13: [cancel_batch_requests] removes nothing but [.job] files that
    the host lets go and whose process name is a text that one of the
    patterns matches, both in lower case: entry by entry the batch root
    is as before, each queue directory with a subsequence of its files
    in which only such files can be missing, whether the run ends with
    a count or with an error. *)
Theorem cancel_keeps_the_rest g st pats :
  Forall2 (queue_cancelled fnmatch_fn pats) st
          (h_cancel_batch_requests fnmatch_fn g st pats).2.
Proof. apply cancel_handler_frame. Qed.

(** The directory of a queue after a run. *)
Lemma frame_lookup pats st st' q ce files :
  Forall2 (queue_cancelled fnmatch_fn pats) st st' →
  dict_get q st = Some (QDir ce files) →
  ∃ files',
    dict_get q st' = Some (QDir ce files')
    ∧ sublist files' files
    ∧ ∀ fname f, (fname, f) ∈ files →
                 (fname, f) ∈ files'
                 ∨ cancel_candidate fnmatch_fn pats fname f.
Proof.
  induction 1 as [|[k e] [k' e'] st st' [Hk He] _ IH]; [done |].
  cbn [fst snd] in Hk, He. subst k'. cbn [dict_get].
  destruct (String.eqb k q); [|exact IH].
  intros [= ->]. destruct e' as [x | ce' files']; [done |].
  destruct He as (-> & Hsub & Hframe). by exists files'.
Qed.

(** With text names only, the loop body does not raise and the run goes
    through every queue. *)
Lemma cancel_file_text pats fname f :
  name_is_text fname f = true →
  ∃ b, cancel_file fnmatch_fn pats fname f = Ok b.
Proof.
  unfold name_is_text, cancel_file, match_patterns.
  destruct (is_job fname); [|by eexists].
  cbn [negb orb]. destruct pats as [|pat pats]; [by eexists |].
  destruct (cancel_name fname f); try done. cbn [py_lower]. by eexists.
Qed.

Lemma cancel_files_complete pats files c :
  forallb (λ file : string * jobfile, name_is_text (fst file) (snd file))
          files = true →
  ∃ files' c', cancel_files fnmatch_fn pats files c = (files', c', None).
Proof.
  revert c. induction files as [|[fname f] rest IH]; intros c Hall.
  - by eexists _, _.
  - cbn [forallb fst snd] in Hall. apply andb_true_iff in Hall as [Hf Hrest].
    cbn [cancel_files].
    destruct (cancel_file_text pats fname f Hf) as ([|] & ->).
    + by apply IH.
    + destruct (IH c Hrest) as (files' & c' & ->). by eexists _, _.
Qed.

Lemma cancel_queues_complete pats st c :
  names_are_text st = true →
  ∃ st' c', cancel_queues fnmatch_fn pats st c = (st', c', None).
Proof.
  unfold names_are_text. revert c.
  induction st as [|[q [x | ce files]] rest IH]; intros c Hall.
  - by eexists _, _.
  - cbn [forallb snd] in Hall. cbn [cancel_queues].
    destruct (IH c Hall) as (st' & c' & ->). by eexists _, _.
  - cbn [forallb snd] in Hall. apply andb_true_iff in Hall as [Hf Hrest].
    cbn [cancel_queues].
    destruct (cancel_files_complete pats files c Hf) as (files' & c1 & ->).
    destruct (IH c1 Hrest) as (st' & c' & ->). by eexists _, _.
Qed.

(** C10, as amended: a [.job] file whose record does not load is taken
    under its file base name: the loop body does not raise for it and
    matches the base name, lower-cased, against the lower-cased
    patterns.  When no pattern matches, or the host refuses the
    removal, the file is kept, however the run ends.  When one matches,
    the host removes the file and no record of the store holds a process
    name that is not a text, the run answers with a count, the file is
    gone and counted: the count, at least 1, is the number of files
    deleted. *)
Theorem cancel_unparsable_record g st pats q ce files fname f :
  store_wf st →
  dict_get q st = Some (QDir ce files) →
  dict_get fname files = Some f →
  is_job fname = true →
  load_job f = None →
  let matched :=
    existsb (λ pat, fnmatch_fn (lower (base_name fname)) (lower pat)) pats in
  let answer := h_cancel_batch_requests fnmatch_fn g st pats in
  cancel_file fnmatch_fn pats fname f = Ok (matched && negb (f_locked f))
  ∧ (matched && negb (f_locked f) = false →
     dict_get fname (queue_files answer.2 q) = Some f)
  ∧ (matched = true → f_locked f = false → names_are_text st = true →
     dict_get fname (queue_files answer.2 q) = None
     ∧ 1 ≤ file_count st - file_count answer.2
     ∧ answer.1.1
       = _ok ("cancelled "
              +:+ str_of_nat (file_count st - file_count answer.2)
              +:+ " batch request(s)")).
Proof.
  intros [Hnd Hndf] Hq Hf Hjob Hload matched answer.
  assert (cancel_name fname f = text_cell (base_name fname)) as Hname.
  { unfold cancel_name. by rewrite Hload. }
  assert (NoDup (dict_keys files)) as Hndq.
  { eapply Hndf. by apply dict_get_in in Hq. }
  assert (cancel_file fnmatch_fn pats fname f
          = Ok (matched && negb (f_locked f))) as Hbody.
  { unfold cancel_file, match_patterns. rewrite Hjob, Hname.
    subst matched. by destruct pats. }
  split; [done |]. split.
  - intros Hkeep.
    destruct (frame_lookup pats st answer.2 q ce files
                (cancel_handler_frame g st pats) Hq)
      as (files' & Hq' & Hsub & Hframe).
    unfold queue_files. rewrite Hq'.
    apply dict_get_elem; [by eapply sublist_keys_NoDup |].
    destruct (Hframe fname f (dict_get_in _ _ _ Hf)) as [Hin | Hcand];
      [done |].
    apply cancel_candidate_true in Hcand. congruence.
  - intros Hmatch Hfree Htext.
    assert (cancel_file fnmatch_fn pats fname f = Ok true) as Hcancel.
    { by rewrite Hbody, Hmatch, Hfree. }
    subst answer. unfold h_cancel_batch_requests.
    destruct pats as [|pat pats]; [done |].
    destruct (cancel_queues_complete (pat :: pats) st 0 Htext)
      as (st1 & n & Hloop).
    rewrite Hloop. cbn [fst snd].
    pose proof (cancel_queues_count _ _ _ _ _ _ _ Hloop) as Hcount.
    destruct (cancel_queues_lookup _ _ _ _ _ _ _ _ _ Hloop Hq)
      as (c0 & files' & c1 & Hfiles & Hq' & Hc0 & Hc1).
    destruct (cancel_files_removed _ _ _ _ _ _ _ _ Hfiles Hndq Hf Hcancel)
      as [Hgone Hcounted].
    split.
    { unfold queue_files. by rewrite Hq'. }
    split; [lia |].
    by replace (file_count st - file_count st1) with n by lia.
Qed.
End CancelFrame.

Lemma cancel_unparsable_record_witness :
  dict_get "Broken.job"
    (queue_files
       (h_cancel_batch_requests fnmatch.fnmatch sample_globals sample_store
          ["bro*"]).2
       "nightly")
  = None.
Proof.
  refine (proj1 (proj2 (proj2
    (cancel_unparsable_record fnmatch.fnmatch sample_globals
       sample_store ["bro*"] "nightly" None
       [("Broken.job", plain_file None)] "Broken.job" (plain_file None)
       sample_store_wf _ _ _ _)) _ _ _)); reflexivity.
Defined.

(** The condition on the other records is needed: with a record whose
    process name is the number 5 listed before it, the file
    [Broken.job], which does not parse and whose base name the pattern
    matches, is not reached: the run ends with an error instead of a
    count and the file is still there. *)
Lemma cancel_cut_short :
  let f := plain_file None in
  let answer :=
    h_cancel_batch_requests fnmatch.fnmatch sample_globals cut_short_store
      ["bro*"] in
  dict_get "Broken.job" (queue_files cut_short_store "nightly") = Some f
  ∧ is_job "Broken.job" = true
  ∧ load_job f = None
  ∧ fnmatch.fnmatch (lower (base_name "Broken.job")) (lower "bro*") = true
  ∧ f_locked f = false
  ∧ answer
    = (_err "cancel_batch_requests: 'int' object has no attribute 'lower'"
            sample_globals,
       cut_short_store)
  ∧ dict_get "Broken.job" (queue_files answer.2 "nightly") = Some f
  ∧ ∀ txt, answer.1.1 ≠ _ok txt.
Proof.
  cbv zeta. repeat split; try reflexivity.
  intros txt. vm_compute. discriminate.
Qed.


Section Again.
Variable fnmatch_fn : string → string → bool.

Lemma cancel_files_again pats files c files' c' c2 :
  cancel_files fnmatch_fn pats files c = (files', c', None) →
  cancel_files fnmatch_fn pats files' c2 = (files', c2, None).
Proof.
  revert c files' c'. induction files as [|[fname f] rest IH]; simpl.
  - intros c files' c' [= <- _]. done.
  - intros c files' c'.
    destruct (cancel_file fnmatch_fn pats fname f) as [[|]|err] eqn:E0.
    + apply IH.
    + destruct (cancel_files fnmatch_fn pats rest c) as [[rest' c1] e1] eqn:E.
      intros [= <- _ ->]. simpl. rewrite E0.
      by rewrite (IH _ _ _ E).
    + done.
Qed.

Lemma cancel_queues_again pats st c st' c' c2 :
  cancel_queues fnmatch_fn pats st c = (st', c', None) →
  cancel_queues fnmatch_fn pats st' c2 = (st', c2, None).
Proof.
  revert c st' c' c2. induction st as [|[q [x | ce files]] rest IH]; simpl.
  - intros c st' c' c2 [= <- _]. done.
  - intros c st' c' c2.
    destruct (cancel_queues fnmatch_fn pats rest c) as [[rest' c1] e1] eqn:E.
    intros [= <- _ ->]. simpl. by rewrite (IH _ _ _ c2 E).
  - intros c st' c' c2.
    destruct (cancel_files fnmatch_fn pats files c) as [[files' c1] e1] eqn:Ef.
    destruct e1 as [err|]; [done |].
    destruct (cancel_queues fnmatch_fn pats rest c1) as [[rest' c3] e2] eqn:E.
    intros [= <- _ ->]. simpl.
    rewrite (cancel_files_again _ _ _ _ _ c2 Ef).
    by rewrite (IH _ _ _ c2 E).
Qed.

(** X14: a successful [cancel_batch_requests] run again with the same
    patterns reports 0 requests and changes nothing. *)
Theorem cancel_twice g st pats txt g' st' :
  h_cancel_batch_requests fnmatch_fn g st pats = (_ok txt, g', st') →
  h_cancel_batch_requests fnmatch_fn g' st' pats
  = (_ok "cancelled 0 batch request(s)", g', st').
Proof.
  unfold h_cancel_batch_requests. destruct pats as [|pat pats].
  { intros H. apply (f_equal (λ r, r.1.1)) in H. by apply err_not_ok in H. }
  destruct (cancel_queues fnmatch_fn (pat :: pats) st 0) as [[st1 n] e] eqn:E.
  destruct e as [err|].
  { intros H. apply (f_equal (λ r, r.1.1)) in H. by apply err_not_ok in H. }
  intros H. pose proof (f_equal (λ r, r.1.2) H) as Hg.
  pose proof (f_equal (λ r, r.2) H) as Hst. simpl in Hg, Hst. subst.
  by rewrite (cancel_queues_again _ _ _ _ _ 0 E).
Qed.

(** A record holding the requested priorities is left alone. *)
Lemma set_priority_again key new job changed job' changed' c2 :
  set_priority key new job changed = (job', changed') →
  set_priority key new job' c2 = (job', c2).
Proof.
  unfold set_priority. destruct new as [n|]; [|by intros [= <- _]].
  destruct (py_ne_int (dict_get key job) n) eqn:E.
  - intros [= <- _]. rewrite dict_get_set_eq. by rewrite py_ne_int_same.
  - intros [= <- _]. by rewrite E.
Qed.

Lemma set_priority_other key new job changed job' changed' key' :
  key ≠ key' →
  set_priority key new job changed = (job', changed') →
  dict_get key' job' = dict_get key' job.
Proof.
  intros Hne. unfold set_priority. destruct new as [n|]; [|by intros [= <- _]].
  destruct (py_ne_int (dict_get key job) n); intros [= <- _]; [|done].
  by apply dict_get_set_ne.
Qed.

Lemma apply_updates_again new_qpri new_ppri job job' changed :
  apply_updates new_qpri new_ppri job = (job', changed) →
  apply_updates new_qpri new_ppri job' = (job', false)
  ∧ dict_get "process_name" job' = dict_get "process_name" job.
Proof.
  unfold apply_updates.
  destruct (set_priority "queue_priority" new_qpri job false)
    as [job1 ch1] eqn:E1.
  intros E2. split.
  - assert (set_priority "queue_priority" new_qpri job' false = (job', false))
      as ->.
    { unfold set_priority. destruct new_qpri as [n|]; [|done].
      assert (py_ne_int (dict_get "queue_priority" job') n = false) as ->;
        [|done].
      rewrite (set_priority_other "process_priority" _ _ _ _ _ "queue_priority"
                 ltac:(done) E2).
      pose proof (set_priority_again _ _ _ _ _ _ false E1) as H.
      unfold set_priority in H.
      by destruct (py_ne_int (dict_get "queue_priority" job1) n). }
    by apply (set_priority_again _ _ _ _ _ _ false) in E2.
  - rewrite (set_priority_other "process_priority" _ _ _ _ _ "process_name"
               ltac:(done) E2).
    by rewrite (set_priority_other "queue_priority" _ _ _ _ _ "process_name"
                  ltac:(done) E1).
Qed.

Lemma update_file_again pats new_qpri new_ppri fname f f' counted :
  update_file fnmatch_fn pats new_qpri new_ppri fname f = Ok (f', counted) →
  update_file fnmatch_fn pats new_qpri new_ppri fname f' = Ok (f', false).
Proof.
  unfold update_file. destruct (is_job fname); [|by intros [= <- _]].
  destruct (load_job f) as [job|] eqn:Hload.
  2:{ intros [= <- _]. by rewrite Hload. }
  destruct (match_patterns fnmatch_fn _ pats) as [[|]|err] eqn:Hm; [| |done].
  2:{ intros [= <- _]. by rewrite Hload, Hm. }
  destruct (apply_updates new_qpri new_ppri job) as [job' changed] eqn:Ha.
  destruct (apply_updates_again _ _ _ _ _ Ha) as [Hagain Hname].
  destruct (changed && negb (f_locked f)) eqn:Hc.
  - intros [= <- _]. unfold load_job. cbn [f_content f_locked].
    unfold get_or in *. rewrite Hname, Hm, Hagain. done.
  - intros [= <- _]. rewrite Hload, Hm, Ha, Hc. done.
Qed.

Lemma update_files_again pats new_qpri new_ppri files c files' c' c2 :
  update_files fnmatch_fn pats new_qpri new_ppri files c = (files', c', None) →
  update_files fnmatch_fn pats new_qpri new_ppri files' c2 = (files', c2, None).
Proof.
  revert c files' c' c2. induction files as [|[fname f] rest IH]; simpl.
  - intros c files' c' c2 [= <- _]. done.
  - intros c files' c' c2.
    destruct (update_file fnmatch_fn pats new_qpri new_ppri fname f)
      as [[f1 counted]|err] eqn:E0; [|done].
    destruct (update_files fnmatch_fn pats new_qpri new_ppri rest _)
      as [[rest' c1] e1] eqn:E.
    intros [= <- _ ->]. simpl.
    rewrite (update_file_again _ _ _ _ _ _ _ E0).
    by rewrite (IH _ _ _ c2 E).
Qed.

Lemma update_queues_again pats new_qpri new_ppri st c st' c' c2 :
  update_queues fnmatch_fn pats new_qpri new_ppri st c = (st', c', None) →
  update_queues fnmatch_fn pats new_qpri new_ppri st' c2 = (st', c2, None).
Proof.
  revert c st' c' c2. induction st as [|[q [x | ce files]] rest IH]; simpl.
  - intros c st' c' c2 [= <- _]. done.
  - intros c st' c' c2.
    destruct (update_queues fnmatch_fn pats new_qpri new_ppri rest c)
      as [[rest' c1] e1] eqn:E.
    intros [= <- _ ->]. simpl. by rewrite (IH _ _ _ c2 E).
  - intros c st' c' c2.
    destruct (update_files fnmatch_fn pats new_qpri new_ppri files c)
      as [[files' c1] e1] eqn:Ef.
    destruct e1 as [err|]; [done |].
    destruct (update_queues fnmatch_fn pats new_qpri new_ppri rest c1)
      as [[rest' c3] e2] eqn:E.
    intros [= <- _ ->]. simpl.
    rewrite (update_files_again _ _ _ _ _ _ _ c2 Ef).
    by rewrite (IH _ _ _ c2 E).
Qed.

(** X15: a successful [update_batch_requests] run again with the same
    arguments reports 0 requests and changes nothing. *)
Theorem update_twice g st args txt g' st' :
  h_update_batch_requests fnmatch_fn g st args = (_ok txt, g', st') →
  h_update_batch_requests fnmatch_fn g' st' args
  = (_ok "updated 0 batch request(s)", g', st').
Proof.
  unfold h_update_batch_requests. destruct args as [|a args].
  { intros H. apply (f_equal (λ r, r.1.1)) in H. by apply err_not_ok in H. }
  destruct (parse_update_loop (a :: args) [] None None)
    as [[[pats qp] pp]|msg].
  2:{ intros H. apply (f_equal (λ r, r.1.1)) in H. by apply err_not_ok in H. }
  destruct (bool_decide (pats = []) || _).
  { intros H. apply (f_equal (λ r, r.1.1)) in H. by apply err_not_ok in H. }
  destruct (update_queues fnmatch_fn pats qp pp st 0) as [[st1 n] e] eqn:E.
  destruct e as [err|].
  { intros H. apply (f_equal (λ r, r.1.1)) in H. by apply err_not_ok in H. }
  intros H. pose proof (f_equal (λ r, r.1.2) H) as Hg.
  pose proof (f_equal (λ r, r.2) H) as Hst. simpl in Hg, Hst. subst.
  by rewrite (update_queues_again _ _ _ _ _ _ _ 0 E).
Qed.
End Again.

Lemma sorted_in x l : In x (sorted l) → x ∈ l.
Proof. intros H. apply list_elem_of_In in H. by rewrite sorted_perm in H. Qed.

Lemma listing_rows_sound row st queue_filter r :
  In r (listing_rows row st queue_filter) →
  ∃ q ce files fname f,
    dict_get q st = Some (QDir ce files)
    ∧ dict_get fname files = Some f
    ∧ is_job fname = true
    ∧ filtered_out queue_filter q = false
    ∧ r = row q fname f.
Proof.
  unfold listing_rows. intros H.
  apply in_flat_map in H as (q & _ & H).
  destruct (filtered_out queue_filter q) eqn:Hf; [done |].
  destruct (dict_get q st) as [[x | ce files]|] eqn:Hq; [done | | done].
  apply in_flat_map in H as (fname & _ & H).
  destruct (is_job fname) eqn:Hj; [|done].
  destruct (dict_get fname files) as [f|] eqn:Hfile; [|done].
  destruct H as [<- | []]. by exists q, ce, files, fname, f.
Qed.

(** X16: the rows of the two listings are exactly the rows of the [.job]
    files of the queue directories that pass the filter. *)
Theorem listing_rows_exact row st queue_filter r :
  In r (listing_rows row st queue_filter)
  ↔ ∃ q ce files fname f,
      dict_get q st = Some (QDir ce files)
      ∧ dict_get fname files = Some f
      ∧ is_job fname = true
      ∧ filtered_out queue_filter q = false
      ∧ r = row q fname f.
Proof.
  split.
  - apply listing_rows_sound.
  - intros (q & ce & files & fname & f & Hq & Hf & Hj & Hfilter & ->).
    by eapply listing_rows_complete.
Qed.

Lemma repeat_str_length c n :
  String.length (posixpath.repeat_str (String c EmptyString) n) = n.
Proof.
  induction n as [|n IH]; [done |]. cbn [posixpath.repeat_str].
  rewrite append_length, IH. done.
Qed.

Lemma ljust_length w s :
  String.length s ≤ w → String.length (ljust w s) = w.
Proof.
  intros H. unfold ljust. rewrite append_length, repeat_str_length. lia.
Qed.

Lemma merge_widths_length ws cs :
  length (merge_widths ws cs) = length ws.
Proof.
  revert cs. induction ws as [|w ws IH]; intros [|c cs]; simpl; try done.
  by rewrite IH.
Qed.

Lemma merge_widths_le ws cs : Forall2 le ws (merge_widths ws cs).
Proof.
  revert cs. induction ws as [|w ws IH]; intros [|c cs]; simpl.
  - constructor.
  - constructor.
  - apply Forall2_same_length_lookup_2; [done |].
    intros i a b Ha Hb. rewrite Ha in Hb. by injection Hb as <-.
  - constructor; [lia | apply IH].
Qed.

Lemma merge_widths_fits ws cs :
  length cs = length ws →
  Forall2 (λ w c, String.length c ≤ w) (merge_widths ws cs) cs.
Proof.
  revert cs. induction ws as [|w ws IH]; intros [|c cs]; simpl; try done.
  intros [= H]. constructor; [lia | by apply IH].
Qed.

Lemma fits_mono ws ws' cs :
  Forall2 le ws ws' →
  Forall2 (λ w c, String.length c ≤ w) ws cs →
  Forall2 (λ w c, String.length c ≤ w) ws' cs.
Proof.
  intros Hle. revert cs. induction Hle as [|w w' ws ws' Hw _ IH];
    intros cs Hfit; inversion Hfit; subst; constructor; [lia | by apply IH].
Qed.

Lemma le_widths_trans (a b c : list nat) :
  Forall2 le a b → Forall2 le b c → Forall2 le a c.
Proof.
  intros Hab. revert c. induction Hab as [|x y a b Hxy _ IH];
    intros c Hbc; inversion Hbc; subst; constructor; [lia | by apply IH].
Qed.

(** The widths computed over all rows fit every row and the start
    widths. *)
Lemma fold_widths_fit texts ws :
  Forall (λ r, length r = length ws) texts →
  length (fold_left merge_widths texts ws) = length ws
  ∧ Forall2 le ws (fold_left merge_widths texts ws)
  ∧ Forall (Forall2 (λ w c, String.length c ≤ w)
              (fold_left merge_widths texts ws)) texts.
Proof.
  revert ws. induction texts as [|r texts IH]; intros ws Hall; simpl.
  - split; [done |]. split; [|constructor].
    apply Forall2_same_length_lookup_2; [done |].
    intros i a b Ha Hb. rewrite Ha in Hb. by injection Hb as <-.
  - inversion Hall as [|? ? Hr Hrest]; subst.
    destruct (IH (merge_widths ws r)) as (Hlen & Hle & Hfit).
    { rewrite merge_widths_length. done. }
    rewrite merge_widths_length in Hlen.
    split; [done |]. split.
    + eapply le_widths_trans; [apply merge_widths_le | done].
    + constructor; [|done].
      eapply fits_mono; [exact Hle |]. by apply merge_widths_fits.
Qed.

Lemma str_join_cons2 sep a b l :
  str_join sep (a :: b :: l) = a +:+ sep +:+ str_join sep (b :: l).
Proof. reflexivity. Qed.

Lemma ljust_cells_width ws cs :
  Forall2 (λ w c, String.length c ≤ w) ws cs →
  String.length (str_join "  " (ljust_cells ws cs)) = line_width ws.
Proof.
  unfold line_width.
  induction 1 as [|w c ws cs Hw Hrest IH]; [done |].
  destruct Hrest as [|w' c' ws' cs' Hw' Hrest'].
  - simpl. rewrite ljust_length by done. lia.
  - change (ljust_cells (w :: w' :: ws') (c :: c' :: cs'))
      with (ljust w c :: ljust_cells (w' :: ws') (c' :: cs')).
    change (ljust_cells (w' :: ws') (c' :: cs'))
      with (ljust w' c' :: ljust_cells ws' cs') in *.
    rewrite str_join_cons2, !append_length, IH, ljust_length by done.
    simpl. lia.
Qed.

Lemma fits_self (l : list string) :
  Forall2 (λ w c, String.length c ≤ w) (List.map String.length l) l.
Proof. induction l; constructor; [done | done]. Qed.

Lemma contains_app c a b :
  contains c (a +:+ b) = contains c a || contains c b.
Proof.
  induction a as [|x a IH]; [done |].
  rewrite append_cons. cbn [contains]. by rewrite IH, orb_assoc.
Qed.

Lemma one_line_app a b : one_line (a +:+ b) = one_line a && one_line b.
Proof. unfold one_line. by rewrite contains_app, negb_orb. Qed.

Lemma one_line_repeat c n :
  Ascii.eqb c newline = false →
  one_line (posixpath.repeat_str (String c EmptyString) n) = true.
Proof.
  intros Hc. induction n as [|n IH]; [done |]. cbn [posixpath.repeat_str].
  rewrite one_line_app, IH. unfold one_line. cbn [contains]. by rewrite Hc.
Qed.

Lemma one_line_ljust w s : one_line (ljust w s) = one_line s.
Proof.
  unfold ljust. rewrite one_line_app, one_line_repeat by done.
  apply andb_true_r.
Qed.

Lemma one_line_cells ws cs :
  Forall (λ c, one_line c = true) cs →
  one_line (str_join "  " (ljust_cells ws cs)) = true.
Proof.
  intros Hcs. revert ws. induction Hcs as [|c cs Hc Hrest IH]; intros ws.
  - by destruct ws.
  - destruct ws as [|w ws]; [done |].
    destruct ws as [|w' ws'], cs as [|c' cs'].
    + simpl. by rewrite one_line_ljust.
    + simpl. by rewrite one_line_ljust.
    + simpl. by rewrite one_line_ljust.
    + change (ljust_cells (w :: w' :: ws') (c :: c' :: cs'))
        with (ljust w c :: ljust_cells (w' :: ws') (c' :: cs')).
      change (ljust_cells (w' :: ws') (c' :: cs'))
        with (ljust w' c' :: ljust_cells ws' cs') in *.
      rewrite str_join_cons2, !one_line_app, one_line_ljust, Hc.
      specialize (IH (w' :: ws')).
      change (ljust_cells (w' :: ws') (c' :: cs'))
        with (ljust w' c' :: ljust_cells ws' cs') in IH.
      by rewrite IH.
Qed.

Section TableFacts.
Variable cell_str : json → string.

(** The body of a table: one line per row, padded to the column
    widths. *)
Lemma table_lines headers rows :
  rows ≠ [] →
  Forall (λ r, length r = length headers) rows →
  0 < list_sum (List.map String.length headers) →
  ∃ widths lines,
    table cell_str headers rows
    = str_join nl lines
    ∧ length lines = 2 + length rows
    ∧ Forall (λ l, String.length l = line_width widths) lines
    ∧ Forall2 le (List.map String.length headers) widths
    ∧ 0 < line_width widths
    ∧ (Forall (λ h, one_line h = true) headers →
       Forall (Forall (λ c, one_line (cell_str c) = true)) rows →
       Forall (λ l, one_line l = true) lines).
Proof.
  intros Hrows Hall Hpos. unfold table.
  set (texts := List.map (List.map cell_str) rows).
  set (ws0 := List.map String.length headers).
  set (widths := fold_left merge_widths texts ws0).
  destruct (fold_widths_fit texts ws0) as (Hlen & Hle & Hfit).
  { unfold texts, ws0. apply Forall_forall. intros r Hin.
    apply list_elem_of_In, in_map_iff in Hin as (r0 & <- & Hin).
    rewrite !length_map. rewrite Forall_forall in Hall.
    by apply Hall, list_elem_of_In. }
  fold widths in Hlen, Hle, Hfit.
  set (line := str_join "  " (ljust_cells widths headers)).
  set (body_lines := List.map (λ r, str_join "  " (ljust_cells widths r)) texts).
  assert (String.length line = line_width widths) as Hline.
  { apply ljust_cells_width. eapply fits_mono; [exact Hle | apply fits_self]. }
  assert (0 < line_width widths) as Hw.
  { unfold line_width.
    enough (list_sum ws0 ≤ list_sum widths) by (unfold ws0 in *; lia).
    clear -Hle. induction Hle; simpl; lia. }
  assert (Forall (λ l, String.length l = line_width widths) body_lines) as Hbody.
  { unfold body_lines. apply Forall_forall. intros l Hin.
    apply list_elem_of_In, in_map_iff in Hin as (r & <- & Hin).
    apply ljust_cells_width. rewrite Forall_forall in Hfit.
    by apply Hfit, list_elem_of_In. }
  assert (length body_lines = length rows) as Hcount.
  { unfold body_lines, texts. by rewrite !length_map. }
  exists widths, (line :: posixpath.repeat_str "-" (String.length line)
                       :: body_lines).
  split; [|split; [|split; [|split; [|split]]]].
  - destruct body_lines as [|b bs] eqn:Hb.
    { destruct rows; [done | simpl in Hcount; lia]. }
    rewrite !str_join_cons2.
    assert (nonempty (str_join nl (b :: bs)) = true) as ->; [|done].
    inversion Hbody as [|? ? Hb0 _]; subst.
    destruct b as [|c b']; [simpl in Hb0; lia |].
    by destruct bs.
  - simpl. by rewrite Hcount.
  - constructor; [done |]. constructor; [|done].
    by rewrite repeat_str_length.
  - done.
  - done.
  - intros Hheaders Hcells.
    constructor; [by apply one_line_cells |].
    constructor; [by apply one_line_repeat |].
    unfold body_lines, texts. apply Forall_forall. intros l Hin.
    apply list_elem_of_In, in_map_iff in Hin as (r & <- & Hin).
    apply in_map_iff in Hin as (r0 & <- & Hin).
    apply one_line_cells. apply Forall_forall. intros c Hc.
    apply list_elem_of_In, in_map_iff in Hc as (c0 & <- & Hc).
    rewrite Forall_forall in Hcells.
    specialize (Hcells r0 ltac:(by apply list_elem_of_In)).
    rewrite Forall_forall in Hcells. by apply Hcells, list_elem_of_In.
Qed.

(** X17: with at least one request to show and no newline in the text
    of a cell, the output of [display_batch_status] has these lines: a
    header, a rule and one line per request, all of one length, which
    is 41 or more. *)
Theorem batch_status_rectangular st args :
  listing_rows status_row st (head args) ≠ [] →
  forallb (forallb (λ c, one_line (cell_str c)))
          (listing_rows status_row st (head args)) = true →
  ∃ width lines,
    h_display_batch_status cell_str st args = str_join nl lines
    ∧ split_on newline (h_display_batch_status cell_str st args) = lines
    ∧ length lines
      = 2 + length (listing_rows status_row st (head args))
    ∧ Forall (λ l, String.length l = width) lines
    ∧ 41 ≤ width.
Proof.
  intros Hrows Hcells. unfold h_display_batch_status.
  destruct (table_lines ["Queue"; "Process"; "QueuePri"; "ProcPri"; "Status"]
              (listing_rows status_row st (head args)) Hrows)
    as (widths & lines & Htable & Hlen & Hall & Hle & _ & Hclean).
  { apply Forall_forall. intros r Hin.
    apply list_elem_of_In, listing_rows_sound in Hin
      as (q & ce & files & fname & f & _ & _ & _ & _ & ->).
    unfold status_row. by destruct (load_job f). }
  { simpl. lia. }
  assert (match listing_rows status_row st (head args) with
          | [] => "(no batch requests)"
          | _ :: _ =>
              table cell_str
                ["Queue"; "Process"; "QueuePri"; "ProcPri"; "Status"]
                (listing_rows status_row st (head args))
          end = str_join nl lines) as ->.
  { by destruct (listing_rows status_row st (head args)). }
  exists (line_width widths), lines.
  split; [done |]. split; [|split; [done | split; [done |]]].
  - apply (split_join newline).
    + destruct lines; [simpl in Hlen; lia | done].
    + assert (Forall (λ l, one_line l = true) lines) as Hlines.
      { apply Hclean.
        - by repeat constructor.
        - apply Forall_forall. intros r Hr. apply Forall_forall. intros c Hc.
          rewrite forallb_forall in Hcells.
          specialize (Hcells r ltac:(by apply list_elem_of_In)).
          rewrite forallb_forall in Hcells.
          by apply Hcells, list_elem_of_In. }
      eapply Forall_impl; [exact Hlines |].
      intros l Hl. unfold one_line in Hl. by apply negb_true_iff in Hl.
  - unfold line_width.
    assert (length widths = 5) as Hn.
    { by apply Forall2_length in Hle. }
    enough (33 ≤ list_sum widths) by lia.
    clear -Hle. simpl in Hle.
    repeat (match goal with
            | H : Forall2 _ (_ :: _) _ |- _ =>
                apply Forall2_cons_inv_l in H as (? & ? & ? & H & ->)
            | H : Forall2 _ [] _ |- _ => apply Forall2_nil_inv_l in H as ->
            end).
    simpl. lia.
Qed.
End TableFacts.

Lemma batch_status_rectangular_witness :
  ∃ width lines,
    h_display_batch_status scalar_str sample_store ["nightly"]
    = str_join nl lines
    ∧ split_on newline
        (h_display_batch_status scalar_str sample_store ["nightly"])
      = lines
    ∧ length lines
      = 2 + length (listing_rows status_row sample_store (Some "nightly"))
    ∧ Forall (λ l, String.length l = width) lines
    ∧ 41 ≤ width.
Proof.
  apply (batch_status_rectangular scalar_str sample_store ["nightly"]).
  - discriminate.
  - reflexivity.
Defined.

Lemma translate_go_literal fuel pat :
  glob_free pat = true → String.length pat ≤ fuel →
  fnmatch.translate_go fuel pat
  = List.map fnmatch.Lit (String.list_ascii_of_string pat).
Proof.
  revert pat. induction fuel as [|fuel IH]; intros [|c pat] Hfree Hlen;
    simpl in Hlen; try done; try lia.
  unfold glob_free in Hfree. cbn [str_all] in Hfree.
  apply andb_true_iff in Hfree as [Hc Hfree]. apply negb_true_iff in Hc.
  unfold glob_char in Hc. cbn [contains] in Hc.
  apply orb_false_iff in Hc as [H1 Hc]. apply orb_false_iff in Hc as [H2 Hc].
  apply orb_false_iff in Hc as [H3 _].
  rewrite Ascii.eqb_sym in H1, H2, H3.
  cbn [fnmatch.translate_go String.list_ascii_of_string List.map].
  rewrite H1, H2, H3. rewrite IH; [done | done | lia].
Qed.

Lemma matches_literal pat name :
  fnmatch.matches (List.map fnmatch.Lit (String.list_ascii_of_string pat)) name
  = String.eqb name pat.
Proof.
  revert name. induction pat as [|c pat IH]; intros [|d name]; simpl; try done.
  rewrite IH. by rewrite Ascii.eqb_sym.
Qed.

Lemma fnmatch_literal name pat :
  glob_free pat = true → fnmatch.fnmatch name pat = String.eqb name pat.
Proof.
  intros H. unfold fnmatch.fnmatch, fnmatch.translate.
  rewrite translate_go_literal by done. apply matches_literal.
Qed.

Lemma name_char_lower c : name_char c = true → glob_char (lower_char c) = false.
Proof.
  destruct c as [[] [] [] [] [] [] [] []]; vm_compute; congruence.
Qed.

Lemma derived_name_glob_free p :
  str_all name_char p = true → glob_free (lower p) = true.
Proof.
  unfold glob_free. induction p as [|c p IH]; [done |]. cbn [str_all lower].
  intros H. apply andb_true_iff in H as [Hc Hp].
  by rewrite (name_char_lower c Hc), IH.
Qed.

Lemma queue_files_NoDup st q :
  store_wf st → NoDup (dict_keys (queue_files st q)).
Proof.
  intros [_ Hwf]. unfold queue_files.
  destruct (dict_get q st) as [[x | ce files]|] eqn:E; try constructor.
  eapply Hwf. by apply dict_get_in in E.
Qed.

Lemma dict_keys_app {V} (a b : dict V) :
  dict_keys (a ++ b) = dict_keys a ++ dict_keys b.
Proof. unfold dict_keys. apply map_app. Qed.

(** Writing a file whose name is a text keeps the names of a directory
    texts. *)
Lemma files_text_set fname f files :
  forallb (λ file : string * jobfile, name_is_text (fst file) (snd file))
          files = true →
  name_is_text fname f = true →
  forallb (λ file : string * jobfile, name_is_text (fst file) (snd file))
          (dict_set fname f files) = true.
Proof.
  intros Hall Hf. induction files as [|[k v] rest IH].
  - cbn [dict_set forallb fst snd]. by rewrite Hf.
  - cbn [forallb fst snd] in Hall. apply andb_true_iff in Hall as [Hv Hrest].
    cbn [dict_set]. destruct (String.eqb k fname) eqn:E.
    + apply string_eqb_eq in E as ->. cbn [forallb fst snd].
      by rewrite Hf, Hrest.
    + cbn [forallb fst snd]. by rewrite Hv, IH.
Qed.

Lemma names_text_lookup st q ce files :
  names_are_text st = true →
  dict_get q st = Some (QDir ce files) →
  forallb (λ file : string * jobfile, name_is_text (fst file) (snd file))
          files = true.
Proof.
  unfold names_are_text. intros Hall Hq. apply dict_get_in in Hq.
  rewrite forallb_forall in Hall.
  by apply (Hall (q, QDir ce files)), list_elem_of_In.
Qed.

Lemma names_text_set st q ce files :
  names_are_text st = true →
  forallb (λ file : string * jobfile, name_is_text (fst file) (snd file))
          files = true →
  names_are_text (dict_set q (QDir ce files) st) = true.
Proof.
  unfold names_are_text. intros Hall Hf. induction st as [|[k e] rest IH].
  - cbn [dict_set forallb snd]. by rewrite Hf.
  - cbn [forallb] in Hall. apply andb_true_iff in Hall as [He Hrest].
    cbn [dict_set]. destruct (String.eqb k q).
    + cbn [forallb snd]. by rewrite Hf, Hrest.
    + cbn [forallb]. by rewrite He, IH.
Qed.

Lemma names_text_write st q fname job :
  names_are_text st = true →
  name_is_text fname {| f_content := Some job; f_locked := false |} = true →
  names_are_text (write_job q fname job st) = true.
Proof.
  intros Hall Hf. unfold write_job.
  destruct (dict_get q st) as [[x | ce files]|] eqn:Hq; try done.
  apply names_text_set; [done |].
  apply files_text_set; [by eapply names_text_lookup | done].
Qed.

Section SubmitCancel.
Variable now : Z.

(** A submission, successful or not, leaves the process names of the
    store texts: the record it writes holds the process name as a
    text. *)
Lemma batch_names_text g st args answer g' st' :
  names_are_text st = true →
  h_batch now g st args = Ok (answer, g', st') →
  names_are_text st' = true.
Proof.
  intros Hall. unfold h_batch.
  destruct (_parse_batch_arguments args) as [[command_line opts]|err];
    [|by intros [= _ _ <-]].
  destruct (match dict_get "process_name" opts with
            | Some (JStr s) => _ | _ => _ end) as [p|e]; [|done].
  set (q := match dict_get "queue" opts with
            | Some (JStr q) => q | _ => "normal" end).
  destruct (opt_int "process_priority" opts) as [pp|];
    [|by intros [= _ _ <-]].
  destruct (opt_int "queue_priority" opts) as [qp|];
    [|by intros [= _ _ <-]].
  cbv zeta.
  destruct (_generate_unique_job_path st q p) as [[fname st0]|e] eqn:Hgen;
    [|done].
  assert (names_are_text st0 = true) as Hall0.
  { unfold _generate_unique_job_path in Hgen.
    destruct (dict_get q st) as [[x | ce files]|]; [done | |].
    - by injection Hgen as _ <-.
    - injection Hgen as _ <-. by apply names_text_set. }
  destruct (dict_get q st0) as [[x | [e|] files]|];
    intros [= _ _ <-]; try done;
    (apply names_text_write; [done |]);
    unfold name_is_text, cancel_name, load_job; cbn [f_content];
    apply orb_true_r.
Qed.

(** X18: on a store in which no record holds a process name that is not
    a text, a request submitted without [-process_name] and then
    cancelled by its derived name is gone: the cancel run answers with
    a count, the job file that [batch] created is removed, and the count
    is the number of files removed, at least one. *)
Theorem batch_then_cancel g st args command_line opts p m g1 st1 :
  store_wf st →
  names_are_text st = true →
  _parse_batch_arguments args = inl (command_line, opts) →
  store_names_ok opts = true →
  dict_get "process_name" opts = None →
  _derive_process_name command_line = Ok p →
  h_batch now g st args = Ok (_ok m, g1, st1) →
  ∃ q k record st2,
    m = "queued batch request " +:+ p +:+ " in queue '" +:+ q +:+ "'"
    ∧ dict_get (candidate_name p k) (queue_files st q) = None
    ∧ dict_get (candidate_name p k) (queue_files st1 q)
      = Some (plain_file (Some (JObj record)))
    ∧ h_cancel_batch_requests fnmatch.fnmatch g1 st1 [p]
      = (_ok ("cancelled " +:+ str_of_nat (file_count st1 - file_count st2)
              +:+ " batch request(s)"),
         g1, st2)
    ∧ dict_get (candidate_name p k) (queue_files st2 q) = None
    ∧ 1 ≤ file_count st1 - file_count st2.
Proof.
  intros Hwf Htext Hparse _ Hnone Hderive Hrun.
  pose proof (batch_names_text _ _ _ _ _ _ Htext Hrun) as Htext1.
  destruct (batch_success now _ _ _ _ _ _ _ _ Hparse Hrun)
    as (q & p' & k & ce & record & Hm & _ & _ & Hfree & _ & Hq1 & _ & _ & Hp
        & _ & _ & _ & _ & Hd).
  assert (p' = p) as -> by (specialize (Hd Hnone); congruence).
  set (fname := candidate_name p k) in *.
  set (f := plain_file (Some (JObj record))) in *.
  set (files1 := queue_files st q ++ [(fname, f)]) in *.
  assert (dict_get fname (queue_files st q) = None) as Hnew.
  { unfold dict_has in Hfree. by destruct (dict_get fname (queue_files st q)). }
  assert (dict_get fname files1 = Some f) as Hf.
  { unfold files1. rewrite dict_get_app, Hnew. simpl.
    by rewrite String.eqb_refl. }
  assert (NoDup (dict_keys files1)) as Hnd.
  { unfold files1. rewrite dict_keys_app. apply NoDup_app.
    split; [by apply queue_files_NoDup |]. split; [|apply NoDup_singleton].
    intros x Hx Hx'. apply list_elem_of_singleton in Hx' as ->.
    by apply dict_get_None_not_in in Hnew. }
  assert (cancel_file fnmatch.fnmatch [p] fname f = Ok true) as Hgo.
  { unfold cancel_file. unfold fname at 1. rewrite candidate_is_job.
    unfold cancel_name, f, load_job, plain_file. cbn [f_content f_locked].
    unfold get_or. rewrite Hp. cbn [default match_patterns py_lower existsb].
    destruct (derive_name_chars _ _ Hderive) as (_ & _ & Hchars).
    unfold id. cbn [py_lower].
    rewrite fnmatch_literal by (by apply derived_name_glob_free).
    by rewrite String.eqb_refl. }
  destruct (cancel_queues_complete fnmatch.fnmatch [p] st1 0 Htext1)
    as (st2 & n & Hloop).
  pose proof (cancel_queues_count _ _ _ _ _ _ _ Hloop) as Hcount.
  destruct (cancel_queues_lookup _ _ _ _ _ _ _ _ _ Hloop Hq1)
    as (c0 & files' & c1 & Hfiles & Hq2 & Hc0 & Hc1).
  destruct (cancel_files_removed _ _ _ _ _ _ _ _ Hfiles Hnd Hf Hgo)
    as [Hgone Hcounted].
  exists q, k, record, st2. split; [done |]. split; [done |]. split.
  { unfold queue_files at 1. by rewrite Hq1. }
  split.
  { unfold h_cancel_batch_requests. rewrite Hloop.
    by replace (file_count st1 - file_count st2) with n by lia. }
  split.
  { unfold queue_files at 1. by rewrite Hq2. }
  lia.
Qed.
End SubmitCancel.

Lemma batch_then_cancel_witness :
  ∃ st1 st2 q k record,
    h_batch 17 sample_globals sample_store ["tools>build.cm"; "all"]
    = Ok (_ok ("queued batch request " +:+ "build" +:+ " in queue '" +:+ q
               +:+ "'"),
          sample_globals, st1)
    ∧ dict_get (candidate_name "build" k) (queue_files st1 q)
      = Some (plain_file (Some (JObj record)))
    ∧ h_cancel_batch_requests fnmatch.fnmatch sample_globals st1 ["build"]
      = (_ok ("cancelled "
              +:+ str_of_nat (file_count st1 - file_count st2)
              +:+ " batch request(s)"),
         sample_globals, st2)
    ∧ dict_get (candidate_name "build" k) (queue_files st2 q) = None.
Proof.
  destruct (batch_then_cancel 17 sample_globals sample_store
              ["tools>build.cm"; "all"] _ _ "build" _ _ _
              sample_store_wf eq_refl eq_refl eq_refl eq_refl eq_refl eq_refl)
    as (q & k & record & st2 & Hm & _ & H1 & Hrun & H2 & _).
  eexists _, st2, q, k, record.
  split; [|split; [exact H1 | split; [exact Hrun | exact H2]]].
  by rewrite <- Hm.
Defined.

Lemma str_in_elem x l : str_in x l = true ↔ x ∈ l.
Proof.
  unfold str_in. rewrite existsb_exists. split.
  - intros (y & Hin & Heq). apply string_eqb_eq in Heq as ->.
    by apply list_elem_of_In.
  - intros H. exists x. split; [by apply list_elem_of_In |].
    apply String.eqb_refl.
Qed.

Lemma str_in_not_elem x l : str_in x l = false ↔ x ∉ l.
Proof.
  rewrite <- str_in_elem. by destruct (str_in x l).
Qed.

Lemma NoDup_snoc (l : list string) x : NoDup l → x ∉ l → NoDup (l ++ [x]).
Proof.
  intros Hl Hx. apply NoDup_app. split; [done |]. split.
  - intros y Hy Hy'. apply list_elem_of_singleton in Hy' as ->. done.
  - apply NoDup_singleton.
Qed.

Lemma list_remove_sublist x l l' : list_remove x l = Some l' → sublist l' l.
Proof.
  revert l'. induction l as [|y l IH]; simpl; [done |]. intros l'.
  destruct (String.eqb y x).
  - intros [= <-]. by apply sublist_cons.
  - destruct (list_remove x l) as [r|]; [|done]. intros [= <-].
    apply sublist_skip. by apply IH.
Qed.

Lemma list_remove_None x l : list_remove x l = None ↔ x ∉ l.
Proof.
  induction l as [|y l IH]; simpl.
  - split; [intros _; apply not_elem_of_nil | done].
  - destruct (String.eqb y x) eqn:E.
    + apply string_eqb_eq in E as ->. split; [done |].
      intros H. destruct H. apply list_elem_of_here.
    + apply string_eqb_neq in E. rewrite not_elem_of_cons.
      destruct (list_remove x l); simpl.
      * split; [done |]. intros [_ H]. by apply IH in H.
      * split; [|done]. intros _. split; [done | by apply IH].
Qed.

Lemma list_remove_snoc x l : x ∉ l → list_remove x (l ++ [x]) = Some l.
Proof.
  induction l as [|y l IH]; simpl.
  - intros _. by rewrite String.eqb_refl.
  - intros H. apply not_elem_of_cons in H as [Hne H].
    assert (String.eqb y x = false) as -> by (by apply string_eqb_neq).
    by rewrite IH.
Qed.

Lemma list_remove_gone x l l' :
  NoDup l → list_remove x l = Some l' → x ∉ l'.
Proof.
  revert l'. induction l as [|y l IH]; simpl; [done |]. intros l' Hnd.
  inversion Hnd as [|? ? Hy Hl]; subst.
  destruct (String.eqb y x) eqn:E.
  - apply string_eqb_eq in E as ->. by intros [= <-].
  - apply string_eqb_neq in E.
    destruct (list_remove x l) as [r|]; [|done]. intros [= <-].
    apply not_elem_of_cons. split; [done | by apply IH].
Qed.

Lemma run_setting_ok c g s args :
  settings_ok s → settings_ok (run_setting c g s args).2.
Proof.
  intros Hs. pose proof Hs as (Hpaths & Hprofiles & Hcur & Hwidth).
  destruct c; simpl.
  - unfold h_list_library_paths. destruct args; [|done].
    destruct (LIBRARY_PATHS s); exact Hs.
  - unfold h_add_library_path. destruct args as [|path [|]]; try done.
    destruct (str_in path (LIBRARY_PATHS s)) eqn:E; simpl; [done |].
    split; [|done]. apply NoDup_snoc; [done |]. by apply str_in_not_elem.
  - unfold h_delete_library_path. destruct args as [|path [|]]; try done.
    destruct (list_remove path (LIBRARY_PATHS s)) as [paths|] eqn:E; [|done].
    split; [|done]. simpl.
    eapply sublist_NoDup; [exact Hpaths | by eapply list_remove_sublist].
  - unfold h_set_language. by destruct args as [|a [|]].
  - unfold h_set_time_zone. by destruct args as [|a [|]].
  - unfold h_set_line_wrap_width. destruct args as [|a [|]]; try done.
    destruct (py_int a) as [n|]; [|done].
    destruct (n <=? 0)%Z eqn:E; [done |]. simpl.
    apply Z.leb_gt in E. done.
  - unfold h_profile. destruct args as [|name [|]]; try done.
    destruct (str_in name (PROFILES s)) eqn:E; simpl.
    + split; [done |]. split; [done |]. split; [|done].
      by apply str_in_elem.
    + split; [done |]. split; [|split; [|done]].
      * apply NoDup_snoc; [done |]. by apply str_in_not_elem.
      * apply elem_of_app. right. apply list_elem_of_here.
  - unfold h_add_profile. destruct args as [|name [|]]; try done.
    destruct (str_in name (PROFILES s)) eqn:E; simpl; [done |].
    split; [done |]. split; [|split; [|done]].
    + apply NoDup_snoc; [done |]. by apply str_in_not_elem.
    + apply elem_of_app. by left.
Qed.

(** X19: every session of the settings commands, with any arguments, keeps
    the library paths and the profiles free of duplicates, the current
    profile among the profiles and the line width positive. *)
Theorem settings_stay_ok cmds g :
  settings_ok (run_settings cmds g initial_settings).2.
Proof.
  assert (settings_ok initial_settings) as H0.
  { split; [constructor |]. split; [apply NoDup_singleton |].
    split; [apply list_elem_of_here | done]. }
  revert H0. generalize initial_settings. revert g.
  induction cmds as [|[c args] cmds IH]; intros g s Hs; [done |].
  simpl. pose proof (run_setting_ok c g s args Hs) as Hnext.
  destruct (run_setting c g s args) as [[msg g'] s']. by apply IH.
Qed.

(** X20: on library paths without duplicates, adding a path makes it present,
    deleting it then succeeds and makes it absent, giving back the former
    list when the path was new, and deleting it once more reports that
    it is not found. *)
Theorem library_path_round_trip g s path :
  NoDup (LIBRARY_PATHS s) →
  let s1 := (h_add_library_path g s [path]).2 in
  path ∈ LIBRARY_PATHS s1
  ∧ ∃ paths,
      h_delete_library_path g s1 [path]
      = (_ok ("removed library path: " +:+ path), g,
         set_library_paths paths s1)
      ∧ (path ∉ paths)
      ∧ (path ∉ LIBRARY_PATHS s → paths = LIBRARY_PATHS s)
      ∧ h_delete_library_path g (set_library_paths paths s1) [path]
        = (_err ("library path not found: " +:+ path) g,
           set_library_paths paths s1).
Proof.
  intros Hnd. unfold h_add_library_path.
  destruct (str_in path (LIBRARY_PATHS s)) eqn:E; cbn [negb snd].
  - apply str_in_elem in E as Hin. split; [done |].
    unfold h_delete_library_path.
    destruct (list_remove path (LIBRARY_PATHS s)) as [paths|] eqn:Hr.
    2:{ by apply list_remove_None in Hr. }
    exists paths. split; [done |].
    pose proof (list_remove_gone _ _ _ Hnd Hr) as Hgone.
    split; [done |]. split; [done |].
    cbn [LIBRARY_PATHS set_library_paths].
    apply list_remove_None in Hgone. by rewrite Hgone.
  - apply str_in_not_elem in E as Hnot. cbn [LIBRARY_PATHS set_library_paths].
    split; [apply elem_of_app; right; apply list_elem_of_here |].
    unfold h_delete_library_path. cbn [LIBRARY_PATHS set_library_paths].
    rewrite (list_remove_snoc _ _ Hnot).
    exists (LIBRARY_PATHS s). split; [done |]. split; [done |].
    split; [done |].
    apply list_remove_None in Hnot. by rewrite Hnot.
Qed.

Lemma library_path_round_trip_witness :
  ∃ paths,
    h_delete_library_path sample_globals
      (h_add_library_path sample_globals initial_settings ["lib>tools"]).2
      ["lib>tools"]
    = (_ok "removed library path: lib>tools", sample_globals,
       set_library_paths paths
         (h_add_library_path sample_globals initial_settings ["lib>tools"]).2)
    ∧ paths = [].
Proof.
  destruct (library_path_round_trip sample_globals initial_settings
              "lib>tools" (NoDup_nil_2 : NoDup (LIBRARY_PATHS initial_settings)))
    as (_ & paths & Hdel & _ & Hsame & _).
  exists paths. split; [exact Hdel |]. apply Hsame. apply not_elem_of_nil.
Defined.

Lemma byte_eqb_refl b : Byte.eqb b b = true.
Proof. by apply Byte.byte_dec_lb. Qed.

Lemma first_difference_spec ca cb i :
  ca ≠ cb →
  ∃ o, first_difference ca cb i = i + o
       ∧ take o ca = take o cb
       ∧ ca !! o ≠ cb !! o.
Proof.
  revert cb i. induction ca as [|x ca IH]; intros [|y cb] i Hne; simpl.
  - done.
  - exists 0. by rewrite Nat.add_0_r.
  - exists 0. by rewrite Nat.add_0_r.
  - destruct (Byte.eqb x y) eqn:E.
    + apply Byte.byte_dec_bl in E as ->.
      destruct (IH cb (S i)) as (o & Ho & Htake & Hdiff); [congruence |].
      exists (S o). simpl. rewrite Ho, Htake. split; [lia | done].
    + exists 0. rewrite Nat.add_0_r. split; [done |]. split; [done |].
      simpl. intros [= ->]. by rewrite byte_eqb_refl in E.
Qed.

Lemma first_difference_sym ca cb i :
  first_difference ca cb i = first_difference cb ca i.
Proof.
  revert cb i. induction ca as [|x ca IH]; intros [|y cb] i; simpl; try done.
  destruct (Byte.eqb x y) eqn:E.
  - apply Byte.byte_dec_bl in E as ->. by rewrite byte_eqb_refl.
  - destruct (Byte.eqb y x) eqn:E'; [|done].
    apply Byte.byte_dec_bl in E' as ->. by rewrite byte_eqb_refl in E.
Qed.

Section CompareFacts.
Variable read_file : string → file_read.

(** X21: for two readable files, [compare_files] says that they are identical
    when their contents are equal, and otherwise names the first offset
    at which they differ, the same in both orders of the arguments. *)
Theorem compare_files_offset g a b ca cb :
  read_file (resolve_state_path g a) = FileData ca →
  read_file (resolve_state_path g b) = FileData cb →
  (ca = cb →
   h_compare_files read_file g [a; b] = ("Files are identical.", g))
  ∧ (ca ≠ cb →
     ∃ o, h_compare_files read_file g [a; b]
          = ("Files differ at byte " +:+ str_of_nat o, g)
          ∧ take o ca = take o cb
          ∧ ca !! o ≠ cb !! o
          ∧ h_compare_files read_file g [b; a]
            = ("Files differ at byte " +:+ str_of_nat o, g)).
Proof.
  intros Ha Hb. unfold h_compare_files. rewrite Ha, Hb. split.
  - intros ->. by rewrite bool_decide_true.
  - intros Hne. rewrite bool_decide_false by done.
    rewrite bool_decide_false by congruence.
    destruct (first_difference_spec ca cb 0 Hne) as (o & Ho & Htake & Hdiff).
    exists o. rewrite (first_difference_sym cb ca), Ho. done.
Qed.
End CompareFacts.

Lemma compare_files_offset_witness :
  ∃ o, h_compare_files sample_read sample_globals ["a"; "b"]
       = ("Files differ at byte " +:+ str_of_nat o, sample_globals)
       ∧ take o [Byte.x00; Byte.x01] = take o [Byte.x00].
Proof.
  destruct (compare_files_offset sample_read sample_globals "a" "b"
              [Byte.x00; Byte.x01] [Byte.x00] eq_refl eq_refl)
    as [_ Hdiff].
  destruct Hdiff as (o & Heq & Htake & _); [discriminate |].
  by exists o.
Defined.

Lemma str_take_app a b : str_take (String.length a) (a +:+ b) = a.
Proof.
  induction a as [|c a IH]; [by destruct b |].
  rewrite append_cons. simpl. by rewrite IH.
Qed.

Lemma split_on_last sep s :
  ∃ pre, s = pre +:+ last_or "" (split_on sep s).
Proof.
  unfold last_or. induction s as [|c s [pre IH]]; [by exists "" |].
  cbn [split_on]. destruct (Ascii.eqb c sep).
  - exists (String c pre). rewrite append_cons.
    pose proof (split_on_not_nil sep s) as Hne.
    destruct (split_on sep s) as [|w ws]; [done |].
    change (List.last ("" :: w :: ws) "") with (List.last (w :: ws) "").
    by rewrite <- IH.
  - destruct (split_on sep s) as [|w ws] eqn:E.
    { by destruct (split_on_not_nil sep s). }
    destruct ws as [|w' ws'].
    + exists "". rewrite append_nil_l. simpl.
      pose proof (join_split sep s) as Hj. rewrite E in Hj. simpl in Hj.
      by rewrite Hj.
    + exists (String c pre). rewrite append_cons.
      change (List.last (String c w :: w' :: ws') "")
        with (List.last (w' :: ws') "").
      change (List.last (w :: w' :: ws') "")
        with (List.last (w' :: ws') "") in IH.
      by rewrite <- IH.
Qed.

Lemma startswith_app_l a s p :
  startswith (a +:+ s) (a +:+ p) = startswith s p.
Proof.
  induction a as [|c a IH]; [by rewrite !append_nil_l |].
  rewrite !append_cons. cbn [startswith]. by rewrite ascii_eqb_refl, IH.
Qed.

Lemma startswith_app_r s p t :
  startswith s p = true → startswith (s +:+ t) p = true.
Proof.
  revert s. induction p as [|c p IH]; intros s; [done |].
  destruct s as [|d s]; [done |]. rewrite append_cons. cbn [startswith].
  intros H. apply andb_true_iff in H as [-> H]. by apply IH.
Qed.

Lemma startswith_nil s : startswith s "" = true.
Proof. by destruct s. Qed.

Section CompleteFacts.
Variable listdir : string → option (list string).
Variable isdir : string → bool.

Lemma completion_target_text g text base_dir prefix_str pattern :
  completion_target g text = (base_dir, prefix_str, pattern) →
  text = prefix_str +:+ pattern.
Proof.
  unfold completion_target. destruct (is_empty text) eqn:E.
  { intros [= _ <- <-]. by destruct text. }
  cbv zeta. intros [= _ <- <-].
  destruct (split_on_last gt_sign text) as [pre Hpre].
  set (pattern := last_or "" (split_on gt_sign text)) in *.
  destruct pattern as [|c p] eqn:Hp.
  - simpl. by rewrite append_nil_r.
  - cbn [nonempty is_empty negb]. unfold str_drop_end.
    assert (str_take (String.length text - String.length (String c p)) text
            = pre) as ->; [|done].
    rewrite Hpre, append_length, Nat.add_sub. apply str_take_app.
Qed.

Lemma complete_path_extends_text g text :
  Forall (λ s, startswith (lower s) (lower text) = true)
         (_complete_path listdir isdir g text).
Proof.
  unfold _complete_path.
  destruct (completion_target g text) as [[base_dir prefix_str] pattern] eqn:E.
  apply completion_target_text in E as ->.
  destruct (listdir base_dir) as [entries|]; [|constructor].
  apply Forall_forall. intros s Hin.
  apply list_elem_of_In, in_flat_map in Hin as (entry & _ & Hin).
  assert (startswith (lower entry) (lower pattern) = true) as Hstart.
  { destruct pattern as [|c p]; [apply startswith_nil |].
    cbn [nonempty is_empty negb andb] in Hin.
    by destruct (startswith (lower entry) (lower (String c p))). }
  assert (s = prefix_str +:+ entry +:+ ">" ∨ s = prefix_str +:+ entry)
    as [-> | ->].
  { destruct (nonempty pattern && _); [done |].
    destruct (isdir _); destruct Hin as [<- | []]; [by left | by right]. }
  - rewrite !lower_app, startswith_app_l. by apply startswith_app_r.
  - by rewrite !lower_app, startswith_app_l.
Qed.
End CompleteFacts.

Lemma ascii_compare_refl c : Ascii.compare c c = Eq.
Proof. unfold Ascii.compare. apply N.compare_refl. Qed.

Lemma ascii_compare_lt_trans a b c :
  Ascii.compare a b = Lt → Ascii.compare b c = Lt → Ascii.compare a c = Lt.
Proof.
  unfold Ascii.compare. rewrite !N.compare_lt_iff. apply N.lt_trans.
Qed.

Lemma string_compare_trans a b c :
  String.compare a b ≠ Gt → String.compare b c ≠ Gt → String.compare a c ≠ Gt.
Proof.
  revert b c. induction a as [|x a IH]; intros [|y b] [|z c]; simpl; try done.
  destruct (Ascii.compare x y) eqn:Exy; [| |done].
  - apply Ascii.compare_eq_iff in Exy as ->.
    destruct (Ascii.compare y z); [apply IH | done | done].
  - intros _. destruct (Ascii.compare y z) eqn:Eyz; [| |done].
    + apply Ascii.compare_eq_iff in Eyz as ->. by rewrite Exy.
    + by rewrite (ascii_compare_lt_trans _ _ _ Exy Eyz).
Qed.

Lemma name_le_trans a b c : name_le a b → name_le b c → name_le a c.
Proof.
  unfold name_le, String.leb. intros Hab Hbc.
  pose proof (string_compare_trans a b c) as H.
  destruct (String.compare a b), (String.compare b c), (String.compare a c);
    try done; by destruct H.
Qed.

Lemma name_le_total a b : String.leb a b = false → name_le b a.
Proof.
  intros H. destruct (String.leb_total a b) as [H' | H']; [congruence | done].
Qed.

Lemma insert_sorted_sorted x l :
  StronglySorted name_le l → StronglySorted name_le (insert_sorted x l).
Proof.
  induction 1 as [|y l Hl IH Hy]; simpl.
  - constructor; constructor.
  - destruct (String.leb x y) eqn:E.
    + constructor; [by constructor |].
      constructor; [done |].
      eapply Forall_impl; [exact Hy |]. intros z Hz.
      by apply (name_le_trans x y z).
    + constructor; [done |].
      apply name_le_total in E.
      rewrite (insert_sorted_perm x l). by constructor.
Qed.

Lemma sorted_sorted l : StronglySorted name_le (sorted l).
Proof.
  induction l as [|x l IH]; simpl; [constructor |].
  by apply insert_sorted_sorted.
Qed.

(** X22: [completenames] returns, sorted and without repetition, exactly the
    meta commands and the registered names that start with the text. *)
Theorem completenames_sorted_exact yaml_pack _txt text :
  let sh := VOShell_init yaml_pack _txt in
  StronglySorted name_le (completenames sh text)
  ∧ NoDup (completenames sh text)
  ∧ ∀ x, x ∈ completenames sh text
         ↔ startswith x text = true
           ∧ (x ∈ meta_commands ∨ x ∈ dict_keys (commands sh)).
Proof.
  intros sh. unfold completenames. split; [apply sorted_sorted |]. split.
  - rewrite sorted_perm. apply NoDup_remove_dups.
  - intros x. rewrite sorted_perm, elem_of_remove_dups, elem_of_app.
    rewrite !list_elem_of_In, !filter_In, <- !list_elem_of_In.
    assert (index sh = sorted (dict_keys (commands sh))) as -> by done.
    rewrite sorted_perm. tauto.
Qed.

Lemma lstrip_by_head p s :
  lstrip_by p s = "" ∨ ∃ c t, lstrip_by p s = String c t ∧ p c = false.
Proof.
  induction s as [|c s IH]; [by left |]. simpl.
  destruct (p c) eqn:E; [done |]. right. by exists c, s.
Qed.

Lemma strip_by_idem p s : strip_by p (strip_by p s) = strip_by p s.
Proof.
  unfold strip_by.
  destruct (lstrip_by_head p s) as [-> | (c & t & -> & Hc)]; [done |].
  rewrite rstrip_by_cons, Hc, andb_false_r.
  cbn [lstrip_by]. rewrite Hc.
  rewrite rstrip_by_cons, rstrip_by_idem, Hc, andb_false_r. done.
Qed.

(** X23: a name that [load_txt_commands] returns is stripped, not empty and
    no comment; unless it is an alias pattern it is registered by
    [__init__], with its stub handler when neither the pack nor the
    built-ins define it. *)
Theorem command_list_registered file names yaml_pack n :
  load_txt_commands file = Ok names →
  n ∈ names →
  str_in n (dict_keys ALIASES) = false →
  n ≠ "" ∧ startswith n "#" = false ∧ strip n = n
  ∧ ∃ v, dict_get n (commands (VOShell_init yaml_pack names)) = Some v
         ∧ (dict_get n (rev yaml_pack) = None →
            dict_get n BUILTINS = None →
            v = VHandler (Fn._stub n)).
Proof.
  intros Hload Hin Halias.
  assert (nonempty n = true ∧ startswith n "#" = false ∧ strip n = n)
    as (Hne & Hhash & Hstrip).
  { destruct file as [|e|lines]; simpl in Hload.
    - injection Hload as <-. by apply elem_of_nil in Hin.
    - done.
    - injection Hload as <-.
      apply list_elem_of_In, filter_In in Hin as [Hin Hok].
      apply andb_true_iff in Hok as [Hne Hhash].
      apply negb_true_iff in Hhash.
      apply in_map_iff in Hin as (ln & <- & _).
      split; [done |]. split; [done |]. apply strip_by_idem. }
  split; [by destruct n |]. split; [done |]. split; [done |].
  rewrite init_get, Halias, str_in_app.
  assert (str_in n names = true) as -> by (by apply str_in_elem).
  assert (listed n names = true) as Hlisted.
  { unfold listed. rewrite Hne. simpl. apply existsb_exists.
    exists n. split; [by apply list_elem_of_In |].
    rewrite Hstrip. apply String.eqb_refl. }
  cbn [orb negb]. rewrite Hlisted.
  destruct (dict_get n (rev yaml_pack)) as [s|];
    [eexists; split; [reflexivity | intros; congruence] |].
  destruct (dict_get n BUILTINS) as [v|];
    eexists; (split; [reflexivity | intros; congruence]).
Qed.

Lemma command_list_registered_witness :
  ∃ v, dict_get "analyze_system"
         (commands (VOShell_init [] ["analyze_system"; "list"]))
       = Some v
       ∧ (dict_get "analyze_system" (rev ([] : dict string)) = None →
          dict_get "analyze_system" BUILTINS = None →
          v = VHandler (Fn._stub "analyze_system")).
Proof.
  refine (proj2 (proj2 (proj2
    (command_list_registered
       (TxtLines ["# commands"; "  analyze_system "; ""; "list"])
       ["analyze_system"; "list"] [] "analyze_system" eq_refl _ eq_refl)))).
  apply list_elem_of_here.
Defined.

Lemma flat_map_map {A B C} (f : B → C) (g : A → list B) (l : list A) :
  List.map f (flat_map g l) = flat_map (λ x, List.map f (g x)) l.
Proof.
  induction l as [|x l IH]; simpl; [done |]. by rewrite map_app, IH.
Qed.

Lemma request_row_status_row q fname f :
  request_row q fname f = take 3 (status_row q fname f).
Proof. unfold request_row, status_row. by destruct (load_job f). Qed.

(** X24: the rows of [list_batch_requests] are the first three cells of the
    rows of [display_batch_status], in the same order. *)
Theorem listings_agree st queue_filter :
  listing_rows request_row st queue_filter
  = List.map (take 3) (listing_rows status_row st queue_filter).
Proof.
  unfold listing_rows. rewrite flat_map_map.
  apply flat_map_ext. intros q.
  destruct (filtered_out queue_filter q); [done |].
  destruct (dict_get q st) as [[x | ce files]|]; [done | | done].
  rewrite flat_map_map. apply flat_map_ext. intros fname.
  destruct (is_job fname); [|done].
  destruct (dict_get fname files); [|done].
  simpl. by rewrite request_row_status_row.
Qed.

(** ** Letter case *)

Lemma isspace_lower_char c : isspace (lower_char c) = isspace c.
Proof. destruct c as [[] [] [] [] [] [] [] []]; reflexivity. Qed.

Lemma lower_char_idem c : lower_char (lower_char c) = lower_char c.
Proof. destruct c as [[] [] [] [] [] [] [] []]; reflexivity. Qed.

Lemma lower_idem s : lower (lower s) = lower s.
Proof.
  induction s as [|c s IH]; [done |]. simpl. by rewrite lower_char_idem, IH.
Qed.

Lemma lower_lstrip s :
  lower (lstrip_by isspace s) = lstrip_by isspace (lower s).
Proof.
  induction s as [|c s IH]; [done |]. simpl. rewrite isspace_lower_char.
  by destruct (isspace c).
Qed.

Lemma lower_rstrip s :
  lower (rstrip_by isspace s) = rstrip_by isspace (lower s).
Proof.
  induction s as [|c s IH]; [done |]. cbn [lower].
  rewrite !rstrip_by_cons, <- IH, isspace_lower_char.
  assert (is_empty (lower (rstrip_by isspace s))
          = is_empty (rstrip_by isspace s)) as ->.
  { by destruct (rstrip_by isspace s). }
  by destruct (is_empty _ && isspace c).
Qed.

Lemma lower_strip s : lower (strip s) = strip (lower s).
Proof. unfold strip, strip_by. by rewrite lower_rstrip, lower_lstrip. Qed.

Lemma lower_drop n s : lower (str_drop n s) = str_drop n (lower s).
Proof.
  revert s. induction n as [|n IH]; intros [|c s]; simpl; try done.
Qed.

Lemma lower_split_ws s : split_ws (lower s) = List.map lower (split_ws s).
Proof.
  induction s as [|c s IH]; [done |]. cbn [lower].
  rewrite !split_ws_cons, isspace_lower_char.
  destruct (isspace c); [done |].
  destruct s as [|c' s']; [done |]. cbn [lower] in *.
  rewrite isspace_lower_char.
  destruct (isspace c'); [by rewrite IH |].
  rewrite IH. by destruct (split_ws (String c' s')).
Qed.

Lemma is_empty_lower s : is_empty (lower s) = is_empty s.
Proof. by destruct s. Qed.

Lemma same_lower_empty a b : lower a = lower b → is_empty a = is_empty b.
Proof. intros H. by rewrite <- (is_empty_lower a), H, is_empty_lower. Qed.

(** Two lines that agree up to letter case are rewritten by the same
    alias, to lines that agree up to letter case. *)
Lemma expand_alias_lower al keys a b :
  lower a = lower b →
  lower (expand_alias al keys a (lower a))
  = lower (expand_alias al keys b (lower b)).
Proof.
  intros H. rewrite <- H.
  induction keys as [|k keys IH]; simpl; [done |].
  destruct (String.eqb (lower a) k || startswith (lower a) (k +:+ " "));
    [|done].
  by rewrite !lower_strip, !lower_app, !lower_drop, H.
Qed.

Lemma split_cmd_args_lower a b ci :
  lower a = lower b →
  lower (_split_cmd_args a ci).1 = lower (_split_cmd_args b ci).1
  ∧ List.map lower (_split_cmd_args a ci).2
    = List.map lower (_split_cmd_args b ci).2.
Proof.
  intros H. unfold _split_cmd_args. rewrite !split_ws_strip.
  assert (List.map lower (split_ws a) = List.map lower (split_ws b)) as Hw.
  { by rewrite <- !lower_split_ws, H. }
  destruct (split_ws a) as [|a0 [|a1 ra]], (split_ws b) as [|b0 [|b1 rb]];
    try done.
  - injection Hw as H0. simpl. by rewrite H0.
  - injection Hw as H0 H1 Hr.
    rewrite !lower_app, H0, H1.
    destruct (bool_decide _); simpl.
    + by rewrite !lower_app, H0, H1, Hr.
    + by rewrite H0, H1, Hr.
Qed.

Section CaseFacts.
Variable fnmatch_fn : string → string → bool.
Variable get_close_matches : string → list string → list string.

(** X25: two lines equal up to letter case resolve to the same key, to the
    same value when there is a key, and to arguments equal up to letter
    case. *)
Theorem resolve_ignores_case sh a b :
  lower a = lower b →
  let ra := _resolve fnmatch_fn get_close_matches sh a in
  let rb := _resolve fnmatch_fn get_close_matches sh b in
  ra.1.1 = rb.1.1
  ∧ (is_Some ra.1.1 → ra.1.2 = rb.1.2)
  ∧ List.map lower ra.2 = List.map lower rb.2.
Proof.
  intros H. cbv zeta. unfold _resolve.
  assert (lower (strip a) = lower (strip b)) as Hs
    by (by rewrite !lower_strip, H).
  rewrite (same_lower_empty _ _ Hs).
  destruct (is_empty (strip b)); [by split; [|split; [intros [? [=]] |]] |].
  pose proof (expand_alias_lower (aliases sh)
                (longest_first (dict_keys (aliases sh))) _ _ Hs) as He.
  fold (alias_expanded sh (strip a)) in He.
  fold (alias_expanded sh (strip b)) in He.
  rewrite He.
  destruct (commands_ci sh !! lower (alias_expanded sh (strip b)))
    as [[orig v]|]; [done |].
  destruct (split_cmd_args_lower _ _ (commands_ci sh) He) as [Hh Hargs].
  destruct (_split_cmd_args (alias_expanded sh (strip a)) (commands_ci sh))
    as [ha argsa].
  destruct (_split_cmd_args (alias_expanded sh (strip b)) (commands_ci sh))
    as [hb argsb].
  simpl in Hh, Hargs. rewrite (same_lower_empty _ _ Hh), Hh.
  destruct (is_empty hb); [by split; [|split; [intros [? [=]] |]] |].
  destruct (commands_ci sh !! lower hb) as [[orig v]|]; [done |].
  destruct (candidates fnmatch_fn sh (lower hb)) as [|k [|k2 rest]]; [| done | done].
  destruct (get_close_matches ha (index sh)), (get_close_matches hb (index sh));
    by split; [|split; [intros [? [=]] |]].
Qed.
End CaseFacts.

Lemma land_bit m k :
  (0 ≤ k)%Z → Z.eqb (Z.land m (2 ^ k)) 0 = negb (Z.testbit m k).
Proof.
  intros Hk. destruct (Z.testbit m k) eqn:E; simpl.
  - apply Z.eqb_neq. intros H.
    apply (f_equal (λ z, Z.testbit z k)) in H.
    rewrite Z.land_spec, E, Z.pow2_bits_true, Z.bits_0 in H by done. done.
  - apply Z.eqb_eq. apply Z.bits_inj'. intros n Hn.
    rewrite Z.land_spec, Z.bits_0, Z.pow2_bits_eqb by done.
    destruct (Z.eqb_spec k n) as [<- | Hne]; [by rewrite E |].
    apply andb_false_r.
Qed.

Lemma perm_char_bit m bit k ch :
  (0 ≤ k)%Z → bit = (2 ^ k)%Z →
  perm_char m (bit, ch) = if Z.testbit m k then ch else "-"%char.
Proof.
  intros Hk ->. unfold perm_char. cbn [fst snd]. rewrite land_bit by done.
  by destruct (Z.testbit m k).
Qed.

Lemma string_cons_inv a s a' s' :
  String a s = String a' s' → a = a' ∧ s = s'.
Proof. by intros [= -> ->]. Qed.

Lemma if_char_inj (b1 b2 : bool) (ch : ascii) :
  ch ≠ "-"%char →
  (if b1 then ch else "-"%char) = (if b2 then ch else "-"%char) → b1 = b2.
Proof. destruct b1, b2; congruence. Qed.

Lemma low_bits_eq m1 m2 :
  (∀ k, (0 ≤ k < 9)%Z → Z.testbit m1 k = Z.testbit m2 k)
  ↔ Z.land m1 511 = Z.land m2 511.
Proof.
  split.
  - intros H. apply Z.bits_inj'. intros n Hn. rewrite !Z.land_spec.
    destruct (Z.ltb_spec n 9) as [Hlt | Hge].
    + by rewrite H by lia.
    + assert (Z.testbit 511 n = false) as ->; [|by rewrite !andb_false_r].
      change 511%Z with (Z.ones 9). apply Z.ones_spec_high. lia.
  - intros H k Hk.
    apply (f_equal (λ z, Z.testbit z k)) in H.
    rewrite !Z.land_spec in H.
    assert (Z.testbit 511 k = true) as Hbit.
    { change 511%Z with (Z.ones 9). apply Z.ones_spec_low. lia. }
    by rewrite Hbit, !andb_true_r in H.
Qed.

(** X26: for a mode within the range of [mode_t], [_mode_to_str] returns
    a text of ten characters, and two such modes have the same text
    exactly when both or neither is a directory and their nine
    permission bits are equal. *)
Theorem mode_to_str_exact m1 m2 :
  mode_t_ok m1 = true →
  mode_t_ok m2 = true →
  ∃ s1 s2,
    _mode_to_str m1 = Some s1
    ∧ _mode_to_str m2 = Some s2
    ∧ String.length s1 = 10
    ∧ (s1 = s2
       ↔ S_ISDIR m1 = S_ISDIR m2 ∧ Z.land m1 511 = Z.land m2 511).
Proof.
  intros H1 H2. unfold _mode_to_str, S_ISDIR. rewrite H1, H2.
  set (d1 := Z.eqb (Z.land m1 61440) 16384).
  set (d2 := Z.eqb (Z.land m2 61440) 16384).
  eexists _, _. split; [reflexivity |]. split; [reflexivity |].
  split; [reflexivity |].
  rewrite <- low_bits_eq. unfold perms.
  cbn [List.map String.string_of_list_ascii].
  rewrite (perm_char_bit m1 256 8 "r"), (perm_char_bit m1 128 7 "w"),
    (perm_char_bit m1 64 6 "x"), (perm_char_bit m1 32 5 "r"),
    (perm_char_bit m1 16 4 "w"), (perm_char_bit m1 8 3 "x"),
    (perm_char_bit m1 4 2 "r"), (perm_char_bit m1 2 1 "w"),
    (perm_char_bit m1 1 0 "x"), (perm_char_bit m2 256 8 "r"),
    (perm_char_bit m2 128 7 "w"), (perm_char_bit m2 64 6 "x"),
    (perm_char_bit m2 32 5 "r"), (perm_char_bit m2 16 4 "w"),
    (perm_char_bit m2 8 3 "x"), (perm_char_bit m2 4 2 "r"),
    (perm_char_bit m2 2 1 "w"), (perm_char_bit m2 1 0 "x")
    by (lia || reflexivity).
  split.
  - intros H. apply string_cons_inv in H as [Hd H].
    repeat (apply string_cons_inv in H as [? H]).
    repeat match goal with
           | Hx : (if Z.testbit _ _ then _ else _) = _ |- _ =>
               apply if_char_inj in Hx; [|discriminate]
           end.
    split.
    + revert Hd. by destruct d1, d2.
    + intros k Hk.
      assert (k = 0 ∨ k = 1 ∨ k = 2 ∨ k = 3 ∨ k = 4 ∨ k = 5 ∨ k = 6
              ∨ k = 7 ∨ k = 8)%Z as Hcases by lia.
      repeat (destruct Hcases as [-> | Hcases]); try subst k; assumption.
  - intros [[= ->] H].
    by rewrite !(H 0%Z), !(H 1%Z), !(H 2%Z), !(H 3%Z), !(H 4%Z), !(H 5%Z),
      !(H 6%Z), !(H 7%Z), !(H 8%Z) by lia.
Qed.

(** A directory with mode 755 and a plain file with mode 644. *)
Lemma mode_to_str_exact_witness :
  ∃ s1 s2,
    _mode_to_str 16877 = Some s1
    ∧ _mode_to_str 33188 = Some s2
    ∧ String.length s1 = 10
    ∧ (s1 = s2
       ↔ S_ISDIR 16877 = S_ISDIR 33188
         ∧ Z.land 16877 511 = Z.land 33188 511).
Proof. apply (mode_to_str_exact 16877 33188); reflexivity. Defined.

Lemma alias_synonym_witness :
  _resolve fnmatch.fnmatch no_close_matches builtin_shell ("LL" +:+ " >Sales")
  = _resolve fnmatch.fnmatch no_close_matches builtin_shell
      ("list" +:+ " >Sales").
Proof.
  apply (alias_synonym fnmatch.fnmatch no_close_matches [] [] "ll" "list").
  - unfold ALIASES. apply list_elem_of_further, list_elem_of_here.
  - reflexivity.
  - right. reflexivity.
Defined.

Lemma cancel_twice_witness :
  h_cancel_batch_requests fnmatch.fnmatch sample_globals
    (h_cancel_batch_requests fnmatch.fnmatch sample_globals sample_store
       ["re*"]).2
    ["re*"]
  = (_ok "cancelled 0 batch request(s)", sample_globals,
     (h_cancel_batch_requests fnmatch.fnmatch sample_globals sample_store
        ["re*"]).2).
Proof.
  apply (cancel_twice fnmatch.fnmatch sample_globals sample_store ["re*"]
           "cancelled 2 batch request(s)").
  reflexivity.
Defined.

Lemma update_twice_witness :
  h_update_batch_requests fnmatch.fnmatch sample_globals
    (h_update_batch_requests fnmatch.fnmatch sample_globals sample_store
       ["re*"; "-queue_priority"; "7"]).2
    ["re*"; "-queue_priority"; "7"]
  = (_ok "updated 0 batch request(s)", sample_globals,
     (h_update_batch_requests fnmatch.fnmatch sample_globals sample_store
        ["re*"; "-queue_priority"; "7"]).2).
Proof.
  apply (update_twice fnmatch.fnmatch sample_globals sample_store
           ["re*"; "-queue_priority"; "7"] "updated 1 batch request(s)").
  reflexivity.
Defined.

Lemma resolve_ignores_case_witness :
  (_resolve fnmatch.fnmatch no_close_matches builtin_shell
     "Display_Current_D  >Sales").1.1
  = (_resolve fnmatch.fnmatch no_close_matches builtin_shell
       "display_current_d  >sales").1.1.
Proof.
  exact (proj1 (resolve_ignores_case fnmatch.fnmatch no_close_matches
                  builtin_shell "Display_Current_D  >Sales"
                  "display_current_d  >sales" eq_refl)).
Defined.

Section CompleteDefaultFacts.
Variable fnmatch_fn : string → string → bool.
Variable get_close_matches : string → list string → list string.
Variable listdir : string → option (list string).
Variable isdir : string → bool.

(** X27: every completion that [completedefault] offers starts with the text,
    up to letter case, and there are completions only when the first
    word of the line resolves to a file or directory command. *)
Theorem completedefault_extends_text sh g text line :
  Forall (λ s, startswith (lower s) (lower text) = true)
         (completedefault fnmatch_fn get_close_matches listdir isdir
            sh g text line)
  ∧ (completedefault fnmatch_fn get_close_matches listdir isdir
       sh g text line ≠ [] →
     ∃ cmd_token rest resolved,
       split_ws line = cmd_token :: rest
       ∧ (_resolve fnmatch_fn get_close_matches sh cmd_token).1.1
         = Some resolved
       ∧ resolved ∈ FILE_COMMANDS ++ DIR_COMMANDS).
Proof.
  unfold completedefault. rewrite split_ws_strip.
  destruct (split_ws line) as [|cmd_token rest]; [split; [constructor | intros H; by destruct H] |].
  destruct (_resolve fnmatch_fn get_close_matches sh cmd_token).1.1
    as [resolved|] eqn:Hr; [|split; [constructor | intros H; by destruct H]].
  destruct (str_in resolved FILE_COMMANDS || str_in resolved DIR_COMMANDS)
    eqn:E; [|split; [constructor | intros H; by destruct H]].
  split; [apply complete_path_extends_text |].
  intros _. exists cmd_token, rest, resolved. split; [done |]. split; [done |].
  apply elem_of_app. apply orb_true_iff in E as [E | E];
    apply str_in_elem in E; [by left | by right].
Qed.
End CompleteDefaultFacts.

Lemma unhex_hex b : unhex_byte (hex_byte b) = Some b.
Proof. destruct b; reflexivity. Qed.

Lemma hex_byte_word b : is_word (hex_byte b) = true.
Proof. destruct b; reflexivity. Qed.

Lemma split_ws_word_then a r :
  is_word a = true → split_ws (a +:+ String " " r) = a :: split_ws r.
Proof.
  intros Ha. induction a as [|c a IH]; [done |].
  unfold is_word in Ha. cbn [nonempty is_empty negb andb str_all] in Ha.
  apply andb_true_iff in Ha as [Hc Ha]. apply negb_true_iff in Hc.
  rewrite append_cons, split_ws_cons, Hc.
  destruct a as [|c' a'].
  - rewrite append_nil_l. change (isspace " ") with true. cbv iota.
    rewrite split_ws_cons. change (isspace " ") with true. by cbv iota.
  - rewrite append_cons.
    cbn [str_all] in Ha. apply andb_true_iff in Ha as [Hc' Ha'].
    apply negb_true_iff in Hc' as Hsp. rewrite Hsp.
    rewrite <- append_cons, IH; [done |].
    unfold is_word. cbn [nonempty is_empty negb andb str_all].
    by rewrite Hc', Ha'.
Qed.

Lemma split_ws_join ws :
  Forall (λ w, is_word w = true) ws → split_ws (str_join " " ws) = ws.
Proof.
  induction 1 as [|w ws Hw Hws IH]; [done |].
  destruct ws as [|w' ws']; [by apply split_ws_word |].
  rewrite str_join_cons2. change (" " +:+ ?x) with (String " " x).
  by rewrite split_ws_word_then, IH.
Qed.

Lemma rstrip_spaces n : rstrip_by isspace (posixpath.repeat_str " " n) = "".
Proof.
  induction n as [|n IH]; [done |]. cbn [posixpath.repeat_str].
  change (" " +:+ ?x) with (String " " x). rewrite rstrip_by_cons, IH. done.
Qed.

Lemma rstrip_app_spaces s n :
  rstrip_by isspace (s +:+ posixpath.repeat_str " " n) = rstrip_by isspace s.
Proof.
  induction s as [|c s IH].
  - rewrite append_nil_l. apply rstrip_spaces.
  - by rewrite append_cons, !rstrip_by_cons, IH.
Qed.

Lemma split_ws_ljust w s : split_ws (ljust w s) = split_ws s.
Proof.
  unfold ljust. by rewrite <- split_ws_rstrip, rstrip_app_spaces, split_ws_rstrip.
Qed.

Lemma hex_join_length (chunk : list Byte.byte) :
  String.length (str_join " " (List.map hex_byte chunk))
  = 3 * length chunk - 1.
Proof.
  induction chunk as [|b chunk IH]; [done |].
  destruct chunk as [|b' chunk'].
  - by destruct b.
  - change (List.map hex_byte (b :: b' :: chunk'))
      with (hex_byte b :: List.map hex_byte (b' :: chunk')).
    change (List.map hex_byte (b' :: chunk'))
      with (hex_byte b' :: List.map hex_byte chunk') in *.
    rewrite str_join_cons2, !append_length, IH.
    change (String.length (hex_byte b)) with 2.
    change (String.length " ") with 1. simpl length. lia.
Qed.

Lemma hex_go_length fuel n k :
  n < 16 ^ k → String.length (hex_go fuel n) ≤ k.
Proof.
  revert n k. induction fuel as [|fuel IH]; intros n k Hn;
    cbn [hex_go String.length]; [lia |].
  destruct (Nat.eqb_spec n 0) as [-> | Hne]; [cbn [String.length]; lia |].
  destruct k as [|k]; [rewrite Nat.pow_0_r in Hn; lia |].
  rewrite append_length. cbn [String.length].
  enough (String.length (hex_go fuel (n / 16)) ≤ k) by lia.
  apply IH. apply Nat.Div0.div_lt_upper_bound.
  rewrite Nat.pow_succ_r' in Hn. lia.
Qed.

Lemma zfill_length w s : String.length s ≤ w → String.length (zfill w s) = w.
Proof.
  intros H. unfold zfill. rewrite append_length, repeat_str_length. lia.
Qed.

Lemma offset_length offset :
  offset < 16 ^ 8 → String.length (zfill 8 (hex_of_nat offset)) = 8.
Proof.
  intros H. apply zfill_length. unfold hex_of_nat.
  destruct (offset =? 0); [simpl; lia |]. by apply hex_go_length.
Qed.

Lemma str_drop_app_more n a b :
  String.length a = n → str_drop n (a +:+ b) = b.
Proof. intros <-. apply str_drop_app. Qed.

Lemma line_bytes_dump_line offset chunk :
  offset < 16 ^ 8 → length chunk ≤ 16 →
  line_bytes (dump_line offset chunk) = chunk.
Proof.
  intros Hoff Hlen. unfold line_bytes, dump_line.
  set (hex := ljust 47 (str_join " " (List.map hex_byte chunk))).
  set (text := String.string_of_list_ascii (List.map printable chunk)).
  assert (String.length hex = 47) as Hhex.
  { apply ljust_length. rewrite hex_join_length. lia. }
  assert (str_drop 10 (zfill 8 (hex_of_nat offset) +:+ "  " +:+ hex +:+ "  "
                       +:+ text)
          = hex +:+ "  " +:+ text) as ->.
  { rewrite <- append_assoc. apply str_drop_app_more.
    rewrite append_length, offset_length by done. done. }
  rewrite <- Hhex, str_take_app. unfold hex. rewrite split_ws_ljust.
  rewrite split_ws_join.
  2:{ apply Forall_forall. intros w Hw.
      apply list_elem_of_In, in_map_iff in Hw as (b & <- & _).
      apply hex_byte_word. }
  clear. induction chunk as [|b chunk IH]; [done |].
  change (omap unhex_byte (List.map hex_byte (b :: chunk)))
    with (match unhex_byte (hex_byte b) with
          | Some y => y :: omap unhex_byte (List.map hex_byte chunk)
          | None => omap unhex_byte (List.map hex_byte chunk)
          end).
  by rewrite unhex_hex, IH.
Qed.

Lemma dump_lines_cons fuel offset b data :
  dump_lines (S fuel) offset (b :: data)
  = dump_line offset (take 16 (b :: data))
    :: dump_lines fuel (offset + 16) (drop 16 (b :: data)).
Proof. reflexivity. Qed.

Lemma undump_cons line lines :
  undump (line :: lines) = line_bytes line ++ undump lines.
Proof. reflexivity. Qed.

Lemma undump_dump_lines fuel offset data :
  length data ≤ fuel → (data ≠ [] → offset + length data ≤ 16 ^ 8) →
  undump (dump_lines fuel offset data) = data.
Proof.
  remember (16 ^ 8) as lim eqn:Hlim.
  revert offset data. induction fuel as [|fuel IH]; intros offset data Hf Ho.
  - destruct data; [done | cbn [length] in Hf; lia].
  - destruct data as [|b data']; [done |].
    rewrite dump_lines_cons, undump_cons.
    specialize (Ho ltac:(done)). cbn [length] in Hf, Ho.
    rewrite line_bytes_dump_line.
    + rewrite IH; [apply take_drop | |].
      * rewrite length_drop. cbn [length]. lia.
      * intros Hrest. rewrite length_drop. cbn [length].
        assert (length (drop 16 (b :: data')) ≠ 0) as Hpos
          by (by destruct (drop 16 (b :: data'))).
        rewrite length_drop in Hpos. cbn [length] in Hpos. lia.
    + rewrite <- Hlim. lia.
    + rewrite length_take. lia.
Qed.

Section DumpFacts.
Variable isdir : string → bool.
Variable read_file : string → file_read.

(** X28: the dump of a readable file of at most [16 ^ 8] bytes holds the
    file: the bytes read back from the hexadecimal column of its lines
    are the contents, and an empty file has no lines. *)
Theorem dump_file_round_trip g a data :
  isdir (resolve_state_path g a) = false →
  read_file (resolve_state_path g a) = FileData data →
  (Z.of_nat (length data) ≤ 16 ^ 8)%Z →
  ∃ lines,
    h_dump_file isdir read_file g [a] = (str_join nl lines, g)
    ∧ undump lines = data
    ∧ (data = [] → lines = []).
Proof.
  intros Hdir Hread Hlen. unfold h_dump_file. rewrite Hdir, Hread.
  exists (dump_lines (length data) 0 data). split; [done |]. split.
  - apply undump_dump_lines; [done |]. intros _.
    apply Nat2Z.inj_le. rewrite Nat.add_0_l, Nat2Z.inj_pow. exact Hlen.
  - by intros ->.
Qed.
End DumpFacts.

Lemma dump_file_round_trip_witness :
  ∃ lines,
    h_dump_file (λ _, false) sample_read sample_globals ["a"]
    = (str_join nl lines, sample_globals)
    ∧ undump lines = [Byte.x00; Byte.x01].
Proof.
  destruct (dump_file_round_trip (λ _, false) sample_read sample_globals "a"
              [Byte.x00; Byte.x01] eq_refl eq_refl)
    as (lines & Hout & Hback & _).
  - cbn [length]. lia.
  - by exists lines.
Defined.
